(** * Pivot & bucketing engine (src/pivot_engine.py): a shallow embedding

    The engine is a thin layer of Python over pandas.  The embedding keeps
    the Python control flow of every method of [PivotEngine] (branches,
    [try]/[except], evaluation order, the working copy of the caller's
    table) and gives the pandas primitives it calls ([pd.cut], [pd.qcut],
    [pd.crosstab], [reindex], [fillna], [round], element-wise arithmetic)
    by their documented behaviour.

    Numbers.  A pandas cell is an IEEE double or an integer.  Finite values
    are modelled by canonical rationals [Qc] (every finite double is one),
    together with the three special values [+inf], [-inf] and [NaN].
    Comparisons are exact; arithmetic on finite values is exact rational
    arithmetic, so binary rounding error and the sign of zero are outside
    the model.  The division rules that matter to the engine ([x/0] is
    infinite for [x <> 0], [0/0] is [NaN]) are the IEEE ones.  A property
    that states the value of a cell is therefore stated either for inputs
    on which double arithmetic is exact too (whole numbers that add up
    within 2^53, [exact_sums]; edges and cells that are doubles,
    [is_double]), or up to the rounding error of doubles ([float_noise]).

    Audiences.  [get_audience_definitions] and [filter_by_audience] of
    [DataGenerator] (src/data_generator.py), which select the rows the
    engine is given, follow the engine; pandas' element-wise comparison of
    a column with a literal is a parameter there. *)

From Stdlib Require Import QArith Qcanon Qround Qabs Lqa Ascii String.
From stdpp Require Import gmap strings list numbers sorting.

Local Open Scope string_scope.
Local Open Scope list_scope.
Local Open Scope nat_scope.

(** ** Numbers *)

Inductive num :=
| Fin (q : Qc)
| PInf
| NInf
| NaN.

#[global] Instance num_eq_dec : EqDecision num.
Proof. solve_decision. Defined.

Definition qz (z : Z) : Qc := Q2Qc (inject_Z z).
Definition qfrac (n : Z) (d : positive) : Qc := Q2Qc (n # d).
Definition nz (z : Z) : num := Fin (qz z).

Definition num_isnan (x : num) : bool :=
  match x with NaN => true | _ => false end.

Definition num_isinf (x : num) : bool :=
  match x with PInf | NInf => true | _ => false end.

(** Sign of a finite value, as the comparison of [0] with it: [Lt] for a
    positive value, [Eq] for zero, [Gt] for a negative one. *)
Definition qsign (q : Qc) : comparison := (0 ?= q)%Qc.

Definition num_neg (x : num) : num :=
  match x with
  | Fin q => Fin (- q)%Qc
  | PInf => NInf
  | NInf => PInf
  | NaN => NaN
  end.

Definition num_add (x y : num) : num :=
  match x, y with
  | NaN, _ | _, NaN => NaN
  | Fin a, Fin b => Fin (a + b)%Qc
  | PInf, NInf | NInf, PInf => NaN
  | PInf, _ | _, PInf => PInf
  | NInf, _ | _, NInf => NInf
  end.

Definition num_sub (x y : num) : num := num_add x (num_neg y).

Definition inf_of_sign (c : comparison) : num :=
  match c with Lt => PInf | Gt => NInf | Eq => NaN end.

Definition num_mul (x y : num) : num :=
  match x, y with
  | NaN, _ | _, NaN => NaN
  | Fin a, Fin b => Fin (a * b)%Qc
  | PInf, Fin q | Fin q, PInf => inf_of_sign (qsign q)
  | NInf, Fin q | Fin q, NInf => num_neg (inf_of_sign (qsign q))
  | PInf, PInf | NInf, NInf => PInf
  | PInf, NInf | NInf, PInf => NInf
  end.

(** IEEE division; a zero denominator is taken as [+0]. *)
Definition num_div (x y : num) : num :=
  match x, y with
  | NaN, _ | _, NaN => NaN
  | Fin a, Fin b =>
      if decide (b = 0%Qc) then inf_of_sign (qsign a) else Fin (a / b)%Qc
  | Fin _, (PInf | NInf) => Fin 0%Qc
  | PInf, Fin b => if decide (b = 0%Qc) then PInf else inf_of_sign (qsign b)
  | NInf, Fin b =>
      if decide (b = 0%Qc) then NInf else num_neg (inf_of_sign (qsign b))
  | (PInf | NInf), (PInf | NInf) => NaN
  end.

(** Comparisons; every comparison with [NaN] is false. *)
Definition num_ltb (x y : num) : bool :=
  match x, y with
  | NaN, _ | _, NaN => false
  | Fin a, Fin b => bool_decide (a < b)%Qc
  | NInf, NInf | PInf, _ | _, NInf => false
  | NInf, _ | _, PInf => true
  end.

Definition num_eqb (x y : num) : bool :=
  match x, y with
  | NaN, _ | _, NaN => false
  | _, _ => bool_decide (x = y)
  end.

Definition num_leb (x y : num) : bool := num_ltb x y || num_eqb x y.

(** [numpy.round(x, d)]: scale by [10^d], round half to even, scale back. *)
Definition round_half_even (q : Q) : Z :=
  let n := Qnum q in
  let d := Z.pos (Qden q) in
  let fl := (n / d)%Z in
  match (2 * (n mod d) ?= d)%Z with
  | Lt => fl
  | Gt => (fl + 1)%Z
  | Eq => if Z.even fl then fl else (fl + 1)%Z
  end.

Definition qround (d : nat) (q : Qc) : Qc :=
  let scale := Z.pow 10 (Z.of_nat d) in
  Q2Qc (Qmake (round_half_even (Qmult q (inject_Z scale))) (Z.to_pos scale)).

Definition num_round (d : nat) (x : num) : num :=
  match x with
  | Fin q => Fin (qround d q)
  | _ => x
  end.

(** ** Cell values, series and tables *)

(** What a column or an axis label can hold: a number, a string, a boolean,
    a timestamp (nanoseconds since the epoch), a category produced by
    [pd.cut]/[pd.qcut] with explicit labels ([VCat], the position of the
    category and its label), an interval category produced by [pd.cut]
    without labels ([VInterval], the position of the bin and its two
    edges as given in [bins]; pandas prints the edges rounded to its
    display precision and, under [include_lowest], the first left edge
    lowered by [10^-precision]), or a missing entry ([VNA]: [None], [NaT],
    the code [-1] of a categorical). *)
Inductive value :=
| VNum (x : num)
| VStr (s : string)
| VBool (b : bool)
| VTime (t : Z)
| VCat (code : nat) (name : string)
| VInterval (code : nat) (lo hi : num)
| VNA.

#[global] Instance value_eq_dec : EqDecision value.
Proof. solve_decision. Defined.

Abbreviation series := (list value).

(** [pd.isna] *)
Definition isna (v : value) : bool :=
  match v with
  | VNA | VNum NaN => true
  | _ => false
  end.

(** A DataFrame as the engine sees it: a mapping from column name to
    column.  All columns of a table have the same length. *)
Abbreviation frame := (gmap string series).

(** ** Exceptions *)

Inductive exn := KeyError | ValueError | TypeError | UnboundLocalError.

#[global] Instance exn_eq_dec : EqDecision exn.
Proof. solve_decision. Defined.

Inductive result (A : Type) :=
| Ok (a : A)
| Raise (e : exn).
Arguments Ok {A} a.
Arguments Raise {A} e.

#[global] Instance result_eq_dec `{EqDecision A} : EqDecision (result A).
Proof. solve_decision. Defined.

#[global] Instance result_bind : MBind result := λ A B k r,
  match r with
  | Ok a => k a
  | Raise e => Raise e
  end.

#[global] Instance result_ret : MRet result := λ A a, Ok a.

#[global] Instance result_fmap : FMap result := λ A B f r,
  match r with
  | Ok a => Ok (f a)
  | Raise e => Raise e
  end.

Fixpoint rmap {A B} (f : A → result B) (l : list A) : result (list B) :=
  match l with
  | [] => Ok []
  | a :: l' => b ← f a; bs ← rmap f l'; Ok (b :: bs)
  end.

(** [try: body except E: handler] for a set [catches] of exceptions. *)
Definition try_except {A} (body : result A) (catches : exn → bool)
    (handler : result A) : result A :=
  match body with
  | Ok a => Ok a
  | Raise e => if catches e then handler else Raise e
  end.

Definition is_ValueError (e : exn) : bool := bool_decide (e = ValueError).
Definition is_Exception (e : exn) : bool := true.

(** ** Python strings: [in], [split], [strip], [float] *)

Definition ascii_nat (a : Ascii.ascii) : nat := nat_of_ascii a.

(** [str.isspace] on one character (code points below 256). *)
Definition is_space (a : ascii) : bool :=
  let n := ascii_nat a in
  (((9 <=? n) && (n <=? 13)) || ((28 <=? n) && (n <=? 32))
   || (n =? 133) || (n =? 160))%nat.

Fixpoint contains_char (c : ascii) (s : string) : bool :=
  match s with
  | EmptyString => false
  | String a s' => if decide (a = c) then true else contains_char c s'
  end.

(** [s.split(c)] for a one-character separator: never empty, one more
    token than there are separators. *)
Fixpoint split_char (c : ascii) (s : string) : list string :=
  match s with
  | EmptyString => [EmptyString]
  | String a s' =>
      if decide (a = c) then EmptyString :: split_char c s'
      else match split_char c s' with
           | [] => [String a EmptyString]
           | t :: ts => String a t :: ts
           end
  end.

Fixpoint lstrip (s : string) : string :=
  match s with
  | String a s' => if is_space a then lstrip s' else s
  | EmptyString => EmptyString
  end.

Definition string_rev (s : string) : string :=
  string_of_list_ascii (rev (list_ascii_of_string s)).

Definition strip (s : string) : string :=
  string_rev (lstrip (string_rev (lstrip s))).

Definition digit_of (a : ascii) : option Z :=
  let n := ascii_nat a in
  if ((48 <=? n) && (n <=? 57))%nat then Some (Z.of_nat (n - 48)) else None.

Definition lower (a : ascii) : ascii :=
  let n := ascii_nat a in
  if ((65 <=? n) && (n <=? 90))%nat then ascii_of_nat (n + 32) else a.

Fixpoint lower_string (s : string) : string :=
  match s with
  | EmptyString => EmptyString
  | String a s' => String (lower a) (lower_string s')
  end.

(** A run of decimal digits in which single underscores may separate
    digits ([1_000]).  Returns the value of the run, the number of digits
    and the rest of the input; [prev] tells whether the previous character
    was a digit (an underscore is legal only between two digits). *)
Fixpoint digit_run (s : string) (acc : Z) (n : nat) (prev : bool)
    : option (Z * nat * string) :=
  match s with
  | EmptyString => Some (acc, n, s)
  | String a s' =>
      match digit_of a with
      | Some d => digit_run s' (10 * acc + d)%Z (S n) true
      | None =>
          if decide (a = "_"%char) then
            match s' with
            | String b _ =>
                if prev && bool_decide (is_Some (digit_of b))
                then digit_run s' acc n false
                else None
            | EmptyString => None
            end
          else Some (acc, n, s)
      end
  end.

Definition parse_sign (s : string) : bool * string :=
  match s with
  | String "-" s' => (true, s')
  | String "+" s' => (false, s')
  | _ => (false, s)
  end.

Definition pow10 (e : Z) : Qc :=
  if (0 <=? e)%Z then qz (10 ^ e) else (/ qz (10 ^ (- e)))%Qc.

(** The unsigned decimal literal [digits [. digits] [e [sign] digits]],
    with at least one digit in the mantissa. *)
Definition parse_decimal (s : string) : option Qc :=
  '(ip, ni, s1) ← digit_run s 0 0 false;
  '(fp, nf, s2) ← match s1 with
                  | String "." s1' => digit_run s1' 0 0 false
                  | _ => Some (0%Z, 0, s1)
                  end;
  if (ni + nf =? 0)%nat then None else
  let mant := (qz ip + qz fp * pow10 (- Z.of_nat nf))%Qc in
  match s2 with
  | EmptyString => Some mant
  | String c s3 =>
      if bool_decide (lower c = "e"%char) then
        let '(neg, s4) := parse_sign s3 in
        '(ex, ne, s5) ← digit_run s4 0 0 false;
        if (ne =? 0)%nat then None else
        match s5 with
        | EmptyString => Some (mant * pow10 (if neg then - ex else ex))%Qc
        | _ => None
        end
      else None
  end.

(** Python's [float(s)]; [ValueError] when [s] is not a float literal.
    A literal too large for a double overflows to infinity in Python and
    keeps its exact value here. *)
Definition float (s : string) : result num :=
  let '(neg, body) := parse_sign (strip s) in
  let low := lower_string body in
  if bool_decide (low = "nan") then Ok NaN
  else if bool_decide (low = "inf") || bool_decide (low = "infinity")
  then Ok (if neg then NInf else PInf)
  else match parse_decimal body with
       | Some q => Ok (Fin (if neg then - q else q)%Qc)
       | None => Raise ValueError
       end.

(** ** pandas: binning ([pd.cut], [pd.qcut]) *)

(** The numeric reading of a cell: booleans count as 0/1, a missing cell as
    [NaN]; comparing any other cell with a number is a [TypeError]. *)
Definition to_numeric (v : value) : result num :=
  match v with
  | VNum x => Ok x
  | VBool b => Ok (nz (if b then 1 else 0))
  | VNA => Ok NaN
  | _ => Raise TypeError
  end.

(** [Index.is_monotonic_increasing] *)
Fixpoint monotonic_increasing (bins : list num) : bool :=
  match bins with
  | b1 :: rest =>
      match rest with
      | b2 :: _ => num_leb b1 b2 && monotonic_increasing rest
      | [] => true
      end
  | [] => true
  end.

(** [bins.searchsorted(x, side="left")] on increasing [bins]: the number of
    leading edges strictly below [x]; [NaN] sorts after every edge. *)
Fixpoint count_below (bins : list num) (x : num) : nat :=
  match bins with
  | [] => 0
  | b :: bs => if num_ltb b x then S (count_below bs x) else 0
  end.

Definition searchsorted_left (bins : list num) (x : num) : nat :=
  if num_isnan x then length bins else count_below bins x.

(** The category with position [code]. *)
Definition bin_label (bins : list num) (labels : option (list string))
    (code : nat) : value :=
  match labels with
  | Some ls =>
      match ls !! code with
      | Some s => VCat code s
      | None => VNA
      end
  | None =>
      match bins !! code, bins !! S code with
      | Some lo, Some hi => VInterval code lo hi
      | _, _ => VNA
      end
  end.

(** The bucket of one value: right-closed bins [(b_i, b_i+1]]; with
    [include_lowest] the value equal to the first edge joins the first bin;
    a value in no bin, or [NaN], is missing. *)
Definition cut_one (bins : list num) (labels : option (list string))
    (include_lowest : bool) (x : num) : value :=
  let ids := searchsorted_left bins x in
  let ids := if include_lowest && num_eqb x (default NaN (head bins))
             then 1 else ids in
  if num_isnan x || (ids =? length bins)%nat || (ids =? 0)%nat then VNA
  else bin_label bins labels (ids - 1).

(** pandas' [_bins_to_cuts], shared by [cut] and [qcut]; [drop] is
    [duplicates="drop"].  The checks come in the order pandas makes them. *)
Definition bins_to_cuts (xs : series) (bins : list num)
    (labels : option (list string)) (include_lowest drop : bool)
    : result series :=
  let unique_bins := remove_dups bins in
  bins ← (if bool_decide (length unique_bins < length bins)%nat
             && negb (length bins =? 2)%nat
          then if drop then Ok unique_bins else Raise ValueError
          else Ok bins);
  nums ← rmap to_numeric xs;
  _ ← match labels with
      | Some ls =>
          if bool_decide (NoDup ls) && (length ls =? length bins - 1)%nat
          then Ok tt else Raise ValueError
      | None => Ok tt
      end;
  Ok (map (cut_one bins labels include_lowest) nums).

(** [pd.cut(x, bins=[...], labels=..., include_lowest=...)] *)
Definition pd_cut (xs : series) (bins : list num)
    (labels : option (list string)) (include_lowest : bool) : result series :=
  if monotonic_increasing bins
  then bins_to_cuts xs bins labels include_lowest false
  else Raise ValueError.

Definition num_le (x y : num) : Prop := num_leb x y = true.

#[global] Instance num_le_dec : RelDecision num_le.
Proof. intros x y. unfold num_le. apply _. Defined.

(** [Series.quantile(p)] with linear interpolation, over the sorted
    non-missing data. *)
Definition quantile (sorted : list num) (p : Qc) : num :=
  match sorted with
  | [] => NaN
  | _ =>
      let h := (p * qz (Z.of_nat (length sorted - 1)))%Qc in
      let lo := Qfloor h in
      let frac := (h - qz lo)%Qc in
      let a := default NaN (sorted !! Z.to_nat lo) in
      let b := default a (sorted !! S (Z.to_nat lo)) in
      if decide (frac = 0%Qc) then a
      else num_add a (num_mul (num_sub b a) (Fin frac))
  end.

(** [pd.qcut(x, q, labels=..., duplicates=...)]: the edges are the
    quantiles [0, 1/q, ..., 1] of the data, the lowest edge included. *)
Definition pd_qcut (xs : series) (q : nat) (labels : option (list string))
    (drop : bool) : result series :=
  nums ← rmap to_numeric xs;
  let sorted := merge_sort num_le (filter (λ x, num_isnan x = false) nums) in
  let bins :=
    map (λ i, quantile sorted (qz (Z.of_nat i) / qz (Z.of_nat q))%Qc)
        (seq 0 (S q)) in
  bins_to_cuts xs bins labels true drop.

(** ** pandas: axis labels, pivot tables and cross-tabulation *)

Definition value_rank (v : value) : nat :=
  match v with
  | VNum _ => 0 | VBool _ => 1 | VStr _ => 2 | VTime _ => 3
  | VCat _ _ => 4 | VInterval _ _ _ => 5 | VNA => 6
  end.

(** The order in which pandas sorts the labels of an axis: the natural
    order inside each kind of label (categories by position). *)
Definition value_leb (a b : value) : bool :=
  match a, b with
  | VNum x, VNum y => num_leb x y
  | VBool x, VBool y => implb x y
  | VStr s, VStr t => String.leb s t
  | VTime s, VTime t => (s <=? t)%Z
  | VCat i _, VCat j _ => (i <=? j)%nat
  | VInterval i _ _, VInterval j _ _ => (i <=? j)%nat
  | _, _ => (value_rank a <=? value_rank b)%nat
  end.

Definition value_le (a b : value) : Prop := value_leb a b = true.

#[global] Instance value_le_dec : RelDecision value_le.
Proof. intros x y. unfold value_le. apply _. Defined.

(** The labels of an axis: each label once, sorted. *)
Definition sort_labels (l : list value) : list value :=
  merge_sort value_le (remove_dups l).

(** [Index.union] *)
Definition index_union (a b : list value) : list value :=
  sort_labels (a ++ b).

(** A two-axis result table (a pandas DataFrame indexed by row labels and
    column labels), stored row by row. *)
Record pivot := Pivot {
  index : list value;
  columns : list value;
  data : list (list num)
}.

#[global] Instance pivot_eq_dec : EqDecision pivot.
Proof. solve_decision. Defined.

Definition position (v : value) (l : list value) : option nat :=
  fst <$> list_find (λ x, x = v) l.

(** [p.loc[r, c]], when both labels are on the axes. *)
Definition loc (p : pivot) (r c : value) : option num :=
  i ← position r (index p);
  j ← position c (columns p);
  row ← data p !! i;
  row !! j.

Definition df_map (f : num → num) (p : pivot) : pivot :=
  Pivot (index p) (columns p) (map (map f) (data p)).

(** Element-wise operation of two tables carrying the same labels. *)
Definition df_zip (f : num → num → num) (p q : pivot) : pivot :=
  Pivot (index p) (columns p) (zip_with (zip_with f) (data p) (data q)).

Definition fillna (v : num) (p : pivot) : pivot :=
  df_map (λ x, if num_isnan x then v else x) p.

Definition df_round (d : nat) (p : pivot) : pivot := df_map (num_round d) p.

(** [df.replace([np.inf, -np.inf], v)] *)
Definition replace_inf (v : num) (p : pivot) : pivot :=
  df_map (λ x, if num_isinf x then v else x) p.

(** [df.reindex(index=..., columns=..., fill_value=...)]: cells of label
    pairs the table already has keep their value, the others get
    [fill_value]. *)
Definition reindex (p : pivot) (new_index new_columns : list value)
    (fill_value : num) : pivot :=
  Pivot new_index new_columns
    (map (λ r, map (λ c, default fill_value (loc p r c)) new_columns)
         new_index).

(** Aggregation functions of [groupby]: missing values are skipped by
    [sum] and [mean]; [len] counts every row. *)
Definition agg_len (l : list num) : num := nz (Z.of_nat (length l)).

Definition agg_sum (l : list num) : num :=
  foldl num_add (nz 0) (filter (λ x, num_isnan x = false) l).

Definition agg_mean (l : list num) : num :=
  let present := filter (λ x, num_isnan x = false) l in
  match present with
  | [] => NaN
  | _ => num_div (foldl num_add (nz 0) present)
                 (nz (Z.of_nat (length present)))
  end.

(** The rows that take part in a cross-tabulation: those whose row label
    and column label are both present ([dropna=True]). *)
Definition keyed_rows (x y : series) (vals : list num)
    : list (value * value * num) :=
  filter (λ t, isna t.1.1 = false ∧ isna t.1.2 = false) (zip (zip x y) vals).

Definition group (rows : list (value * value * num)) (k : value * value)
    : list num :=
  (filter (λ t, t.1 = k) rows).*2.

Fixpoint assoc {K V} `{EqDecision K} (k : K) (l : list (K * V)) : option V :=
  match l with
  | [] => None
  | (k', v) :: l' => if decide (k' = k) then Some v else assoc k l'
  end.

(** [DataFrame.pivot_table] as [pd.crosstab] calls it: group the rows by
    label pair, aggregate each group, drop the groups whose aggregate is
    missing, and lay the rest out on the sorted row and column labels; a
    pair without a group holds [fill_value], or [NaN] when there is none.
    With the default [dropna=True] the categories of a categorical column
    that no row carries are not on the axes. *)
Definition pivot_table (x y : series) (vals : list num)
    (aggfunc : list num → num) (fill_value : option num) : pivot :=
  let rows := keyed_rows x y vals in
  let keys := remove_dups rows.*1 in
  let agged :=
    filter (λ kv, num_isnan kv.2 = false)
           (map (λ k, (k, aggfunc (group rows k))) keys) in
  let idx := sort_labels agged.*1.*1 in
  let cols := sort_labels agged.*1.*2 in
  let hole := default NaN fill_value in
  let cell r c :=
    let v := default hole (assoc (r, c) agged) in
    match fill_value with
    | Some f => if num_isnan v then f else v
    | None => v
    end in
  Pivot idx cols (map (λ r, map (cell r) cols) idx).

(** [pd.crosstab(x, y)] counts the rows of each label pair (a dummy column
    aggregated with [len], holes filled with 0);
    [pd.crosstab(x, y, values=v, aggfunc=f)] aggregates [v]. *)
Definition crosstab (x y : series)
    (values : option (list num * (list num → num))) : pivot :=
  match values with
  | None => pivot_table x y (replicate (length x) (nz 0)) agg_len (Some (nz 0))
  | Some (vals, aggfunc) => pivot_table x y vals aggfunc None
  end.

(** ** The object store

    DataFrames are Python objects: the caller hands the engine a reference
    to its table.  The store maps references to tables; an engine method is
    a computation that reads and extends the store and either returns or
    raises. *)

Abbreviation heap := (gmap nat frame).

Definition M (A : Type) : Type := heap → result A * heap.

#[global] Instance M_ret : MRet M := λ A a h, (Ok a, h).

#[global] Instance M_bind : MBind M := λ A B k m h,
  match m h with
  | (Ok a, h') => k a h'
  | (Raise e, h') => (Raise e, h')
  end.

#[global] Instance M_fmap : FMap M := λ A B f m h,
  match m h with
  | (Ok a, h') => (Ok (f a), h')
  | (Raise e, h') => (Raise e, h')
  end.

(** A pure pandas call inside a method. *)
Definition lift {A} (r : result A) : M A := λ h, (r, h).

(** [df.copy()]: a new object holding the same columns.  A reference
    always denotes an object of the store; the engine is never handed a
    dangling one. *)
Definition df_copy (df : nat) : M nat := λ h,
  match h !! df with
  | Some t => let l := fresh (dom h) in (Ok l, <[l := t]> h)
  | None => (Raise KeyError, h)
  end.

(** [df[col]]: [KeyError] when the table has no such column. *)
Definition getitem (df : nat) (col : string) : M series := λ h,
  match h !! df ≫= (λ t : frame, t !! col) with
  | Some s => (Ok s, h)
  | None => (Raise KeyError, h)
  end.

(** ** PivotEngine *)

(** The bucket functions of [bucket_definitions], as data: a [pd.cut] with
    fixed edges and labels, a [pd.qcut] into [q] labelled quantile groups,
    or the calendar period of a timestamp. *)
Inductive period := ByYear | ByMonth | ByQuarter | ByWeek.

Inductive strategy :=
| Cut (bins : list num) (labels : list string)
| QCut (q : nat) (labels : list string)
| Period (p : period).

Definition zs (l : list Z) : list num := map nz l.

(** [self.bucket_definitions] *)
Definition bucket_definitions : list (string * list (string * strategy)) :=
  [ ("age",
     [ ("Young/Old", Cut (zs [0; 35; 100]%Z) ["Young (18-35)"; "Mature (35+)"]);
       ("Three Groups", Cut (zs [0; 25; 45; 100]%Z) ["18-25"; "26-45"; "46+"]);
       ("Fine Grained", Cut (zs [0; 20; 25; 35; 50; 100]%Z)
                            ["18-20"; "21-25"; "26-35"; "36-50"; "50+"]) ]);
    ("days_since_signup",
     [ ("New/Established", Cut (zs [0; 90; 10000]%Z)
                               ["New (0-90 days)"; "Established (90+ days)"]);
       ("Quarterly", Cut (zs [0; 90; 180; 365; 10000]%Z)
                         ["0-3 months"; "3-6 months"; "6-12 months";
                          "1+ years"]);
       ("Monthly", Cut (zs [0; 30; 60; 90; 180; 365; 10000]%Z)
                       ["0-1 month"; "1-2 months"; "2-3 months"; "3-6 months";
                        "6-12 months"; "1+ years"]) ]);
    ("days_since_last_purchase",
     [ ("Recent/Lapsed", Cut (zs [0; 30; 10000]%Z)
                             ["Recent (0-30 days)"; "Lapsed (30+ days)"]);
       ("Recency Groups", Cut (zs [0; 7; 30; 90; 10000]%Z)
                              ["0-7 days"; "8-30 days"; "31-90 days";
                               "90+ days"]);
       ("Weekly", Cut (zs [0; 7; 14; 21; 30; 60; 90; 10000]%Z)
                      ["0-1 week"; "1-2 weeks"; "2-3 weeks"; "3-4 weeks";
                       "1-2 months"; "2-3 months"; "3+ months"]) ]);
    ("signup_date",
     [ ("By Year", Period ByYear);
       ("By Month", Period ByMonth);
       ("By Quarter", Period ByQuarter);
       ("By Week", Period ByWeek) ]);
    ("total_revenue",
     [ ("Low/Medium/High", Cut (zs [0; 100; 500]%Z ++ [PInf])
                               ["Low (<$100)"; "Medium ($100-500)";
                                "High ($500+)"]);
       ("Quartiles", QCut 4 ["Q1 (Bottom 25%)"; "Q2"; "Q3"; "Q4 (Top 25%)"]);
       ("Detailed", Cut (zs [0; 50; 100; 250; 500; 1000]%Z ++ [PInf])
                        ["<$50"; "$50-100"; "$100-250"; "$250-500";
                         "$500-1000"; "$1000+"]) ]);
    ("ltv",
     [ ("Low/Medium/High", Cut (zs [0; 200; 1000]%Z ++ [PInf])
                               ["Low (<$200)"; "Medium ($200-1000)";
                                "High ($1000+)"]);
       ("Quartiles", QCut 4 ["Q1 (Bottom 25%)"; "Q2"; "Q3"; "Q4 (Top 25%)"]);
       ("Detailed", Cut (zs [0; 100; 250; 500; 1000; 2000]%Z ++ [PInf])
                        ["<$100"; "$100-250"; "$250-500"; "$500-1000";
                         "$1000-2000"; "$2000+"]) ]);
    ("total_orders",
     [ ("Low/Medium/High", Cut (zs [0; 2; 10]%Z ++ [PInf])
                               ["Low (0-2)"; "Medium (3-10)"; "High (10+)"]);
       ("Detailed", Cut (zs [0; 1; 3; 5; 10; 20]%Z ++ [PInf])
                        ["0-1"; "2-3"; "4-5"; "6-10"; "11-20"; "20+"]) ]) ].

(** [get_bucket_options] *)
Definition get_bucket_options (dimension : string) : list string :=
  match assoc dimension bucket_definitions with
  | Some strategies => ["No Bucketing"] ++ strategies.*1 ++ ["Custom Buckets"]
  | None => ["No Bucketing"; "Custom Buckets"]
  end.

(** [dimension in self.bucket_definitions and
     bucket_type in self.bucket_definitions[dimension]], with the entry. *)
Definition registered (dimension bucket_type : string) : option strategy :=
  assoc dimension bucket_definitions ≫= assoc bucket_type.

(** [_apply_custom_bucketing].  Inside the two [try] blocks a statement
    either returns from the method ([Some r]) or falls through to the final
    [return series] ([None]). *)
Definition _apply_custom_bucketing (series0 : series) (custom_ranges : string)
    : result series :=
  try_except
    (r ← (if contains_char "," custom_ranges then
            let ranges := map strip (split_char "," custom_ranges) in
            try_except
              (numeric_ranges ← rmap float ranges;
               if bool_decide (2 ≤ length numeric_ranges)%nat
               then Some <$> pd_cut series0 numeric_ranges None true
               else Ok None)
              is_ValueError
              (if bool_decide (1 < length ranges)%nat
               then Some <$> pd_qcut series0 (length ranges) (Some ranges) true
               else Ok None)
          else Ok None);
     Ok (default series0 r))
    is_Exception
    (Ok series0).

Section Engine.

(** The calendar functions behind the four [signup_date] strategies
    ([pd.to_datetime(x).dt.year.astype(str)] and
    [pd.to_datetime(x).dt.to_period(...).astype(str)]) are pandas' own
    date arithmetic; the engine only passes the column through them. *)
Variable to_period : period → series → result series.

Definition run_strategy (st : strategy) (s : series) : result series :=
  match st with
  | Cut bins labels => pd_cut s bins (Some labels) false
  | QCut q labels => pd_qcut s q (Some labels) false
  | Period p => to_period p s
  end.

(** [apply_bucketing] *)
Definition apply_bucketing (series0 : series) (dimension : string)
    (bucket_type custom_ranges : option string) : result series :=
  if bool_decide (bucket_type = Some "No Bucketing")
     || bool_decide (bucket_type = None)
  then Ok series0
  else if bool_decide (bucket_type = Some "Custom Buckets")
          && bool_decide (custom_ranges ≠ None ∧ custom_ranges ≠ Some "")
  then _apply_custom_bucketing series0 (default "" custom_ranges)
  else match bucket_type ≫= registered dimension with
  | Some st => run_strategy st series0
  | None =>
      if bool_decide (dimension = "churn_risk_score") then
        if bool_decide (bucket_type = Some "Risk Levels")
        then pd_cut series0 [nz 0; Fin (qfrac 3 10); Fin (qfrac 7 10); nz 1]
                    (Some ["Low Risk"; "Medium Risk"; "High Risk"]) false
        else Ok series0
      else if bool_decide (dimension = "nps_score") then
        if bool_decide (bucket_type = Some "NPS Categories")
        then pd_cut series0 (zs [0; 6; 8; 10]%Z)
                    (Some ["Detractors (0-6)"; "Passives (7-8)";
                           "Promoters (9-10)"]) false
        else Ok series0
      else Ok series0
  end.

(** [create_pivot_table].  The chain of [if]/[elif] on [metric] has no
    [else]: for any other metric the local [pivot_table] is unbound when
    [pivot_table.fillna(0)] is reached. *)
Definition create_pivot_table (df : nat) (x_axis y_axis metric : string)
    (x_bucket_type y_bucket_type x_custom_ranges y_custom_ranges
       : option string) : M pivot :=
  pivot_df ← df_copy df;
  x_col ← getitem pivot_df x_axis;
  x_data ← lift (apply_bucketing x_col x_axis x_bucket_type x_custom_ranges);
  y_col ← getitem pivot_df y_axis;
  y_data ← lift (apply_bucketing y_col y_axis y_bucket_type y_custom_ranges);
  let aggregate (field : string) (aggfunc : list num → num) : M pivot :=
    col ← getitem pivot_df field;
    vals ← lift (rmap to_numeric col);
    mret (crosstab x_data y_data (Some (vals, aggfunc))) in
  pivot_table ←
    (if bool_decide (metric = "Count") then
       mret (crosstab x_data y_data None)
     else if bool_decide (metric = "Total Revenue") then
       df_round 2 <$> aggregate "total_revenue" agg_sum
     else if bool_decide (metric = "Avg LTV") then
       df_round 2 <$> aggregate "ltv" agg_mean
     else if bool_decide (metric = "Retention Rate") then
       (λ p, df_map (λ v, num_mul v (nz 100)) (df_round 3 p))
         <$> aggregate "is_retained" agg_mean
     else if bool_decide (metric = "Avg AOV") then
       df_round 2 <$> aggregate "average_order_value" agg_mean
     else if bool_decide (metric = "Total Orders") then
       aggregate "total_orders" agg_sum
     else lift (Raise UnboundLocalError));
  mret (fillna (nz 0) pivot_table).

(** The dictionary returned by [compare_segments]. *)
Record comparison_result := Comparison {
  absolute_difference : pivot;
  percentage_difference : pivot;
  pivot1 : pivot;
  pivot2 : pivot
}.

(** [compare_segments] *)
Definition compare_segments (df1 df2 : nat) (x_axis y_axis metric : string)
    (x_bucket_type y_bucket_type : option string) : M comparison_result :=
  p1 ← create_pivot_table df1 x_axis y_axis metric
         x_bucket_type y_bucket_type None None;
  p2 ← create_pivot_table df2 x_axis y_axis metric
         x_bucket_type y_bucket_type None None;
  let all_index := index_union (index p1) (index p2) in
  let all_columns := index_union (columns p1) (columns p2) in
  let p1 := reindex p1 all_index all_columns (nz 0) in
  let p2 := reindex p2 all_index all_columns (nz 0) in
  let difference := df_zip num_sub p1 p2 in
  let percentage_diff :=
    replace_inf (nz 0)
      (df_map (λ v, num_mul v (nz 100))
         (df_zip num_div (df_zip num_sub p1 p2) p2)) in
  mret (Comparison difference percentage_diff p1 p2).

End Engine.

(** ** Notions used by the properties *)

(** The sum of all cells of a table ([p.values.sum()]). *)
Definition pivot_sum (p : pivot) : num :=
  foldl num_add (nz 0) (concat (data p)).

(** The rows of a pair of label columns whose two labels are present. *)
Definition present_rows (x y : series) : list (value * value) :=
  filter (λ k, isna k.1 = false ∧ isna k.2 = false) (zip x y).

(** The table has [n] rows and [m] columns of cells. *)
Definition shape (p : pivot) (n m : nat) : Prop :=
  length (data p) = n ∧ Forall (λ row, length row = m) (data p).

(** The table is the rectangle spanned by the labels of the pairs [keys]:
    its row labels are the first components, its column labels the second
    components, each once; it has a cell exactly for each row label and
    column label; and the cell of a pair that is not in [keys] holds 0. *)
Definition rectangle (p : pivot) (keys : list (value * value)) : Prop :=
  (∀ r, r ∈ index p ↔ ∃ c, (r, c) ∈ keys) ∧
  (∀ c, c ∈ columns p ↔ ∃ r, (r, c) ∈ keys) ∧
  NoDup (index p) ∧ NoDup (columns p) ∧
  shape p (length (index p)) (length (columns p)) ∧
  (∀ r c, is_Some (loc p r c) ↔ r ∈ index p ∧ c ∈ columns p) ∧
  (∀ r c, r ∈ index p → c ∈ columns p → (r, c) ∉ keys →
          loc p r c = Some (nz 0)).

(** A dimension that is used as it is in the table: no strategy is
    asked for. *)
Definition unbucketed (bucket_type : option string) : Prop :=
  bucket_type = None ∨ bucket_type = Some "No Bucketing".

(** A cell that is not a category: the cells of a column that is not
    categorical. *)
Definition plain (v : value) : Prop :=
  match v with
  | VCat _ _ | VInterval _ _ _ => False
  | _ => True
  end.

(** The two metrics that aggregate with [sum]. *)
Definition sums (metric : string) : Prop :=
  metric = "Total Revenue" ∨ metric = "Total Orders".

(** A number that is neither infinite nor [NaN]. *)
Definition finite (v : num) : Prop := ∃ q, v = Fin q.

(** The field a metric aggregates; Count has none. *)
Definition backing_field (metric : string) : option string :=
  if bool_decide (metric = "Total Revenue") then Some "total_revenue"
  else if bool_decide (metric = "Avg LTV") then Some "ltv"
  else if bool_decide (metric = "Retention Rate") then Some "is_retained"
  else if bool_decide (metric = "Avg AOV") then Some "average_order_value"
  else if bool_decide (metric = "Total Orders") then Some "total_orders"
  else None.

(** Retention rate of the rows of a cell, in the words of the
    specification: the mean of [is_retained] read as 0/1, rounded to three
    decimals, then multiplied by 100. *)
Definition retention_rate (retained : list bool) : num :=
  Fin (qround 3 (qz (Z.of_nat (length (filter (λ b, b = true) retained)))
                 / qz (Z.of_nat (length retained)))
       * qz 100)%Qc.

(** Two numbers that differ by at most [eps]. *)
Definition near (eps a b : Q) : Prop := (Qabs (a - b) <= eps)%Q.

(** Two numbers that differ by at most the fraction [eps] of the
    second. *)
Definition near_rel (eps a b : Q) : Prop :=
  (Qabs (a - b) <= eps * Qabs b)%Q.

(** The engine computes in double precision.  Where a cell is the outcome
    of a few multiplications and divisions, its rounding errors add up to
    far less than this fraction of the cell, and to far less than this
    where the numbers lie between 0 and 1000. *)
Definition float_noise : Q := 1 # 1000000000.

(** The values (for Retention Rate, the [is_retained] flags) of the rows
    that carry the label pair [k]. *)
Definition cell_rows {A} (x y : series) (vals : list A) (k : value * value)
    : list A :=
  (filter (λ t, t.1 = k) (zip (zip x y) vals)).*2.

(** What a call leaves in the store, and what it returns or raises. *)
Definition outcome {A} (m : M A) (h : heap) : result A := (m h).1.
Definition final {A} (m : M A) (h : heap) : heap := (m h).2.

(** [df[col]] on the table itself. *)
Definition column (t : frame) (col : string) : result series :=
  match t !! col with
  | Some s => Ok s
  | None => Raise KeyError
  end.

Section Value.

Variable to_period : period → series → result series.

(** The value [create_pivot_table] computes from the contents [t] of the
    caller's table; [create_pivot_table_run] below shows that a call
    returns (or raises) exactly this, whatever else the store holds. *)
Definition pivot_of_frame (t : frame) (x_axis y_axis metric : string)
    (x_bucket_type y_bucket_type x_custom_ranges y_custom_ranges
       : option string) : result pivot :=
  x_col ← column t x_axis;
  x_data ← apply_bucketing to_period x_col x_axis x_bucket_type x_custom_ranges;
  y_col ← column t y_axis;
  y_data ← apply_bucketing to_period y_col y_axis y_bucket_type y_custom_ranges;
  let aggregate (field : string) (aggfunc : list num → num) : result pivot :=
    col ← column t field;
    vals ← rmap to_numeric col;
    Ok (crosstab x_data y_data (Some (vals, aggfunc))) in
  pivot_table ←
    (if bool_decide (metric = "Count") then
       Ok (crosstab x_data y_data None)
     else if bool_decide (metric = "Total Revenue") then
       df_round 2 <$> aggregate "total_revenue" agg_sum
     else if bool_decide (metric = "Avg LTV") then
       df_round 2 <$> aggregate "ltv" agg_mean
     else if bool_decide (metric = "Retention Rate") then
       (λ p, df_map (λ v, num_mul v (nz 100)) (df_round 3 p))
         <$> aggregate "is_retained" agg_mean
     else if bool_decide (metric = "Avg AOV") then
       df_round 2 <$> aggregate "average_order_value" agg_mean
     else if bool_decide (metric = "Total Orders") then
       aggregate "total_orders" agg_sum
     else Raise UnboundLocalError);
  Ok (fillna (nz 0) pivot_table).

End Value.

(** Example tables. *)
Definition two_users : frame :=
  {[ "gender" := [VStr "M"; VStr "F"];
     "country" := [VStr "US"; VStr "UK"];
     "age" := [VNum (nz 10); VNum (nz 150)];
     "is_retained" := [VBool true; VBool false] ]}.

Definition one_cell : frame :=
  {[ "gender" := [VStr "F"; VStr "F"; VStr "F"; VStr "F"];
     "country" := [VStr "US"; VStr "US"; VStr "US"; VStr "US"];
     "is_retained" := [VBool true; VBool true; VBool true; VBool false] ]}.

Definition other_users : frame :=
  {[ "gender" := [VStr "Other"];
     "country" := [VStr "Canada"] ]}.

Definition three_orders : frame :=
  {[ "gender" := [VStr "M"; VStr "F"; VStr "M"];
     "country" := [VStr "US"; VStr "UK"; VStr "US"];
     "total_orders" := [VNum (nz 2); VNum (nz 3); VNum (nz 5)] ]}.

(** The examples below use no [signup_date] strategy; for them the
    calendar functions can be anything. *)
Definition no_periods : period → series → result series :=
  λ _ _, Raise TypeError.

(** The cell of one of the four tables of a comparison. *)
Definition compared_cell (table : comparison_result → pivot) (r c : value)
    (res : result comparison_result) : result (option num) :=
  (λ x, loc (table x) r c) <$> res.

(** The label pairs that have a group. *)
Definition table_keys (x y : series) (vals : list num) : list (value * value) :=
  remove_dups (keyed_rows x y vals).*1.

(** The number of present rows with a given pair of labels. *)
Definition count_pair (x y : series) (k : value * value) : nat :=
  length (filter (λ p, p = k) (present_rows x y)).

(** The layout of a table of counts. *)
Definition count_table (x y : series) : pivot :=
  let keys := remove_dups (present_rows x y) in
  Pivot (sort_labels keys.*1) (sort_labels keys.*2)
    (map (λ r, map (λ c, nz (Z.of_nat (count_pair x y (r, c))))
                   (sort_labels keys.*2))
         (sort_labels keys.*1)).

(** The table on the axes [idx] and [cols] whose cell at [(r, c)] is
    [cell r c]. *)
Definition grid (idx cols : list value) (cell : value → value → num) : pivot :=
  Pivot idx cols (map (λ r, map (cell r) cols) idx).

(** A boolean read as 0/1. *)
Definition bool_num (b : bool) : num := nz (if b then 1 else 0).





(** The sum of a list of whole numbers, and the sum of their absolute
    values. *)
Definition zsum (l : list Z) : Z := foldr Z.add 0%Z l.

Definition zabs_sum (l : list Z) : Z := foldr (λ z a, Z.abs z + a)%Z 0%Z l.

(** Whole numbers that can be added up without error, as 64-bit integers
    and as doubles alike, in whatever order, and whose sums can still be
    multiplied by [scale]: no sum of some of them leaves the range of the
    whole numbers that a double holds exactly. *)
Definition exact_sums (scale : Z) (l : list Z) : Prop :=
  (scale * zabs_sum l ≤ 2 ^ 53)%Z.

(** The values of the rows whose two labels are present. *)
Definition present_values {A} (x y : series) (vals : list A) : list A :=
  (filter (λ t, isna t.1.1 = false ∧ isna t.1.2 = false)
          (zip (zip x y) vals)).*2.

(** A rational that a double holds exactly: [m * 2^e] for a whole number
    [m] of at most 53 bits and an exponent [e] of the range of doubles.
    Python's [float] reads the literal of such a number without error,
    and comparing two of them is exact. *)
Definition is_double (q : Qc) : Prop :=
  ∃ m e : Z, (Z.abs m < 2 ^ 53)%Z ∧ (-1074 ≤ e ≤ 971)%Z ∧
             (q * qz (2 ^ 1074) = qz (m * 2 ^ (e + 1074)))%Qc.

(** A cell of a column of doubles, and a finite one. *)
Definition double (x : num) : Prop :=
  match x with Fin q => is_double q | _ => True end.

Definition finite_double (x : num) : Prop := ∃ q, x = Fin q ∧ is_double q.

(** The position of the bucket that a cell holds, if it holds one. *)
Definition bucket_code (v : value) : option nat :=
  match v with
  | VCat k _ | VInterval k _ _ => Some k
  | _ => None
  end.

(** What a value metric shows for the values of the rows of one cell. *)
Definition metric_cell (metric : string) (l : list num) : num :=
  if bool_decide (metric = "Total Revenue") then num_round 2 (agg_sum l)
  else if bool_decide (metric = "Avg LTV") then num_round 2 (agg_mean l)
  else if bool_decide (metric = "Retention Rate")
  then num_mul (num_round 3 (agg_mean l)) (nz 100)
  else if bool_decide (metric = "Avg AOV") then num_round 2 (agg_mean l)
  else agg_sum l.

(** The sum of a list of numbers, from the right. *)
Definition nsum (l : list num) : num := foldr num_add (nz 0) l.

(** The two cuts that [apply_bucketing] makes itself: dimension, strategy
    name, edges, labels. *)
Definition special_cuts : list (string * string * list num * list string) :=
  [ ("churn_risk_score", "Risk Levels",
     [nz 0; Fin (qfrac 3 10); Fin (qfrac 7 10); nz 1],
     ["Low Risk"; "Medium Risk"; "High Risk"]);
    ("nps_score", "NPS Categories", zs [0; 6; 8; 10]%Z,
     ["Detractors (0-6)"; "Passives (7-8)"; "Promoters (9-10)"]) ].

(** [get_available_dimensions] *)
Definition get_available_dimensions : list string :=
  [ "age"; "gender"; "country"; "device_type"; "acquisition_channel";
    "loyalty_tier"; "product_category_preference"; "price_sensitivity";
    "days_since_signup"; "days_since_last_purchase"; "signup_date";
    "signup_timestamp"; "total_orders"; "total_revenue"; "ltv";
    "average_order_value"; "email_subscriber"; "seasonal_shopper";
    "payment_method"; "shipping_preference"; "churn_risk_score"; "nps_score";
    "is_retained"; "is_churned" ].

(** Every (dimension, strategy name, bucket function) of the registry. *)
Definition registry_entries : list (string * string * strategy) :=
  '(d, l) ← bucket_definitions; '(n, st) ← l; [(d, n, st)].

(** The edges and labels of a registry cut are well formed for [pd.cut]:
    increasing distinct edges, distinct labels, one label per bin. *)
Definition cut_well_formed (bins : list num) (labels : list string) : bool :=
  monotonic_increasing bins
  && bool_decide (NoDup bins)
  && bool_decide (NoDup labels)
  && (length labels =? length bins - 1).

(** What holds of each entry of the registry: its name is neither a
    sentinel nor one of the two special cases of [apply_bucketing]; a
    calendar strategy belongs to [signup_date], a cut is well formed and
    its lowest edge is 0, a quantile strategy has four distinct labels. *)
Definition entry_ok (e : string * string * strategy) : bool :=
  let '(d, n, st) := e in
  bool_decide (n ∉ ["No Bucketing"; "Custom Buckets"; "Risk Levels";
                    "NPS Categories"])
  && match st with
     | Period _ => bool_decide (d = "signup_date")
     | Cut bins labels =>
         cut_well_formed bins labels && bool_decide (head bins = Some (nz 0))
     | QCut q labels =>
         (q =? 4) && (length labels =? 4) && bool_decide (NoDup labels)
     end.

(** * Audiences (src/data_generator.py) *)

(** The exceptions [filter_by_audience] can meet. *)
Inductive py_exn := PyKeyError | PyValueError | PyTypeError | PyIndexError.

#[global] Instance py_exn_eq_dec : EqDecision py_exn.
Proof. solve_decision. Defined.

Inductive attempt (A : Type) :=
| Returns (a : A)
| Raises (e : py_exn).
Arguments Returns {A} a.
Arguments Raises {A} e.

(** A method of [DataGenerator] on the object store. *)
Definition G (A : Type) : Type := heap → attempt A * heap.

#[global] Instance G_ret : MRet G := λ A a h, (Returns a, h).

#[global] Instance G_bind : MBind G := λ A B k m h,
  match m h with
  | (Returns a, h') => k a h'
  | (Raises e, h') => (Raises e, h')
  end.

Definition G_lift {A} (r : attempt A) : G A := λ h, (r, h).

(** The literals of the audience conditions: a number, a boolean, a
    string, a list of strings. *)
Inductive operand :=
| ONum (x : num)
| OBool (b : bool)
| OStr (s : string)
| OStrs (l : list string).

(** A condition tuple: the operator, then the other components of the
    tuple. *)
Abbreviation condition := (string * list operand)%type.

(** [get_audience_definitions] *)
Definition get_audience_definitions
    : list (string * list (string * condition)) :=
  [ ("All Users", []);
    ("High Value Customers", [("ltv", (">", [ONum (nz 1000)]))]);
    ("Recent Signups", [("days_since_signup", ("<", [ONum (nz 30)]))]);
    ("Churned Users", [("is_churned", ("==", [OBool true]))]);
    ("Mobile Users", [("device_type", ("==", [OStr "Mobile"]))]);
    ("Email Subscribers", [("email_subscriber", ("==", [OBool true]))]);
    ("High AOV Customers", [("average_order_value", (">", [ONum (nz 100)]))]);
    ("Frequent Buyers", [("total_orders", (">", [ONum (nz 10)]))]);
    ("Gold+ Members",
     [("loyalty_tier", ("in", [OStrs ["Gold"; "Platinum"]]))]);
    ("At-Risk Customers",
     [("churn_risk_score", (">", [ONum (Fin (qfrac 7 10))]))]);
    ("Social Followers", [("social_media_follower", ("==", [OBool true]))]);
    ("High Engagement", [("website_visits_l30d", (">", [ONum (nz 10)]))]);
    ("Recent Purchasers",
     [("days_since_last_purchase", ("<", [ONum (nz 30)]))]);
    ("High NPS", [("nps_score", (">", [ONum (nz 8)]))]);
    ("Fashion Lovers",
     [("product_category_preference", ("==", [OStr "Fashion"]))]);
    ("Price Sensitive", [("price_sensitivity", ("==", [OStr "High"]))]);
    ("Young Adults", [("age", ("between", [ONum (nz 18); ONum (nz 35)]))]);
    ("US Customers", [("country", ("==", [OStr "US"]))]);
    ("New Customers", [("total_orders", ("<=", [ONum (nz 2)]))]);
    ("VIP Customers", [("loyalty_tier", ("==", [OStr "Platinum"]))]) ].

(** [(operator, value) = tuple]: the tuple must have two components. *)
Definition unpack (tuple : condition) : attempt (string * operand) :=
  match tuple.2 with
  | [value] => Returns (tuple.1, value)
  | _ => Raises PyValueError
  end.

(** [value[i]] *)
Definition subscript (value : operand) (i : nat) : attempt operand :=
  match value with
  | ONum _ | OBool _ => Raises PyTypeError
  | OStr s =>
      match String.get i s with
      | Some c => Returns (OStr (String c EmptyString))
      | None => Raises PyIndexError
      end
  | OStrs l =>
      match l !! i with
      | Some s => Returns (OStr s)
      | None => Raises PyIndexError
      end
  end.

(** [df[mask]]: the rows whose flag is set, in every column. *)
Definition select (mask : list bool) (t : frame) : frame :=
  (λ col : series, (filter (λ p, p.1 = true) (zip mask col)).*2) <$> t.

(** [df.copy()] *)
Definition G_copy (df : nat) : G nat := λ h,
  match h !! df with
  | Some t => let l := fresh (dom h) in (Returns l, <[l := t]> h)
  | None => (Raises PyKeyError, h)
  end.

(** [df[column]] *)
Definition G_getitem (df : nat) (column : string) : G series := λ h,
  match h !! df ≫= (λ t : frame, t !! column) with
  | Some s => (Returns s, h)
  | None => (Raises PyKeyError, h)
  end.

(** [df[mask]] as a new object. *)
Definition G_index (df : nat) (mask : list bool) : G nat := λ h,
  match h !! df with
  | Some t => let l := fresh (dom h) in (Returns l, <[l := select mask t]> h)
  | None => (Raises PyKeyError, h)
  end.

Section Audience.

(** pandas' element-wise comparison of a column with a literal
    ([column > value], ..., [column != value], by operator) and
    [column.isin(value)]: a flag for each row, or an exception. *)
Variable compare : string → series → operand → attempt (list bool).
Variable isin : series → operand → attempt (list bool).

(** One pass of the loop of [filter_by_audience]. *)
Definition apply_condition (filtered_df : nat) (column : string)
    (tuple : condition) : G nat :=
  '(operator, value) ← G_lift (unpack tuple);
  let comparison :=
    col ← G_getitem filtered_df column;
    mask ← G_lift (compare operator col value);
    G_index filtered_df mask in
  if bool_decide (operator = ">") then comparison
  else if bool_decide (operator = "<") then comparison
  else if bool_decide (operator = ">=") then comparison
  else if bool_decide (operator = "<=") then comparison
  else if bool_decide (operator = "==") then comparison
  else if bool_decide (operator = "!=") then comparison
  else if bool_decide (operator = "in") then
    col ← G_getitem filtered_df column;
    mask ← G_lift (isin col value);
    G_index filtered_df mask
  else if bool_decide (operator = "between") then
    col ← G_getitem filtered_df column;
    lo ← G_lift (subscript value 0);
    above ← G_lift (compare ">=" col lo);
    col ← G_getitem filtered_df column;
    hi ← G_lift (subscript value 1);
    below ← G_lift (compare "<=" col hi);
    G_index filtered_df (zip_with andb above below)
  else mret filtered_df.

Fixpoint apply_conditions (items : list (string * condition))
    (filtered_df : nat) : G nat :=
  match items with
  | [] => mret filtered_df
  | (column, tuple) :: rest =>
      filtered_df ← apply_condition filtered_df column tuple;
      apply_conditions rest filtered_df
  end.

(** [filter_by_audience] *)
Definition filter_by_audience (df : nat) (audience_name : string) : G nat :=
  audience_def ← G_lift (match assoc audience_name get_audience_definitions with
                         | Some d => Returns d
                         | None => Raises PyKeyError
                         end);
  match audience_def with
  | [] => mret df
  | _ =>
      filtered_df ← G_copy df;
      apply_conditions audience_def filtered_df
  end.

End Audience.

(** A comparison for the examples: a numeric column against a number. *)
Definition compare_numbers (operator : string) (col : series) (value : operand)
    : attempt (list bool) :=
  match value with
  | ONum y =>
      Returns (map (λ c, match c with
                         | VNum x =>
                             if bool_decide (operator = ">") then num_ltb y x
                             else if bool_decide (operator = "<")
                             then num_ltb x y
                             else false
                         | _ => false
                         end) col)
  | _ => Raises PyTypeError
  end.

Definition no_isin (col : series) (value : operand) : attempt (list bool) :=
  Raises PyTypeError.

Definition three_customers : frame :=
  {[ "age" := [VNum (nz 20); VNum (nz 40); VNum (nz 60)];
     "ltv" := [VNum (nz 500); VNum (nz 1500); VNum (nz 2500)] ]}.

(** * Properties *)

(** ** Lists of labels *)

Lemma elem_of_sort_labels v l : v ∈ sort_labels l ↔ v ∈ l.
Proof.
  unfold sort_labels. rewrite merge_sort_Permutation.
  apply elem_of_remove_dups.
Qed.

Lemma NoDup_sort_labels l : NoDup (sort_labels l).
Proof.
  unfold sort_labels. rewrite merge_sort_Permutation.
  apply NoDup_remove_dups.
Qed.

Lemma elem_of_index_union v a b : v ∈ index_union a b ↔ v ∈ a ∨ v ∈ b.
Proof. unfold index_union. rewrite elem_of_sort_labels. apply elem_of_app. Qed.

Lemma position_Some v l i : position v l = Some i → l !! i = Some v.
Proof.
  unfold position. intros H.
  destruct (list_find (λ x, x = v) l) as [[j w]|] eqn:E; simplify_eq/=.
  apply list_find_Some in E as (Hl & -> & _). done.
Qed.

Lemma position_is_Some v l : v ∈ l → is_Some (position v l).
Proof.
  intros Hin. unfold position.
  destruct (list_find_elem_of (λ x, x = v) l v Hin eq_refl) as [[j w] E].
  rewrite E. by eexists.
Qed.

Lemma position_None v l : v ∉ l → position v l = None.
Proof.
  intros Hin. unfold position.
  destruct (list_find (λ x, x = v) l) as [[j w]|] eqn:E; [|done].
  apply list_find_Some in E as (Hl & -> & _).
  destruct Hin. eapply list_elem_of_lookup_2; eauto.
Qed.

(** Reading a cell of a table laid out on given axes. *)
Lemma loc_grid idx cols (f : value → value → num) r c :
  r ∈ idx → c ∈ cols →
  loc (Pivot idx cols (map (λ r, map (f r) cols) idx)) r c = Some (f r c).
Proof.
  intros Hr Hc. unfold loc; simpl.
  destruct (position_is_Some _ _ Hr) as [i Hi].
  destruct (position_is_Some _ _ Hc) as [j Hj].
  rewrite Hi, Hj; simpl.
  apply position_Some in Hi. apply position_Some in Hj.
  rewrite list_lookup_fmap, Hi; simpl.
  by rewrite list_lookup_fmap, Hj.
Qed.

Lemma loc_outside p r c : r ∉ index p ∨ c ∉ columns p → loc p r c = None.
Proof.
  intros [H|H]; unfold loc.
  - by rewrite (position_None _ _ H).
  - rewrite (position_None _ _ H). by destruct (position r (index p)).
Qed.

Lemma loc_inside p r c v : loc p r c = Some v → r ∈ index p ∧ c ∈ columns p.
Proof.
  unfold loc. intros H.
  destruct (position r (index p)) as [i|] eqn:Hi; [|done].
  destruct (position c (columns p)) as [j|] eqn:Hj; [|done].
  split; eapply list_elem_of_lookup_2, position_Some; eauto.
Qed.

Lemma shape_reindex p new_index new_columns fill_value :
  shape (reindex p new_index new_columns fill_value)
        (length new_index) (length new_columns).
Proof.
  split; simpl.
  - by rewrite length_map.
  - apply Forall_forall. intros row Hrow.
    apply list_elem_of_fmap in Hrow as (r & -> & _). by rewrite length_map.
Qed.

(** ** The store *)

Lemma getitem_insert (h : heap) l (t : frame) col :
  getitem l col (<[l := t]> h) = (column t col, <[l := t]> h).
Proof.
  unfold getitem, column. rewrite lookup_insert_eq; simpl.
  by destruct (t !! col).
Qed.

Section Run.

Variable to_period : period → series → result series.

(** A call of [create_pivot_table] on a reference to a table [t] stores a
    working copy of [t] at a fresh reference and returns the value
    [pivot_of_frame] gives for [t]. *)
Lemma create_pivot_table_run (h : heap) df (t : frame) x_axis y_axis metric
    xb yb xcr ycr :
  h !! df = Some t →
  create_pivot_table to_period df x_axis y_axis metric xb yb xcr ycr h
  = (pivot_of_frame to_period t x_axis y_axis metric xb yb xcr ycr,
     <[fresh (dom h) := t]> h).
Proof.
  intros Hdf.
  unfold create_pivot_table, pivot_of_frame, df_copy.
  unfold mbind, M_bind, mret, M_ret, fmap, M_fmap, lift.
  unfold result_bind, result_fmap.
  rewrite Hdf. cbv beta iota zeta.
  rewrite getitem_insert.
  destruct (column t x_axis) as [x_col|e]; cbv beta iota zeta; [|done].
  destruct (apply_bucketing _ x_col _ _ _) as [x_data|e];
    cbv beta iota zeta; [|done].
  rewrite getitem_insert.
  destruct (column t y_axis) as [y_col|e]; cbv beta iota zeta; [|done].
  destruct (apply_bucketing _ y_col _ _ _) as [y_data|e];
    cbv beta iota zeta; [|done].
  repeat case_bool_decide; try done;
    rewrite getitem_insert;
    (match goal with |- context [column t ?f] =>
       destruct (column t f) as [col|e]; cbv beta iota zeta; [|done] end);
    by destruct (rmap to_numeric col).
Qed.

Lemma create_pivot_table_dangling (h : heap) df x_axis y_axis metric
    xb yb xcr ycr :
  h !! df = None →
  create_pivot_table to_period df x_axis y_axis metric xb yb xcr ycr h
  = (Raise KeyError, h).
Proof.
  intros Hdf. unfold create_pivot_table, mbind, M_bind, df_copy.
  by rewrite Hdf.
Qed.

End Run.

(** ** Custom range strings *)

Lemma split_char_no_sep c s :
  contains_char c s = false → split_char c s = [s].
Proof.
  induction s as [|a s IH]; simpl; [done|].
  case_decide; [done|]. intros Hc. by rewrite (IH Hc).
Qed.

Lemma split_char_nonempty c s : (1 ≤ length (split_char c s))%nat.
Proof.
  destruct s as [|a s]; simpl; [lia|].
  case_decide; simpl; [lia|].
  destruct (split_char c s); simpl; lia.
Qed.

Lemma split_char_sep c s :
  contains_char c s = true → (2 ≤ length (split_char c s))%nat.
Proof.
  induction s as [|a s IH]; simpl; [done|].
  case_decide.
  - intros _. simpl. pose proof (split_char_nonempty c s). lia.
  - intros Hc. specialize (IH Hc).
    destruct (split_char c s) as [|t [|t' ts]]; simpl in *; lia.
Qed.

(** No strategy of the registry is called "No Bucketing" or
    "Custom Buckets". *)
Lemma registered_custom dimension : registered dimension "Custom Buckets" = None.
Proof.
  unfold registered, bucket_definitions; simpl.
  repeat (case_decide; [reflexivity|]). reflexivity.
Qed.

(** Without a comma the method falls through to [return series]. *)
Lemma custom_bucketing_no_comma s cr :
  contains_char "," cr = false → _apply_custom_bucketing s cr = Ok s.
Proof. intros H. unfold _apply_custom_bucketing. by rewrite H. Qed.

(** Whatever the range string, [_apply_custom_bucketing] returns: the
    column itself, or the result of the binning call that succeeded. *)
Lemma custom_bucketing_returns s cr :
  let tokens := map strip (split_char "," cr) in
  ∃ r, _apply_custom_bucketing s cr = Ok r ∧
       (r = s
        ∨ (∃ bins, rmap float tokens = Ok bins ∧ pd_cut s bins None true = Ok r)
        ∨ pd_qcut s (length tokens) (Some tokens) true = Ok r).
Proof.
  intros tokens. unfold _apply_custom_bucketing. fold tokens.
  destruct (contains_char "," cr); [|by eexists; split; [|left]].
  destruct (rmap float tokens) as [bins|e] eqn:Hparse; simpl.
  - case_bool_decide; [|by eexists; split; [|left]].
    destruct (pd_cut s bins None true) as [r|e] eqn:Hcut; simpl.
    + eexists; split; [done|]. right; left. eauto.
    + destruct e; simpl; try (by eexists; split; [|left]).
      case_bool_decide; [|by eexists; split; [|left]].
      destruct (pd_qcut s _ _ _) as [r|e] eqn:Hq; simpl;
        eexists; (split; [done|]); auto.
  - destruct e; simpl; try (by eexists; split; [|left]).
    case_bool_decide; [|by eexists; split; [|left]].
    destruct (pd_qcut s _ _ _) as [r|e] eqn:Hq; simpl;
      eexists; (split; [done|]); auto.
Qed.

Section Bucketing.

Variable to_period : period → series → result series.

(** C10.  A custom-range string without a comma is a single token, and
    "Custom Buckets" with such a string returns the column unchanged for
    every column and dimension, whether or not the token is a number. *)
Theorem custom_single_token_unchanged (s : series) (dimension cr : string) :
  contains_char "," cr = false →
  split_char "," cr = [cr] ∧
  _apply_custom_bucketing s cr = Ok s ∧
  apply_bucketing to_period s dimension (Some "Custom Buckets") (Some cr)
  = Ok s.
Proof.
  intros Hno. split; [by apply split_char_no_sep|].
  split; [by apply custom_bucketing_no_comma|].
  unfold apply_bucketing.
  rewrite (bool_decide_eq_false_2 (Some "Custom Buckets" = Some "No Bucketing"))
    by discriminate.
  rewrite (bool_decide_eq_false_2 (Some "Custom Buckets" = None)) by discriminate.
  rewrite (bool_decide_eq_true_2 (Some "Custom Buckets" = Some "Custom Buckets"))
    by reflexivity.
  cbn [orb andb].
  case_bool_decide as Hcr.
  - by apply custom_bucketing_no_comma.
  - cbn [mbind option_bind]. rewrite registered_custom.
    repeat case_bool_decide; congruence.
Qed.

(** C6, as amended.  A strategy name that is not "No Bucketing", not
    "Custom Buckets", not in the registry for the dimension and not one of
    the two special cases handled in [apply_bucketing] itself
    (churn_risk_score / "Risk Levels", nps_score / "NPS Categories")
    returns the column unchanged; and "Custom Buckets" never raises,
    whatever the range string: it returns the column unchanged or the
    outcome of a binning call that succeeded. *)
Theorem unknown_strategy_passes_through (s : series)
    (dimension bucket_type : string) (custom_ranges : option string) :
  bucket_type ≠ "No Bucketing" →
  bucket_type ≠ "Custom Buckets" →
  registered dimension bucket_type = None →
  (dimension, bucket_type) ≠ ("churn_risk_score", "Risk Levels") →
  (dimension, bucket_type) ≠ ("nps_score", "NPS Categories") →
  apply_bucketing to_period s dimension (Some bucket_type) custom_ranges = Ok s
  ∧ ∀ cr : option string,
      ∃ r, apply_bucketing to_period s dimension (Some "Custom Buckets") cr
           = Ok r
           ∧ (r = s
              ∨ ∃ c, cr = Some c ∧
                  let tokens := map strip (split_char "," c) in
                  (∃ bins, rmap float tokens = Ok bins
                           ∧ pd_cut s bins None true = Ok r)
                  ∨ pd_qcut s (length tokens) (Some tokens) true = Ok r).
Proof.
  intros Hnb Hcb Hreg Hrisk Hnps. split.
  - unfold apply_bucketing.
    rewrite (bool_decide_eq_false_2 (Some bucket_type = Some "No Bucketing"))
      by congruence.
    rewrite (bool_decide_eq_false_2 (Some bucket_type = None)) by discriminate.
    rewrite (bool_decide_eq_false_2 (Some bucket_type = Some "Custom Buckets"))
      by congruence.
    cbn [orb andb mbind option_bind]. rewrite Hreg.
    repeat case_bool_decide; congruence.
  - intros cr. unfold apply_bucketing.
    rewrite (bool_decide_eq_false_2 (Some "Custom Buckets" = Some "No Bucketing"))
      by discriminate.
    rewrite (bool_decide_eq_false_2 (Some "Custom Buckets" = None))
      by discriminate.
    rewrite (bool_decide_eq_true_2 (Some "Custom Buckets" = Some "Custom Buckets"))
      by reflexivity.
    cbn [orb andb].
    case_bool_decide as Hcr.
    + destruct cr as [c|]; [|by destruct Hcr]. cbn [default].
      destruct (custom_bucketing_returns s c) as (r & Hr & Hcase).
      exists r. split; [done|].
      destruct Hcase as [->|Hbin]; [by left|]. right. by exists c.
    + cbn [mbind option_bind]. rewrite registered_custom.
      exists s. split; [|by left].
      repeat case_bool_decide; congruence.
Qed.

End Bucketing.

(** C10 at the token "50", which is a number. *)
Lemma custom_single_token_unchanged_witness :
  float "50" = Ok (nz 50) ∧
  apply_bucketing (λ _ s, Ok s) [VNum (nz 10); VNum (nz 60)] "age"
    (Some "Custom Buckets") (Some "50")
  = Ok [VNum (nz 10); VNum (nz 60)].
Proof.
  split.
  - apply (bool_decide_unpack _). by vm_compute.
  - apply (custom_single_token_unchanged (λ _ s, Ok s) _ "age" "50").
    reflexivity.
Defined.

(** C6, as amended, at the unregistered strategy "Deciles" of [age]. *)
Lemma unknown_strategy_passes_through_witness :
  apply_bucketing (λ _ s, Ok s) [VNum (nz 10); VNum (nz 60)] "age"
    (Some "Deciles") None
  = Ok [VNum (nz 10); VNum (nz 60)].
Proof.
  apply (unknown_strategy_passes_through (λ _ s, Ok s) _ "age" "Deciles" None);
    [discriminate | discriminate | reflexivity | discriminate | discriminate].
Defined.

(** C6 as stated fails: "NPS Categories" is neither "No Bucketing" nor
    "Custom Buckets", the registry has no entry for [nps_score] (the
    options offered for it are the two sentinels only), and yet the column
    comes back bucketed. *)
Lemma unknown_strategy_counterexample :
  registered "nps_score" "NPS Categories" = None ∧
  get_bucket_options "nps_score" = ["No Bucketing"; "Custom Buckets"] ∧
  apply_bucketing (λ _ s, Ok s) [VNum (nz 7)] "nps_score"
    (Some "NPS Categories") None
  = Ok [VCat 1 "Passives (7-8)"] ∧
  apply_bucketing (λ _ s, Ok s) [VNum (nz 7)] "nps_score"
    (Some "NPS Categories") None
  ≠ Ok [VNum (nz 7)].
Proof.
  split; [reflexivity|]. split; [reflexivity|].
  assert (H : apply_bucketing (λ _ s, Ok s) [VNum (nz 7)] "nps_score"
                (Some "NPS Categories") None
              = Ok [VCat 1 "Passives (7-8)"])
    by (apply (bool_decide_unpack _); by vm_compute).
  split; [exact H|]. rewrite H. discriminate.
Qed.

(** ** Purity and the metric dispatch *)

Section Purity.

Variable to_period : period → series → result series.

(** C8.  [create_pivot_table] changes no object the store held before the
    call, in particular not the caller's table (the working copy is a new
    object), and a second call with the same arguments, made in the store
    the first one left, returns or raises the same. *)
Theorem create_pivot_table_pure (h : heap) (df : nat)
    (x_axis y_axis metric : string) (xb yb xcr ycr : option string) :
  let call := create_pivot_table to_period df x_axis y_axis metric xb yb xcr ycr in
  (∀ l, is_Some (h !! l) → final call h !! l = h !! l) ∧
  outcome call (final call h) = outcome call h.
Proof.
  intros call. unfold final, outcome, call.
  destruct (h !! df) as [t|] eqn:Hdf.
  - rewrite (create_pivot_table_run _ _ _ t) by done. cbn [fst snd].
    assert (Hfresh : fresh (dom h) ≠ df).
    { intros E. apply (is_fresh (dom h)). rewrite E.
      apply elem_of_dom. by eexists. }
    split.
    + intros l Hl. apply lookup_insert_ne. intros E.
      apply (is_fresh (dom h)). rewrite E. by apply elem_of_dom.
    + rewrite (create_pivot_table_run _ _ _ t); [done|].
      by rewrite lookup_insert_ne.
  - rewrite create_pivot_table_dangling by done. cbn [fst snd].
    split; [done|]. by rewrite create_pivot_table_dangling.
Qed.

(** C9.  For a metric outside the six that [create_pivot_table] branches
    on, the call raises; once the two dimension columns are found and
    bucketed, what it raises is the unbound local [pivot_table]. *)
Theorem unknown_metric_raises (h : heap) (df : nat)
    (x_axis y_axis metric : string) (xb yb xcr ycr : option string) :
  metric ∉ ["Count"; "Total Revenue"; "Avg LTV"; "Retention Rate";
            "Avg AOV"; "Total Orders"] →
  let call := create_pivot_table to_period df x_axis y_axis metric xb yb xcr ycr in
  (∃ e, outcome call h = Raise e) ∧
  (∀ (t : frame) xs ys xd yd,
     h !! df = Some t → t !! x_axis = Some xs → t !! y_axis = Some ys →
     apply_bucketing to_period xs x_axis xb xcr = Ok xd →
     apply_bucketing to_period ys y_axis yb ycr = Ok yd →
     outcome call h = Raise UnboundLocalError).
Proof.
  intros Hm call. unfold outcome, call.
  assert (Hbody : ∀ t, ∃ e,
            pivot_of_frame to_period t x_axis y_axis metric xb yb xcr ycr
            = Raise e ∧
            ∀ xs ys xd yd,
              t !! x_axis = Some xs → t !! y_axis = Some ys →
              apply_bucketing to_period xs x_axis xb xcr = Ok xd →
              apply_bucketing to_period ys y_axis yb ycr = Ok yd →
              e = UnboundLocalError).
  { intros t. unfold pivot_of_frame, column.
    unfold mbind, result_bind.
    destruct (t !! x_axis) as [xs|]; [|by eexists].
    destruct (apply_bucketing _ xs _ _ _) as [xd|e] eqn:Hxd;
      [|eexists; split; [done|]; intros; simplify_eq; congruence].
    destruct (t !! y_axis) as [ys|]; [|by eexists].
    destruct (apply_bucketing _ ys _ _ _) as [yd|e] eqn:Hyd;
      [|eexists; split; [done|]; intros; simplify_eq; congruence].
    repeat (case_bool_decide as Hc;
            [exfalso; apply Hm; rewrite Hc; set_solver|]; clear Hc).
    by eexists. }
  split.
  - destruct (h !! df) as [t|] eqn:Hdf.
    + rewrite (create_pivot_table_run _ _ _ t) by done.
      destruct (Hbody t) as (e & -> & _). by eexists.
    + rewrite create_pivot_table_dangling by done. by eexists.
  - intros t xs ys xd yd Hdf Hx Hy Hxd Hyd.
    rewrite (create_pivot_table_run _ _ _ t) by done.
    destruct (Hbody t) as (e & -> & He). cbn [fst].
    f_equal. eauto.
Qed.

End Purity.

(** C9 at the metric "Median Revenue". *)
Lemma unknown_metric_raises_witness :
  outcome (create_pivot_table no_periods 0 "gender" "country" "Median Revenue"
             None None None None) {[ 0 := two_users ]}
  = Raise UnboundLocalError.
Proof.
  refine (proj2 (unknown_metric_raises no_periods {[ 0 := two_users ]} 0
                   "gender" "country" "Median Revenue" None None None None _)
                two_users [VStr "M"; VStr "F"] [VStr "US"; VStr "UK"]
                [VStr "M"; VStr "F"] [VStr "US"; VStr "UK"] _ _ _ _ _);
    [ rewrite !elem_of_cons, elem_of_nil; intros H;
      repeat (destruct H as [H|H]; [discriminate H|]); exact H
    | reflexivity | reflexivity | reflexivity | reflexivity | reflexivity ].
Defined.

(** ** Comparison of two segments: the percentage difference *)

(** C1 fails on the code.  Comparing a two-row table with itself on
    gender x country with the Count metric: at the cell (F, US) both aligned
    tables hold 0, the division is 0/0, and the percentage difference keeps
    the resulting NaN, because only the infinities are replaced by 0. *)
Theorem percentage_difference_nan :
  let res := outcome (compare_segments no_periods 0 0 "gender" "country"
                        "Count" None None) {[ 0 := two_users ]} in
  compared_cell pivot1 (VStr "F") (VStr "US") res = Ok (Some (nz 0)) ∧
  compared_cell pivot2 (VStr "F") (VStr "US") res = Ok (Some (nz 0)) ∧
  compared_cell percentage_difference (VStr "F") (VStr "US") res
  = Ok (Some NaN).
Proof.
  cbv zeta. repeat split; apply (bool_decide_unpack _); by vm_compute.
Qed.

(** ** Cross-tabulation *)

Lemma filter_all {A} (P : A → Prop) `{∀ a, Decision (P a)} (l : list A) :
  Forall P l → filter P l = l.
Proof.
  induction 1 as [|a l Ha Hl IH]; [done|].
  rewrite filter_cons_True by done. by rewrite IH.
Qed.

Lemma assoc_tabulate {K V} `{EqDecision K} (f : K → V) (k : K) (l : list K) :
  assoc k (map (λ k, (k, f k)) l)
  = if decide (k ∈ l) then Some (f k) else None.
Proof.
  induction l as [|a l IH]; cbn [assoc map].
  - rewrite decide_False; [done|]. apply not_elem_of_nil.
  - destruct (decide (a = k)) as [->|Hne].
    + rewrite decide_True; [done|]. by left.
    + rewrite IH. destruct (decide (k ∈ l)) as [Hin|Hin].
      * rewrite decide_True; [done|]. by right.
      * rewrite decide_False; [done|].
        rewrite elem_of_cons. intros [?|?]; [congruence|done].
Qed.

Lemma fst_tabulate {K V} (f : K → V) (l : list K) :
  (map (λ k, (k, f k)) l).*1 = l.
Proof. induction l as [|a l IH]; [done|]. cbn. f_equal. exact IH. Qed.

(** The layout of a pivot table none of whose groups aggregates to a
    missing value: the axes carry the labels of the groups, a pair with a
    group holds its aggregate, any other pair the filler. *)
Lemma pivot_table_layout x y vals (aggfunc : list num → num) fill_value :
  let rows := keyed_rows x y vals in
  let keys := table_keys x y vals in
  (∀ k, k ∈ keys → num_isnan (aggfunc (group rows k)) = false) →
  pivot_table x y vals aggfunc fill_value
  = Pivot (sort_labels keys.*1) (sort_labels keys.*2)
      (map (λ r, map (λ c, if decide ((r, c) ∈ keys)
                           then aggfunc (group rows (r, c))
                           else default NaN fill_value)
                     (sort_labels keys.*2))
           (sort_labels keys.*1)).
Proof.
  intros rows keys Hagg. unfold pivot_table. fold rows.
  change (remove_dups rows.*1) with keys.
  rewrite (filter_all (λ kv : value * value * num, num_isnan kv.2 = false)).
  2:{ apply Forall_forall. intros kv Hkv.
      apply list_elem_of_fmap in Hkv as (k & -> & Hk). by apply Hagg. }
  rewrite fst_tabulate. f_equal.
  apply map_ext. intros r. apply map_ext. intros c.
  rewrite assoc_tabulate.
  destruct (decide ((r, c) ∈ keys)) as [Hin|Hin]; simpl.
  - destruct fill_value; [|done]. by rewrite (Hagg _ Hin).
  - destruct fill_value as [f|]; simpl; [|done]. by destruct (num_isnan f).
Qed.

Lemma elem_of_table_keys x y vals k :
  k ∈ table_keys x y vals ↔ k ∈ (keyed_rows x y vals).*1.
Proof. apply elem_of_remove_dups. Qed.

Lemma group_outside x y vals k :
  k ∉ table_keys x y vals → group (keyed_rows x y vals) k = [].
Proof.
  rewrite elem_of_table_keys. unfold group. intros Hk.
  induction (keyed_rows x y vals) as [|t l IH]; [done|].
  rewrite fmap_cons, not_elem_of_cons in Hk. destruct Hk as [Hne Hk].
  rewrite filter_cons_False by (simpl; congruence). auto.
Qed.

(** When every row has a value, the keyed rows are the present rows. *)
Lemma keyed_rows_keys x y vals :
  length (zip x y) ≤ length vals →
  (keyed_rows x y vals).*1 = present_rows x y.
Proof.
  unfold keyed_rows, present_rows. generalize (zip x y). intros l.
  revert vals. induction l as [|k l IH]; intros [|v vals] Hlen;
    simpl in *; try done; try lia.
  rewrite !filter_cons. simpl.
  case_decide; simpl; rewrite IH by lia; done.
Qed.

Lemma group_length_keys rows k :
  length (group rows k) = length (filter (λ p, p = k) rows.*1).
Proof.
  unfold group. rewrite length_fmap.
  induction rows as [|t rows IH]; [done|].
  rewrite fmap_cons, !filter_cons. simpl.
  case_decide; simpl; by rewrite IH.
Qed.

(** ** Counting *)

Lemma nz_add a b : num_add (nz a) (nz b) = nz (a + b).
Proof.
  unfold nz, num_add, qz. f_equal. unfold Qcplus.
  apply Q2Qc_eq_iff. simpl. rewrite !Qred_correct.
  by rewrite inject_Z_plus.
Qed.


Lemma zip_replicate_length {A} (x y : list A) :
  length (zip x y) ≤ length (replicate (length x) (nz 0)).
Proof. rewrite length_replicate, length_zip_with. lia. Qed.

Lemma count_pair_absent x y k : k ∉ present_rows x y → count_pair x y k = 0.
Proof.
  unfold count_pair. intros Hk.
  induction (present_rows x y) as [|p l IH]; [done|].
  rewrite not_elem_of_cons in Hk. destruct Hk as [Hne Hk].
  rewrite filter_cons_False by congruence. auto.
Qed.

Lemma crosstab_count x y : crosstab x y None = count_table x y.
Proof.
  unfold crosstab, count_table.
  rewrite pivot_table_layout by done.
  unfold table_keys.
  rewrite (keyed_rows_keys x y _ (zip_replicate_length x y)).
  f_equal. apply map_ext. intros r. apply map_ext. intros c.
  case_decide as Hin.
  - unfold agg_len. rewrite group_length_keys.
    by rewrite (keyed_rows_keys x y _ (zip_replicate_length x y)).
  - simpl. rewrite count_pair_absent; [done|].
    by rewrite <- elem_of_remove_dups.
Qed.

Lemma fillna_count_table x y : fillna (nz 0) (count_table x y) = count_table x y.
Proof.
  unfold fillna, df_map, count_table; simpl. f_equal.
  rewrite map_map. apply map_ext. intros r.
  rewrite map_map. by apply map_ext.
Qed.







(** ** Tables laid out on the labels of their groups *)

Lemma df_map_grid f idx cols cell :
  df_map f (grid idx cols cell) = grid idx cols (λ r c, f (cell r c)).
Proof.
  unfold df_map, grid; simpl. f_equal.
  rewrite map_map. apply map_ext. intros r. by rewrite map_map.
Qed.

Lemma elem_of_keys_1 (keys : list (value * value)) r :
  r ∈ keys.*1 ↔ ∃ c, (r, c) ∈ keys.
Proof.
  rewrite list_elem_of_fmap. split.
  - intros ([r' c] & -> & Hin). by exists c.
  - intros (c & Hin). by exists (r, c).
Qed.

Lemma elem_of_keys_2 (keys : list (value * value)) c :
  c ∈ keys.*2 ↔ ∃ r, (r, c) ∈ keys.
Proof.
  rewrite list_elem_of_fmap. split.
  - intros ([r c'] & -> & Hin). by exists r.
  - intros (r & Hin). by exists (r, c).
Qed.

Lemma rectangle_grid (keys keys' : list (value * value)) cell :
  (∀ k, k ∈ keys ↔ k ∈ keys') →
  (∀ r c, (r, c) ∉ keys → cell r c = nz 0) →
  rectangle (grid (sort_labels keys.*1) (sort_labels keys.*2) cell) keys'.
Proof.
  intros Hkeys Hcell. unfold rectangle, grid; simpl.
  split; [|split; [|split; [|split; [|split; [|split]]]]].
  - intros r. rewrite elem_of_sort_labels, elem_of_keys_1.
    by setoid_rewrite Hkeys.
  - intros c. rewrite elem_of_sort_labels, elem_of_keys_2.
    by setoid_rewrite Hkeys.
  - apply NoDup_sort_labels.
  - apply NoDup_sort_labels.
  - split; simpl.
    + by rewrite length_map.
    + apply Forall_forall. intros row Hrow.
      apply list_elem_of_fmap in Hrow as (r & -> & _). by rewrite length_map.
  - intros r c. split.
    + intros [v Hv]. by apply loc_inside in Hv.
    + intros [Hr Hc]. eexists. by apply (loc_grid _ _ cell).
  - intros r c Hr Hc Hk. rewrite (loc_grid _ _ cell) by done.
    f_equal. apply Hcell. by rewrite Hkeys.
Qed.

Lemma loc_grid_key (keys : list (value * value)) cell r c :
  (r, c) ∈ keys →
  loc (grid (sort_labels keys.*1) (sort_labels keys.*2) cell) r c
  = Some (cell r c).
Proof.
  intros Hin. apply (loc_grid _ _ cell); rewrite elem_of_sort_labels.
  - apply elem_of_keys_1. eauto.
  - apply elem_of_keys_2. eauto.
Qed.

(** ** Aggregates of finite values *)

Lemma finite_not_nan v : finite v → num_isnan v = false.
Proof. by intros [q ->]. Qed.

Lemma foldl_add_finite l a : Forall finite l → finite (foldl num_add (Fin a) l).
Proof.
  intros H. revert a. induction H as [|v l [q ->] Hl IH]; intros a; simpl.
  - by eexists.
  - apply IH.
Qed.

Lemma filter_present_finite l :
  Forall finite l → filter (λ x, num_isnan x = false) l = l.
Proof.
  intros H. apply filter_all. eapply Forall_impl; [exact H|].
  intros v. apply finite_not_nan.
Qed.

Lemma agg_sum_finite l : Forall finite l → finite (agg_sum l).
Proof.
  intros H. unfold agg_sum. rewrite filter_present_finite by done.
  by apply foldl_add_finite.
Qed.

Lemma qz_nonzero n : n ≠ 0%Z → qz n ≠ 0%Qc.
Proof.
  intros Hn E. apply Hn. unfold qz in E.
  change 0%Qc with (Q2Qc 0) in E. apply Q2Qc_eq_iff in E.
  unfold Qeq in E. simpl in E. lia.
Qed.

Lemma agg_mean_finite l : l ≠ [] → Forall finite l → finite (agg_mean l).
Proof.
  intros Hne H. unfold agg_mean. rewrite filter_present_finite by done.
  destruct l as [|v l]; [done|].
  destruct (foldl_add_finite (v :: l) (qz 0) H) as [q Hq].
  change (nz 0) with (Fin (qz 0)). rewrite Hq.
  unfold num_div, nz. rewrite decide_False; [by eexists|].
  apply qz_nonzero. simpl. lia.
Qed.

Lemma group_subseteq rows k : group rows k ⊆ rows.*2.
Proof.
  unfold group. intros v Hv.
  apply list_elem_of_fmap in Hv as (t & -> & Ht).
  apply list_elem_of_filter in Ht as [_ Ht].
  apply list_elem_of_fmap. eauto.
Qed.

Lemma keyed_rows_values x y vals : (keyed_rows x y vals).*2 ⊆ vals.
Proof.
  unfold keyed_rows. intros v Hv.
  apply list_elem_of_fmap in Hv as (t & -> & Ht).
  apply list_elem_of_filter in Ht as [_ Ht].
  destruct t as [k w]. by apply elem_of_zip_r in Ht.
Qed.

Lemma group_finite x y vals k :
  Forall finite vals → Forall finite (group (keyed_rows x y vals) k).
Proof.
  rewrite !Forall_forall. intros H v Hv. apply H.
  by apply keyed_rows_values with x y, group_subseteq with k.
Qed.

Lemma group_nonempty x y vals k :
  k ∈ table_keys x y vals → group (keyed_rows x y vals) k ≠ [].
Proof.
  rewrite elem_of_table_keys. unfold group. intros Hk E.
  apply list_elem_of_fmap in Hk as (t & -> & Ht).
  apply fmap_nil_inv in E.
  assert (Hin : t ∈ filter (λ t0 : value * value * num, t0.1 = t.1)
                         (keyed_rows x y vals))
    by (by apply list_elem_of_filter).
  rewrite E in Hin. by apply elem_of_nil in Hin.
Qed.

Lemma crosstab_values_layout x y vals (aggfunc : list num → num) :
  (∀ l, l ≠ [] → Forall finite l → finite (aggfunc l)) →
  Forall finite vals →
  length (zip x y) ≤ length vals →
  let keys := remove_dups (present_rows x y) in
  crosstab x y (Some (vals, aggfunc))
  = grid (sort_labels keys.*1) (sort_labels keys.*2)
      (λ r c, if decide ((r, c) ∈ keys)
              then aggfunc (group (keyed_rows x y vals) (r, c))
              else NaN).
Proof.
  intros Hagg Hvals Hlen keys. unfold crosstab.
  rewrite pivot_table_layout.
  - unfold table_keys. by rewrite (keyed_rows_keys x y vals Hlen).
  - intros k Hk. apply finite_not_nan, Hagg.
    + by apply group_nonempty.
    + by apply group_finite.
Qed.

Lemma elem_of_present_keys x y k :
  k ∈ remove_dups (present_rows x y) ↔ k ∈ present_rows x y.
Proof. apply elem_of_remove_dups. Qed.

(** Settles the chain of tests on a metric that is a literal. *)
Ltac pick_metric :=
  repeat (first [ rewrite bool_decide_eq_true_2 by reflexivity
                | rewrite bool_decide_eq_false_2 by discriminate ];
          cbv iota).

Lemma column_Some (t : frame) col s : t !! col = Some s → column t col = Ok s.
Proof. intros H. unfold column. by rewrite H. Qed.

Section Layout.

Variable to_period : period → series → result series.

(** The value of a call whose two dimension columns are found and
    bucketed. *)
Lemma pivot_of_frame_bucketed (t : frame) x_axis y_axis metric xb yb xcr ycr
    xs ys xd yd :
  t !! x_axis = Some xs → t !! y_axis = Some ys →
  apply_bucketing to_period xs x_axis xb xcr = Ok xd →
  apply_bucketing to_period ys y_axis yb ycr = Ok yd →
  pivot_of_frame to_period t x_axis y_axis metric xb yb xcr ycr
  = fillna (nz 0) <$>
      (let aggregate (field : string) (aggfunc : list num → num) :=
         col ← column t field;
         vals ← rmap to_numeric col;
         Ok (crosstab xd yd (Some (vals, aggfunc))) in
       if bool_decide (metric = "Count") then Ok (crosstab xd yd None)
       else if bool_decide (metric = "Total Revenue") then
         df_round 2 <$> aggregate "total_revenue" agg_sum
       else if bool_decide (metric = "Avg LTV") then
         df_round 2 <$> aggregate "ltv" agg_mean
       else if bool_decide (metric = "Retention Rate") then
         (λ p, df_map (λ v, num_mul v (nz 100)) (df_round 3 p))
           <$> aggregate "is_retained" agg_mean
       else if bool_decide (metric = "Avg AOV") then
         df_round 2 <$> aggregate "average_order_value" agg_mean
       else if bool_decide (metric = "Total Orders") then
         aggregate "total_orders" agg_sum
       else Raise UnboundLocalError).
Proof.
  intros Hx Hy Hxd Hyd. unfold pivot_of_frame.
  rewrite (column_Some t x_axis xs Hx). cbn [mbind result_bind]. rewrite Hxd.
  cbn [mbind result_bind]. rewrite (column_Some t y_axis ys Hy).
  cbn [mbind result_bind]. rewrite Hyd. cbn [mbind result_bind].
  by match goal with |- context [mbind _ ?m] => destruct m end.
Qed.

Lemma aggregate_run (t : frame) field col vals xd yd aggfunc :
  t !! field = Some col → rmap to_numeric col = Ok vals →
  (col ← column t field; vals ← rmap to_numeric col;
   Ok (crosstab xd yd (Some (vals, aggfunc))))
  = Ok (crosstab xd yd (Some (vals, aggfunc))).
Proof.
  intros Hcol Hvals. rewrite (column_Some t field col Hcol).
  cbn [mbind result_bind]. by rewrite Hvals.
Qed.

(** C3, as amended.  For each of the six metrics, on a table whose metric
    field holds finite values for every row, the pivot table is the full
    rectangle of the observed labels: the row labels are exactly the row
    labels of the rows whose two bucketed labels are present, the column
    labels likewise, there is a cell for every (row label, column label)
    pair and no other, and the cell of a pair that no input row falls into
    holds 0.  For the two metrics that sum, Total Revenue and Total
    Orders, this is stated for dimensions that are not bucketed and whose
    columns are not categorical: on a categorical axis a sum over no row
    is 0, not missing, and whether pandas then lists a category that no
    row falls into depends on the version of pandas. *)
Theorem pivot_is_rectangle (h : heap) (df : nat) (t : frame)
    (x_axis y_axis metric : string) (xb yb xcr ycr : option string)
    (xs ys xd yd : series) :
  h !! df = Some t →
  t !! x_axis = Some xs → t !! y_axis = Some ys →
  apply_bucketing to_period xs x_axis xb xcr = Ok xd →
  apply_bucketing to_period ys y_axis yb ycr = Ok yd →
  metric ∈ ["Count"; "Total Revenue"; "Avg LTV"; "Retention Rate";
            "Avg AOV"; "Total Orders"] →
  (sums metric →
     unbucketed xb ∧ unbucketed yb ∧ Forall plain xs ∧ Forall plain ys) →
  (∀ field, backing_field metric = Some field →
     ∃ col vals, t !! field = Some col ∧ rmap to_numeric col = Ok vals ∧
                 Forall finite vals ∧ length (zip xd yd) ≤ length vals) →
  ∃ p, outcome (create_pivot_table to_period df x_axis y_axis metric
                  xb yb xcr ycr) h = Ok p ∧
       rectangle p (present_rows xd yd).
Proof.
  intros Hdf Hx Hy Hxd Hyd Hmetric _ Hfield. unfold outcome.
  rewrite (create_pivot_table_run _ _ _ t) by done. cbn [fst].
  rewrite (pivot_of_frame_bucketed t _ _ _ _ _ _ _ xs ys xd yd) by done.
  cbv zeta.
  rewrite !elem_of_cons, elem_of_nil in Hmetric.
  destruct Hmetric as [->|[->|[->|[->|[->|[->|[]]]]]]]; pick_metric.
  - cbn [fmap result_fmap]. eexists; split; [done|].
    rewrite crosstab_count, fillna_count_table. unfold count_table.
    apply (rectangle_grid _ _ (λ r c, nz (Z.of_nat (count_pair xd yd (r, c)))));
      [apply elem_of_present_keys|].
    intros r c Hk. rewrite count_pair_absent; [done|].
    by rewrite <- elem_of_present_keys.
  - destruct (Hfield "total_revenue" eq_refl) as (col & vals & Hc & Hv & Hf & Hl).
    rewrite (aggregate_run t _ col vals) by done. cbn [fmap result_fmap].
    eexists; split; [done|].
    rewrite crosstab_values_layout
      by (done || (intros; by apply agg_sum_finite)).
    unfold fillna, df_round. rewrite !df_map_grid.
    apply rectangle_grid; [apply elem_of_present_keys|].
    intros r c Hk. by rewrite decide_False.
  - destruct (Hfield "ltv" eq_refl) as (col & vals & Hc & Hv & Hf & Hl).
    rewrite (aggregate_run t _ col vals) by done. cbn [fmap result_fmap].
    eexists; split; [done|].
    rewrite crosstab_values_layout by (done || apply agg_mean_finite).
    unfold fillna, df_round. rewrite !df_map_grid.
    apply rectangle_grid; [apply elem_of_present_keys|].
    intros r c Hk. by rewrite decide_False.
  - destruct (Hfield "is_retained" eq_refl) as (col & vals & Hc & Hv & Hf & Hl).
    rewrite (aggregate_run t _ col vals) by done. cbn [fmap result_fmap].
    eexists; split; [done|].
    rewrite crosstab_values_layout by (done || apply agg_mean_finite).
    unfold fillna, df_round. rewrite !df_map_grid.
    apply rectangle_grid; [apply elem_of_present_keys|].
    intros r c Hk. by rewrite decide_False.
  - destruct (Hfield "average_order_value" eq_refl)
      as (col & vals & Hc & Hv & Hf & Hl).
    rewrite (aggregate_run t _ col vals) by done. cbn [fmap result_fmap].
    eexists; split; [done|].
    rewrite crosstab_values_layout by (done || apply agg_mean_finite).
    unfold fillna, df_round. rewrite !df_map_grid.
    apply rectangle_grid; [apply elem_of_present_keys|].
    intros r c Hk. by rewrite decide_False.
  - destruct (Hfield "total_orders" eq_refl) as (col & vals & Hc & Hv & Hf & Hl).
    rewrite (aggregate_run t _ col vals) by done. cbn [fmap result_fmap].
    eexists; split; [done|].
    rewrite crosstab_values_layout
      by (done || (intros; by apply agg_sum_finite)).
    unfold fillna. rewrite !df_map_grid.
    apply rectangle_grid; [apply elem_of_present_keys|].
    intros r c Hk. by rewrite decide_False.
Qed.

End Layout.

(** ** The Count metric *)


Section Count.

Variable to_period : period → series → result series.


End Count.



(** C3, as amended, on three customers with the Total Orders metric and
    no bucketing. *)
Lemma pivot_is_rectangle_witness :
  ∃ p, outcome (create_pivot_table no_periods 0 "gender" "country"
                  "Total Orders" None None None None) {[ 0 := three_orders ]}
       = Ok p ∧
       rectangle p (present_rows [VStr "M"; VStr "F"; VStr "M"]
                      [VStr "US"; VStr "UK"; VStr "US"]).
Proof.
  apply (pivot_is_rectangle no_periods {[ 0 := three_orders ]} 0 three_orders
           "gender" "country" "Total Orders" None None None None
           [VStr "M"; VStr "F"; VStr "M"] [VStr "US"; VStr "UK"; VStr "US"]);
    [ reflexivity | reflexivity | reflexivity | reflexivity | reflexivity
    | set_solver | | ].
  - intros _. split; [by left|]. split; [by left|].
    split; repeat constructor.
  - intros field [= <-].
    exists [VNum (nz 2); VNum (nz 3); VNum (nz 5)], [nz 2; nz 3; nz 5].
    split; [reflexivity|]. split; [reflexivity|]. split.
    + repeat constructor; by eexists.
    + simpl. lia.
Defined.

(** C3 as stated fails: in the Count pivot of the two-row table, whose
    rows are (M, US) and (F, UK), there is a cell for the pair (F, US),
    holding 0, although no input row falls into it. *)
Lemma observed_cells_counterexample :
  ((VStr "F", VStr "US") ∉ zip [VStr "M"; VStr "F"] [VStr "US"; VStr "UK"]) ∧
  ((λ p, loc p (VStr "F") (VStr "US")) <$>
     outcome (create_pivot_table no_periods 0 "gender" "country" "Count"
                None None None None) {[ 0 := two_users ]})
  = Ok (Some (nz 0)).
Proof.
  split.
  - simpl. rewrite !elem_of_cons, elem_of_nil. intros [E|[E|[]]]; discriminate E.
  - apply (bool_decide_unpack _). by vm_compute.
Qed.

(** ** The Retention Rate metric *)

Lemma to_numeric_bools (bs : list bool) :
  rmap to_numeric (VBool <$> bs) = Ok (map bool_num bs).
Proof.
  induction bs as [|b bs IH]; [done|].
  rewrite fmap_cons. cbn [rmap to_numeric mbind result_bind].
  by rewrite IH.
Qed.

Lemma bool_num_finite bs : Forall finite (map bool_num bs).
Proof.
  apply Forall_forall. intros v Hv.
  apply list_elem_of_fmap in Hv as (b & -> & _). by eexists.
Qed.

(** The group of a present label pair, read off the zipped columns. *)
Lemma group_bools x y (bs : list bool) k :
  isna k.1 = false → isna k.2 = false →
  group (keyed_rows x y (map bool_num bs)) k
  = map bool_num (cell_rows x y bs k).
Proof.
  intros Hk1 Hk2. unfold group, keyed_rows, cell_rows.
  generalize (zip x y). intros l. revert bs.
  induction l as [|p l IH]; intros [|b bs]; try done.
  cbn [zip zip_with map]. rewrite !filter_cons. cbn [fst snd].
  destruct (decide (p = k)) as [->|Hne].
  - rewrite decide_True by done. rewrite filter_cons_True by done.
    cbn. f_equal. apply IH.
  - case_decide; [rewrite filter_cons_False by done|]; apply IH.
Qed.

Lemma sum_bool_num (bs : list bool) a :
  foldl num_add (nz a) (map bool_num bs)
  = nz (a + Z.of_nat (length (filter (λ b, b = true) bs))).
Proof.
  revert a. induction bs as [|b bs IH]; intros a; cbn [foldl map].
  - cbn. f_equal. lia.
  - unfold bool_num at 1. rewrite nz_add, IH. f_equal.
    rewrite filter_cons. destruct b; simpl; lia.
Qed.

Lemma agg_mean_bools (bs : list bool) :
  bs ≠ [] →
  agg_mean (map bool_num bs)
  = Fin (qz (Z.of_nat (length (filter (λ b, b = true) bs)))
         / qz (Z.of_nat (length bs)))%Qc.
Proof.
  intros Hne. unfold agg_mean.
  rewrite filter_present_finite by apply bool_num_finite.
  destruct (map bool_num bs) as [|v l] eqn:E.
  { destruct bs; done. }
  rewrite <- E, sum_bool_num, length_map. unfold num_div, nz.
  rewrite decide_False.
  - by rewrite Z.add_0_l.
  - apply qz_nonzero. destruct bs; [done|]. simpl. lia.
Qed.

Lemma round_half_even_error (x : Q) :
  (Qabs (inject_Z (round_half_even x) - x) <= 1 # 2)%Q.
Proof.
  destruct x as [a d]. apply Qabs_Qle_condition.
  unfold round_half_even. cbn [Qnum Qden].
  pose proof (Z.div_mod a (Z.pos d) ltac:(lia)) as Hdiv.
  pose proof (Z.mod_pos_bound a (Z.pos d) ltac:(lia)) as Hmod.
  set (fl := (a / Z.pos d)%Z) in *. set (r := (a mod Z.pos d)%Z) in *.
  destruct (2 * r ?= Z.pos d)%Z eqn:Hc.
  - apply Z.compare_eq_iff in Hc.
    destruct (Z.even fl); unfold Qle, Qminus, Qplus, Qopp, inject_Z; simpl;
      rewrite ?Pos.mul_1_l; split; lia.
  - rewrite Z.compare_lt_iff in Hc.
    unfold Qle, Qminus, Qplus, Qopp, inject_Z; simpl;
      rewrite ?Pos.mul_1_l; split; lia.
  - rewrite Z.compare_gt_iff in Hc.
    unfold Qle, Qminus, Qplus, Qopp, inject_Z; simpl;
      rewrite ?Pos.mul_1_l; split; lia.
Qed.

Lemma round_half_even_whole (x : Q) (z : Z) :
  (x == inject_Z z)%Q → round_half_even x = z.
Proof.
  destruct x as [a d]. unfold Qeq, round_half_even. cbn [Qnum Qden inject_Z].
  intros H. assert (a = z * Z.pos d)%Z as -> by lia.
  rewrite Z.div_mul, Z.mod_mul by lia. cbn. done.
Qed.

Lemma this_div (a b : Qc) : (this (a / b)%Qc == this a / this b)%Q.
Proof.
  unfold Qcdiv, Qcmult, Qcinv. cbn [this Q2Qc]. by rewrite !Qred_correct.
Qed.

Lemma this_mult (a b : Qc) : (this (a * b)%Qc == this a * this b)%Q.
Proof. unfold Qcmult. cbn [this Q2Qc]. by rewrite !Qred_correct. Qed.

Lemma this_qz (z : Z) : (this (qz z) == inject_Z z)%Q.
Proof. unfold qz. cbn [this Q2Qc]. by rewrite Qred_correct. Qed.

(** The percentage [round(k/n, 3) * 100] is a whole number [m] of tenths,
    where [m] is a whole number nearest to [1000 k/n]; when [k/n] is a
    multiple of 1/8, [1000 k/n] is itself whole. *)
Lemma rate_rounded (k n : Z) :
  (0 < n)%Z →
  ∃ m : Z,
    (qround 3 (qz k / qz n) * qz 100)%Qc = Q2Qc (inject_Z m / 10) ∧
    near (1 # 2) (inject_Z m) (inject_Z (1000 * k) / inject_Z n) ∧
    (∀ j, (8 * k = j * n)%Z → m = (125 * j)%Z).
Proof.
  intros Hn. set (rate := (qz k / qz n)%Qc).
  set (x := (rate * inject_Z 1000)%Q).
  assert (Hx : (x == inject_Z (1000 * k) / inject_Z n)%Q).
  { unfold x, rate. rewrite this_div, !this_qz, inject_Z_mult. field.
    intros E. unfold Qeq in E. simpl in E. lia. }
  exists (round_half_even x). split; [|split].
  - apply Qc_is_canon. rewrite this_mult, this_qz.
    unfold qround. cbv zeta. cbn [this Q2Qc]. rewrite !Qred_correct.
    change (rate * inject_Z (10 ^ Z.of_nat 3))%Q with x.
    change (Z.to_pos (10 ^ Z.of_nat 3)) with 1000%positive.
    generalize (round_half_even x). intros m.
    unfold Qeq, Qdiv, Qmult, Qinv, inject_Z. simpl. lia.
  - unfold near. rewrite <- Hx. apply round_half_even_error.
  - intros j Hj. apply round_half_even_whole. rewrite Hx.
    rewrite !inject_Z_mult.
    assert (E : (inject_Z 8 * inject_Z k == inject_Z j * inject_Z n)%Q)
      by (rewrite <- !inject_Z_mult; by rewrite Hj).
    apply (Qmult_inj_r _ _ (inject_Z n * inject_Z 8)).
    { intros E0. unfold Qeq in E0. simpl in E0. lia. }
    transitivity (inject_Z 1000 * (inject_Z 8 * inject_Z k))%Q;
      [field; intros E0; unfold Qeq in E0; simpl in E0; lia|].
    rewrite E. ring.
Qed.

Section Retention.

Variable to_period : period → series → result series.

(** The cell of a label pair that some row falls into, in the exact
    arithmetic of the embedding. *)
Lemma retention_rate_cell (h : heap) (df : nat) (t : frame)
    (x_axis y_axis : string) (xb yb xcr ycr : option string)
    (xs ys xd yd : series) (retained : list bool) :
  h !! df = Some t →
  t !! x_axis = Some xs → t !! y_axis = Some ys →
  apply_bucketing to_period xs x_axis xb xcr = Ok xd →
  apply_bucketing to_period ys y_axis yb ycr = Ok yd →
  t !! "is_retained" = Some (VBool <$> retained) →
  length (zip xd yd) ≤ length retained →
  ∃ p, outcome (create_pivot_table to_period df x_axis y_axis "Retention Rate"
                  xb yb xcr ycr) h = Ok p ∧
       ∀ r c, (r, c) ∈ present_rows xd yd →
              cell_rows xd yd retained (r, c) ≠ [] ∧
              loc p r c = Some (retention_rate (cell_rows xd yd retained (r, c))).
Proof.
  intros Hdf Hx Hy Hxd Hyd Hret Hlen. unfold outcome.
  rewrite (create_pivot_table_run _ _ _ t) by done. cbn [fst].
  rewrite (pivot_of_frame_bucketed _ t _ _ _ _ _ _ _ xs ys xd yd) by done.
  cbv zeta. pick_metric.
  rewrite (aggregate_run t _ _ _ _ _ _ Hret (to_numeric_bools retained)).
  cbn [fmap result_fmap]. eexists; split; [done|].
  intros r c Hin.
  rewrite crosstab_values_layout;
    [|apply agg_mean_finite|apply bool_num_finite|by rewrite length_map].
  unfold fillna, df_round. rewrite !df_map_grid.
  rewrite loc_grid_key by (by apply elem_of_present_keys).
  rewrite decide_True by (by apply elem_of_present_keys).
  apply list_elem_of_filter in Hin as [[Hr Hc] Hin]. cbn [fst snd] in Hr, Hc.
  rewrite group_bools by done.
  assert (Hne : cell_rows xd yd retained (r, c) ≠ []).
  { intros E.
    apply (group_nonempty xd yd (map bool_num retained) (r, c)).
    - unfold table_keys. rewrite keyed_rows_keys by (by rewrite length_map).
      apply elem_of_present_keys, list_elem_of_filter. by split.
    - rewrite group_bools by done. by rewrite E. }
  split; [done|]. by rewrite agg_mean_bools.
Qed.

(** C7.  In the Retention Rate pivot of a table whose [is_retained] column
    holds a boolean for every row, the cell of every label pair that some
    row falls into is the mean of the flags of its rows read as 0/1, [k]
    set flags among [n], rounded to three decimals and multiplied by 100:
    there is a whole number [m] nearest to [1000 k/n], and the cell is
    [m/10].  The code computes this in double precision, so both are
    stated up to [float_noise].  Whenever [k/n] is a multiple of 1/8,
    as it is for 3 set flags among 4, every step is exact in double
    precision too, and the cell is [100 k/n]: 75 for the flags true, true,
    true, false. *)
Theorem retention_rate_cells (h : heap) (df : nat) (t : frame)
    (x_axis y_axis : string) (xb yb xcr ycr : option string)
    (xs ys xd yd : series) (retained : list bool) :
  h !! df = Some t →
  t !! x_axis = Some xs → t !! y_axis = Some ys →
  apply_bucketing to_period xs x_axis xb xcr = Ok xd →
  apply_bucketing to_period ys y_axis yb ycr = Ok yd →
  t !! "is_retained" = Some (VBool <$> retained) →
  length (zip xd yd) ≤ length retained →
  ∃ p, outcome (create_pivot_table to_period df x_axis y_axis "Retention Rate"
                  xb yb xcr ycr) h = Ok p ∧
       ∀ r c, (r, c) ∈ present_rows xd yd →
         let flags := cell_rows xd yd retained (r, c) in
         let k := Z.of_nat (length (filter (λ b, b = true) flags)) in
         let n := Z.of_nat (length flags) in
         ∃ (m : Z) (q : Qc),
           loc p r c = Some (Fin q) ∧
           near ((1 # 2) + float_noise) (inject_Z m)
                (inject_Z (1000 * k) / inject_Z n) ∧
           near float_noise q (inject_Z m / 10) ∧
           ((n | 8 * k)%Z →
              Fin q = retention_rate flags ∧ q = (qz (100 * k) / qz n)%Qc).
Proof.
  intros Hdf Hx Hy Hxd Hyd Hret Hlen.
  destruct (retention_rate_cell h df t x_axis y_axis xb yb xcr ycr
              xs ys xd yd retained Hdf Hx Hy Hxd Hyd Hret Hlen)
    as (p & Hp & Hcells).
  exists p. split; [done|]. intros r c Hin flags k n.
  destruct (Hcells r c Hin) as [Hne Hloc]. fold flags in Hne, Hloc.
  assert (Hn : (0 < n)%Z) by (unfold n; destruct flags; [done|simpl; lia]).
  destruct (rate_rounded k n Hn) as (m & Hq & Hm & Hexact).
  exists m, (Q2Qc (inject_Z m / 10)).
  assert (Hrate : retention_rate flags = Fin (Q2Qc (inject_Z m / 10)))
    by (unfold retention_rate; fold k n; by rewrite Hq).
  split; [by rewrite Hloc, Hrate|]. split; [|split].
  - unfold near in *. eapply Qle_trans; [exact Hm|].
    unfold float_noise, Qle, Qplus. simpl. lia.
  - unfold near. cbn [this Q2Qc].
    assert (E : (Qred (inject_Z m / 10) - inject_Z m / 10 == 0)%Q)
      by (rewrite Qred_correct; ring).
    rewrite E. unfold float_noise, Qle. simpl. lia.
  - intros [j Hj]. split; [done|].
    rewrite (Hexact j Hj). apply Qc_is_canon.
    cbn [this Q2Qc]. rewrite Qred_correct, this_div, !this_qz.
    rewrite !inject_Z_mult.
    assert (E : (inject_Z 8 * inject_Z k == inject_Z j * inject_Z n)%Q)
      by (rewrite <- !inject_Z_mult; by rewrite Hj).
    apply (Qmult_inj_r _ _ (inject_Z n * inject_Z 8)).
    { intros E0. unfold Qeq in E0. simpl in E0. lia. }
    transitivity (inject_Z 100 * (inject_Z 8 * inject_Z k))%Q;
      [|field; intros E0; unfold Qeq in E0; simpl in E0; lia].
    rewrite E. field.
Qed.

End Retention.

(** C7 on a cell of four rows whose flags are true, true, true, false:
    the cell holds 75. *)
Lemma retention_rate_cells_witness :
  ∃ p, outcome (create_pivot_table no_periods 0 "gender" "country"
                  "Retention Rate" None None None None) {[ 0 := one_cell ]}
       = Ok p ∧
       loc p (VStr "F") (VStr "US") = Some (nz 75).
Proof.
  assert (Hdf : ({[ 0 := one_cell ]} : heap) !! 0 = Some one_cell)
    by reflexivity.
  assert (Hx : one_cell !! "gender" = Some (VStr <$> ["F"; "F"; "F"; "F"]))
    by reflexivity.
  assert (Hy : one_cell !! "country" = Some (VStr <$> ["US"; "US"; "US"; "US"]))
    by reflexivity.
  assert (Hr : one_cell !! "is_retained"
               = Some (VBool <$> [true; true; true; false]))
    by reflexivity.
  destruct (retention_rate_cells no_periods {[ 0 := one_cell ]} 0 one_cell
              "gender" "country" None None None None _ _ _ _
              [true; true; true; false] Hdf Hx Hy eq_refl eq_refl Hr)
    as (p & Hp & Hcell); [simpl; lia|].
  exists p. split; [exact Hp|].
  destruct (Hcell (VStr "F") (VStr "US")) as (m & q & Hloc & _ & _ & Hexact).
  { apply list_elem_of_filter. split; [done|]. by left. }
  destruct Hexact as [_ ->]; [by exists 6%Z|].
  rewrite Hloc. f_equal. apply (bool_decide_unpack _). by vm_compute.
Defined.

(** ** Custom numeric boundaries 0, 25, 50, 75, 100 *)





Lemma to_numeric_nums (nums : list num) : rmap to_numeric (VNum <$> nums) = Ok nums.
Proof.
  induction nums as [|x nums IH]; [done|].
  rewrite fmap_cons. cbn [rmap to_numeric mbind result_bind]. by rewrite IH.
Qed.





Section Quarters.

Variable to_period : period → series → result series.


End Quarters.

(** ** Alignment of two segments *)

Lemma loc_reindex p new_index new_columns fill_value r c :
  r ∈ new_index → c ∈ new_columns →
  loc (reindex p new_index new_columns fill_value) r c
  = Some (default fill_value (loc p r c)).
Proof.
  intros Hr Hc. unfold reindex.
  by apply (loc_grid _ _ (λ r c, default fill_value (loc p r c))).
Qed.

Section Alignment.

Variable to_period : period → series → result series.

(** C5.  Whenever the builder returns a table for each of the two
    segments, [compare_segments] returns; the two aligned tables are
    indexed by the union of the row labels and the union of the column
    labels of the builder's tables, they have one cell for each pair of
    these, a cell of a builder's table keeps its value and every other
    cell holds 0.  So when the two tables share no row label, or share no
    column label, every cell of either table appears with its value
    against 0 on the other side. *)
Theorem compare_alignment (h : heap) (df1 df2 : nat)
    (x_axis y_axis metric : string) (xb yb : option string) (p1 p2 : pivot) :
  let call1 := create_pivot_table to_period df1 x_axis y_axis metric
                 xb yb None None in
  let call2 := create_pivot_table to_period df2 x_axis y_axis metric
                 xb yb None None in
  outcome call1 h = Ok p1 →
  outcome call2 (final call1 h) = Ok p2 →
  ∃ res, outcome (compare_segments to_period df1 df2 x_axis y_axis metric
                    xb yb) h = Ok res ∧
    let rows := index_union (index p1) (index p2) in
    let cols := index_union (columns p1) (columns p2) in
    (∀ r, r ∈ rows ↔ r ∈ index p1 ∨ r ∈ index p2) ∧
    (∀ c, c ∈ cols ↔ c ∈ columns p1 ∨ c ∈ columns p2) ∧
    NoDup rows ∧ NoDup cols ∧
    index (pivot1 res) = rows ∧ columns (pivot1 res) = cols ∧
    index (pivot2 res) = rows ∧ columns (pivot2 res) = cols ∧
    shape (pivot1 res) (length rows) (length cols) ∧
    shape (pivot2 res) (length rows) (length cols) ∧
    (∀ r c, r ∈ rows → c ∈ cols →
       loc (pivot1 res) r c = Some (default (nz 0) (loc p1 r c)) ∧
       loc (pivot2 res) r c = Some (default (nz 0) (loc p2 r c))) ∧
    ((∀ r, r ∈ index p1 → r ∉ index p2)
     ∨ (∀ c, c ∈ columns p1 → c ∉ columns p2) →
     (∀ r c v, loc p1 r c = Some v →
        loc (pivot1 res) r c = Some v ∧ loc (pivot2 res) r c = Some (nz 0)) ∧
     (∀ r c v, loc p2 r c = Some v →
        loc (pivot2 res) r c = Some v ∧ loc (pivot1 res) r c = Some (nz 0))).
Proof.
  intros call1 call2 H1 H2. unfold outcome, final in *.
  unfold compare_segments, mbind, M_bind. fold call1 call2.
  destruct (call1 h) as [r1 h1]. cbn [fst snd] in H1, H2. subst r1.
  destruct (call2 h1) as [r2 h2]. cbn [fst] in H2. subst r2.
  cbv zeta. eexists. split; [reflexivity|]. cbn [pivot1 pivot2].
  set (rows := index_union (index p1) (index p2)).
  set (cols := index_union (columns p1) (columns p2)).
  assert (Hrows : ∀ r, r ∈ rows ↔ r ∈ index p1 ∨ r ∈ index p2)
    by (intros r; apply elem_of_index_union).
  assert (Hcols : ∀ c, c ∈ cols ↔ c ∈ columns p1 ∨ c ∈ columns p2)
    by (intros c; apply elem_of_index_union).
  assert (Hcell : ∀ r c, r ∈ rows → c ∈ cols →
            loc (reindex p1 rows cols (nz 0)) r c
            = Some (default (nz 0) (loc p1 r c)) ∧
            loc (reindex p2 rows cols (nz 0)) r c
            = Some (default (nz 0) (loc p2 r c)))
    by (intros r c Hr Hc; split; by apply loc_reindex).
  split; [exact Hrows|]. split; [exact Hcols|].
  split; [apply NoDup_sort_labels|]. split; [apply NoDup_sort_labels|].
  do 4 (split; [reflexivity|]).
  split; [apply shape_reindex|]. split; [apply shape_reindex|].
  split; [exact Hcell|].
  intros Hdisj. split.
  - intros r c v Hloc. destruct (loc_inside _ _ _ _ Hloc) as [Hr Hc].
    destruct (Hcell r c) as [E1 E2];
      [apply Hrows; by left | apply Hcols; by left |].
    rewrite E1, E2, Hloc. split; [done|].
    rewrite loc_outside; [done|].
    destruct Hdisj as [Hd|Hd]; [left|right]; by apply Hd.
  - intros r c v Hloc. destruct (loc_inside _ _ _ _ Hloc) as [Hr Hc].
    destruct (Hcell r c) as [E1 E2];
      [apply Hrows; by right | apply Hcols; by right |].
    rewrite E1, E2, Hloc. split; [done|].
    rewrite loc_outside; [done|].
    destruct Hdisj as [Hd|Hd]; [left|right]; intros Hin; by apply (Hd _ Hin).
Qed.

End Alignment.

(** C5 on two segments with disjoint labels: the rows (M, US), (F, UK)
    against the row (Other, Canada), with the Count metric. *)
Lemma compare_alignment_witness :
  ∃ res,
    outcome (compare_segments no_periods 0 1 "gender" "country" "Count"
               None None) {[ 0 := two_users; 1 := other_users ]} = Ok res ∧
    loc (pivot1 res) (VStr "M") (VStr "US") = Some (nz 1) ∧
    loc (pivot2 res) (VStr "M") (VStr "US") = Some (nz 0) ∧
    loc (pivot2 res) (VStr "Other") (VStr "Canada") = Some (nz 1) ∧
    loc (pivot1 res) (VStr "Other") (VStr "Canada") = Some (nz 0) ∧
    shape (pivot1 res) 3 3 ∧ shape (pivot2 res) 3 3.
Proof.
  pose (p1 := Pivot [VStr "F"; VStr "M"] [VStr "UK"; VStr "US"]
                    [[nz 1; nz 0]; [nz 0; nz 1]]).
  pose (p2 := Pivot [VStr "Other"] [VStr "Canada"] [[nz 1]]).
  destruct (compare_alignment no_periods {[ 0 := two_users; 1 := other_users ]}
              0 1 "gender" "country" "Count" None None p1 p2)
    as (res & Hres & _ & _ & _ & _ & _ & _ & _ & _ & Hs1 & Hs2 & _ & Hdisj).
  - apply (bool_decide_unpack _). by vm_compute.
  - apply (bool_decide_unpack _). by vm_compute.
  - exists res. split; [exact Hres|].
    destruct Hdisj as [Hleft Hright].
    { left. intros r Hr Hr'. simpl in Hr, Hr'.
      apply list_elem_of_singleton in Hr'. subst r.
      rewrite !elem_of_cons, elem_of_nil in Hr.
      destruct Hr as [E|[E|[]]]; discriminate E. }
    destruct (Hleft (VStr "M") (VStr "US") (nz 1) eq_refl) as [E1 E2].
    destruct (Hright (VStr "Other") (VStr "Canada") (nz 1) eq_refl) as [E3 E4].
    assert (Hrows : length (index_union (index p1) (index p2)) = 3)
      by (by vm_compute).
    assert (Hcols : length (index_union (columns p1) (columns p2)) = 3)
      by (by vm_compute).
    rewrite Hrows, Hcols in Hs1, Hs2. done.
Defined.

(** * Further properties of the engine *)

(** ** The registry and the options offered for a dimension *)

Lemma assoc_Some_elem {K V} `{EqDecision K} (k : K) (v : V) l :
  assoc k l = Some v → (k, v) ∈ l.
Proof.
  induction l as [|[k' v'] l IH]; simpl; [done|].
  case_decide as E.
  - intros [= ->]. subst. by left.
  - intros H. right. by apply IH.
Qed.

Lemma assoc_is_Some {K V} `{EqDecision K} (k : K) (l : list (K * V)) :
  is_Some (assoc k l) ↔ k ∈ l.*1.
Proof.
  induction l as [|[k' v'] l IH].
  - split; [by intros [? ?]|]. intros H. by apply elem_of_nil in H.
  - cbn [assoc]. rewrite fmap_cons, elem_of_cons. cbn [fst].
    case_decide as E.
    + split; [intros _; by left|]. intros _. by eexists.
    + rewrite IH. split; [by right|]. intros [?|?]; [congruence|done].
Qed.

Lemma registered_entry d n st :
  registered d n = Some st → (d, n, st) ∈ registry_entries.
Proof.
  unfold registered, registry_entries. intros H.
  destruct (assoc d bucket_definitions) as [l|] eqn:Hd; [|done].
  simpl in H. apply assoc_Some_elem in Hd, H.
  apply list_elem_of_bind. exists (d, l). split; [|done].
  apply list_elem_of_bind. exists (n, st). split; [|done]. by left.
Qed.

Lemma registry_ok : forallb entry_ok registry_entries = true.
Proof. by vm_compute. Qed.

Lemma registered_facts d n st :
  registered d n = Some st →
  (n ∉ ["No Bucketing"; "Custom Buckets"; "Risk Levels"; "NPS Categories"]) ∧
  match st with
  | Period _ => d = "signup_date"
  | Cut bins labels =>
      cut_well_formed bins labels = true ∧ head bins = Some (nz 0)
  | QCut q labels => q = 4 ∧ length labels = 4 ∧ NoDup labels
  end.
Proof.
  intros H%registered_entry%list_elem_of_In.
  pose proof (proj1 (forallb_forall entry_ok registry_entries) registry_ok
                _ H) as Hok.
  unfold entry_ok in Hok. apply andb_prop in Hok as [Hn Hst].
  split; [by apply bool_decide_eq_true in Hn|].
  destruct st as [bins labels|q labels|p].
  - apply andb_prop in Hst as [Hwf Hhd].
    by apply bool_decide_eq_true in Hhd.
  - apply andb_prop in Hst as [[Hq Hl]%andb_prop Hd].
    apply Nat.eqb_eq in Hq, Hl. by apply bool_decide_eq_true in Hd.
  - by apply bool_decide_eq_true in Hst.
Qed.

Lemma registered_names d n :
  is_Some (registered d n)
  ↔ ∃ l, assoc d bucket_definitions = Some l ∧ n ∈ l.*1.
Proof.
  unfold registered.
  destruct (assoc d bucket_definitions) as [l|]; simpl.
  - rewrite assoc_is_Some. split; [by exists l|].
    intros (l' & Hl & Hn). by simplify_eq.
  - split; [by intros [? ?]|]. by intros (? & ? & ?).
Qed.

Lemma bucket_options_layout (dimension : string) :
  ∃ names,
    get_bucket_options dimension
    = "No Bucketing" :: names ++ ["Custom Buckets"] ∧
    (∀ n, n ∈ names ↔ is_Some (registered dimension n)) ∧
    NoDup (get_bucket_options dimension).
Proof.
  unfold get_bucket_options.
  destruct (assoc dimension bucket_definitions) as [l|] eqn:Hd.
  - exists l.*1. split; [done|]. split.
    + intros n. rewrite registered_names. split.
      * intros Hn. by exists l.
      * intros (l' & Hl & Hn). by simplify_eq.
    + clear -Hd. unfold bucket_definitions in Hd. simpl in Hd.
      repeat (case_decide; [injection Hd as <-;
                            apply (bool_decide_unpack _); by vm_compute|]).
      done.
  - exists []. split; [done|]. split.
    + intros n. rewrite registered_names. split.
      * intros Hn. by apply elem_of_nil in Hn.
      * intros (l' & Hl & _). congruence.
    + apply (bool_decide_unpack _). by vm_compute.
Qed.

(** X1.  The options offered for a dimension are "No Bucketing", then the
    names registered for the dimension, then "Custom Buckets"; no option
    is offered twice. *)
Theorem get_bucket_options_shape (dimension : string) :
  ∃ names,
    get_bucket_options dimension
    = "No Bucketing" :: names ++ ["Custom Buckets"] ∧
    (∀ n, n ∈ names ↔ is_Some (registered dimension n)) ∧
    NoDup (get_bucket_options dimension).
Proof. apply bucket_options_layout. Qed.

Lemma elem_of_bucket_options d n :
  n ∈ get_bucket_options d
  ↔ n = "No Bucketing" ∨ n = "Custom Buckets" ∨ is_Some (registered d n).
Proof.
  destruct (bucket_options_layout d) as (names & -> & Hnames & _).
  rewrite elem_of_cons, elem_of_app, list_elem_of_singleton, Hnames.
  tauto.
Qed.

Section Dispatch.

Variable to_period : period → series → result series.

Lemma apply_bucketing_registered s d n st cr :
  registered d n = Some st →
  apply_bucketing to_period s d (Some n) cr = run_strategy to_period st s.
Proof.
  intros Hreg. destruct (registered_facts d n st Hreg) as [Hn _].
  rewrite !not_elem_of_cons in Hn. destruct Hn as (Hnb & Hcb & _).
  unfold apply_bucketing.
  rewrite (bool_decide_eq_false_2 (Some n = Some "No Bucketing")) by congruence.
  rewrite (bool_decide_eq_false_2 (Some n = None)) by discriminate.
  rewrite (bool_decide_eq_false_2 (Some n = Some "Custom Buckets"))
    by congruence.
  cbn [orb andb mbind option_bind]. by rewrite Hreg.
Qed.

(** X2.  The two strategies that [apply_bucketing] implements outside the
    registry, "Risk Levels" and "NPS Categories", are offered for no
    dimension. *)
Theorem special_cases_never_offered (dimension : string) :
  ("Risk Levels" ∉ get_bucket_options dimension) ∧
  ("NPS Categories" ∉ get_bucket_options dimension).
Proof.
  split; rewrite elem_of_bucket_options;
    (intros [E|[E|[st Hst]]]; [discriminate E|discriminate E|]);
    destruct (registered_facts _ _ _ Hst) as [Hn _];
    apply Hn; set_solver.
Qed.

(** X3.  What [apply_bucketing] does with an option that
    [get_bucket_options] offers for the dimension: "No Bucketing" returns
    the column, "Custom Buckets" runs the custom bucketing when a non-empty
    range string comes with it and returns the column otherwise, and any
    other offered name runs the function registered under it. *)
Theorem offered_option_dispatch (s : series) (dimension name : string)
    (custom_ranges : option string) :
  name ∈ get_bucket_options dimension →
  let result := apply_bucketing to_period s dimension (Some name)
                  custom_ranges in
  (name = "No Bucketing" → result = Ok s) ∧
  (name = "Custom Buckets" →
     result = match custom_ranges with
              | Some c => if bool_decide (c = "") then Ok s
                          else _apply_custom_bucketing s c
              | None => Ok s
              end) ∧
  (name ≠ "No Bucketing" → name ≠ "Custom Buckets" →
     ∃ st, registered dimension name = Some st ∧
           result = run_strategy to_period st s).
Proof.
  rewrite elem_of_bucket_options. intros Hname result. unfold result.
  split; [|split].
  - intros ->. unfold apply_bucketing.
    by rewrite (bool_decide_eq_true_2 (Some "No Bucketing" = Some "No Bucketing")).
  - intros ->. unfold apply_bucketing.
    rewrite (bool_decide_eq_false_2 (Some "Custom Buckets" = Some "No Bucketing"))
      by discriminate.
    rewrite (bool_decide_eq_false_2 (Some "Custom Buckets" = None))
      by discriminate.
    rewrite (bool_decide_eq_true_2 (Some "Custom Buckets" = Some "Custom Buckets"))
      by reflexivity.
    cbn [orb andb mbind option_bind]. rewrite registered_custom.
    destruct custom_ranges as [c|].
    + case_bool_decide as Hc.
      * rewrite (bool_decide_eq_false_2 (c = "")) by (destruct Hc; congruence).
        done.
      * assert (c = "") as ->.
        { destruct (decide (c = "")) as [|Hne]; [done|].
          destruct Hc. split; congruence. }
        rewrite (bool_decide_eq_true_2 ("" = "")) by done.
        repeat case_bool_decide; congruence.
    + case_bool_decide as Hc; [by destruct Hc as [Hc _]|].
      repeat case_bool_decide; congruence.
  - intros Hnb Hcb. destruct Hname as [?|[?|[st Hst]]]; [done|done|].
    exists st. split; [done|]. by apply apply_bucketing_registered.
Qed.

End Dispatch.

(** X3 at the option "Young/Old" of [age]. *)
Lemma offered_option_dispatch_witness :
  apply_bucketing no_periods [VNum (nz 20); VNum (nz 60)] "age"
    (Some "Young/Old") None
  = pd_cut [VNum (nz 20); VNum (nz 60)] (zs [0; 35; 100]%Z)
      (Some ["Young (18-35)"; "Mature (35+)"]) false.
Proof.
  destruct (offered_option_dispatch no_periods
              [VNum (nz 20); VNum (nz 60)] "age" "Young/Old" None)
    as (_ & _ & Hreg).
  - apply (bool_decide_unpack _). by vm_compute.
  - destruct Hreg as (st & Hst & ->); [discriminate|discriminate|].
    by injection Hst as <-.
Defined.

(** ** Bucketing keeps the rows in place *)

Lemma rmap_length {A B} (f : A → result B) l l' :
  rmap f l = Ok l' → length l' = length l.
Proof.
  revert l'. induction l as [|a l IH]; intros l'; simpl.
  - by intros [= <-].
  - destruct (f a) as [b|]; [|done]. cbn [mbind result_bind].
    destruct (rmap f l) as [bs|]; [|done]. cbn [mbind result_bind].
    intros [= <-]. simpl. f_equal. by apply IH.
Qed.

Lemma rmap_lookup {A B} (f : A → result B) l l' i a :
  rmap f l = Ok l' → l !! i = Some a →
  ∃ b, f a = Ok b ∧ l' !! i = Some b.
Proof.
  revert l' i. induction l as [|a0 l IH]; intros l' i; simpl; [done|].
  destruct (f a0) as [b0|] eqn:Hf; [|done]. cbn [mbind result_bind].
  destruct (rmap f l) as [bs|]; [|done]. cbn [mbind result_bind].
  intros [= <-]. destruct i as [|i]; simpl.
  - intros [= <-]. eauto.
  - intros Hi. by apply IH.
Qed.

Lemma rmap_raises {A B} (f : A → result B) l a e :
  a ∈ l → (∀ a' e', f a' = Raise e' → e' = e) → f a = Raise e →
  rmap f l = Raise e.
Proof.
  intros Hin Hall Ha. induction l as [|a0 l IH]; [by apply elem_of_nil in Hin|].
  simpl. destruct (f a0) as [b0|e0] eqn:Hf.
  - apply elem_of_cons in Hin as [<-|Hin]; [congruence|].
    cbn [mbind result_bind]. by rewrite IH.
  - cbn [mbind result_bind]. f_equal. by apply (Hall a0).
Qed.

(** What [bins_to_cuts] returns, when it returns: the bucket of each
    value, over the edges it settled on. *)
Lemma bins_to_cuts_Ok xs bins labels il drop ys :
  bins_to_cuts xs bins labels il drop = Ok ys →
  ∃ bins' nums,
    (drop = false → bins' = bins) ∧
    rmap to_numeric xs = Ok nums ∧
    ys = map (cut_one bins' labels il) nums.
Proof.
  unfold bins_to_cuts. intros H.
  assert (Hlast : ∀ (check : result ()) (v : series),
            (check ≫= λ _, Ok v) = Ok ys → ys = v).
  { intros [[]|] v; cbn [mbind result_bind]; congruence. }
  destruct (_ && _) eqn:Hdup in H.
  - destruct drop; [|done]. cbn [mbind result_bind] in H.
    destruct (rmap to_numeric xs) as [nums|]; [|done].
    cbn [mbind result_bind] in H. apply Hlast in H.
    exists (remove_dups bins), nums. by repeat split.
  - cbn [mbind result_bind] in H.
    destruct (rmap to_numeric xs) as [nums|]; [|done].
    cbn [mbind result_bind] in H. apply Hlast in H.
    exists bins, nums. by repeat split.
Qed.

Lemma bins_to_cuts_length xs bins labels il drop ys :
  bins_to_cuts xs bins labels il drop = Ok ys → length ys = length xs.
Proof.
  intros (bins' & nums & _ & Hn & ->)%bins_to_cuts_Ok.
  rewrite length_map. by apply rmap_length in Hn.
Qed.

Lemma pd_cut_Ok xs bins labels il ys :
  pd_cut xs bins labels il = Ok ys →
  ∃ nums, rmap to_numeric xs = Ok nums ∧ ys = map (cut_one bins labels il) nums.
Proof.
  unfold pd_cut. destruct (monotonic_increasing bins); [|done].
  intros (bins' & nums & Hb & Hn & ->)%bins_to_cuts_Ok.
  rewrite Hb by done. eauto.
Qed.

Lemma pd_cut_length xs bins labels il ys :
  pd_cut xs bins labels il = Ok ys → length ys = length xs.
Proof.
  intros (nums & Hn & ->)%pd_cut_Ok.
  rewrite length_map. by apply rmap_length in Hn.
Qed.

Lemma pd_qcut_length xs q labels drop ys :
  pd_qcut xs q labels drop = Ok ys → length ys = length xs.
Proof.
  unfold pd_qcut. destruct (rmap to_numeric xs) as [nums|]; [|done].
  cbn [mbind result_bind]. apply bins_to_cuts_length.
Qed.

Lemma custom_bucketing_length s cr ys :
  _apply_custom_bucketing s cr = Ok ys → length ys = length s.
Proof.
  intros Hys. destruct (custom_bucketing_returns s cr) as (r & Hr & Hcase).
  rewrite Hr in Hys. injection Hys as <-.
  destruct Hcase as [->|[(bins & _ & Hcut)|Hq]]; [done| |].
  - by apply pd_cut_length in Hcut.
  - by apply pd_qcut_length in Hq.
Qed.

Section Length.

Variable to_period : period → series → result series.

(** X4.  Outside the calendar strategies of [signup_date], bucketing
    relabels the column cell by cell: whenever [apply_bucketing] returns,
    the column it returns has as many cells as the one it was given. *)
Theorem apply_bucketing_length (s ys : series) (dimension : string)
    (bucket_type custom_ranges : option string) :
  dimension ≠ "signup_date" →
  apply_bucketing to_period s dimension bucket_type custom_ranges = Ok ys →
  length ys = length s.
Proof.
  intros Hdim. unfold apply_bucketing.
  destruct (_ || _); [by intros [= <-]|].
  destruct (_ && _); [apply custom_bucketing_length|].
  destruct (bucket_type ≫= registered dimension) as [st|] eqn:Hreg.
  - destruct bucket_type as [n|]; [|done]. cbn [mbind option_bind] in Hreg.
    destruct (registered_facts _ _ _ Hreg) as [_ Hst].
    destruct st as [bins labels|q labels|p]; cbn [run_strategy].
    + apply pd_cut_length.
    + apply pd_qcut_length.
    + done.
  - repeat case_bool_decide; try (by intros [= <-]); apply pd_cut_length.
Qed.

End Length.

(** X4 at "Young/Old" on a two-row [age] column. *)
Lemma apply_bucketing_length_witness :
  ∃ ys, apply_bucketing no_periods [VNum (nz 20); VNum (nz 60)] "age"
          (Some "Young/Old") None = Ok ys ∧ length ys = 2.
Proof.
  eexists. split; [reflexivity|].
  apply (apply_bucketing_length no_periods [VNum (nz 20); VNum (nz 60)] _
           "age" (Some "Young/Old") None); [discriminate|reflexivity].
Defined.

(** ** The bucket of a value under a registered cut *)

Lemma count_below_bracket bins x k :
  count_below bins x = S k →
  (∃ lo, bins !! k = Some lo ∧ num_ltb lo x = true) ∧
  (∀ hi, bins !! S k = Some hi → num_ltb hi x = false).
Proof.
  revert k. induction bins as [|b bins IH]; intros k; cbn [count_below];
    [done|].
  destruct (num_ltb b x) eqn:Hb; [|done]. intros [= Hk].
  destruct k as [|k].
  - split; [by exists b|]. intros hi Hhi.
    destruct bins as [|b' bins]; [done|].
    cbn [count_below] in Hk. injection Hhi as ->.
    by destruct (num_ltb hi x).
  - by apply IH in Hk.
Qed.

Lemma count_below_all bins x :
  count_below bins x = length bins → ∀ b, b ∈ bins → num_ltb b x = true.
Proof.
  induction bins as [|a bins IH]; cbn [count_below length].
  - intros _ b Hb. by apply elem_of_nil in Hb.
  - destruct (num_ltb a x) eqn:Ha; [|done].
    intros [= Hlen] b [->|Hb]%elem_of_cons; auto.
Qed.

Lemma count_below_le bins x : count_below bins x ≤ length bins.
Proof.
  induction bins as [|a bins IH]; cbn [count_below length]; [lia|].
  destruct (num_ltb a x); lia.
Qed.

Lemma num_leb_ltb_trans a b x :
  num_leb a b = true → num_ltb b x = true → num_ltb a x = true.
Proof.
  unfold num_leb, num_eqb.
  destruct a as [qa| | |], b as [qb| | |], x as [qx| | |];
    cbn [num_ltb orb]; try done.
  rewrite orb_true_iff, !bool_decide_eq_true.
  intros [Hab|[= ->]] Hbx; [|done]. by etrans.
Qed.

(** On increasing edges, a value above edge [k] and not above edge [k+1]
    has exactly [k+1] edges below it. *)
Lemma count_below_between bins k lo hi x :
  monotonic_increasing bins = true →
  bins !! k = Some lo → bins !! S k = Some hi →
  num_ltb lo x = true → num_ltb hi x = false →
  count_below bins x = S k.
Proof.
  revert k. induction bins as [|b bins IH]; intros k Hmono Hlo Hhi Hx Hnx;
    [done|].
  destruct bins as [|b2 bins]; [done|].
  cbn [monotonic_increasing] in Hmono.
  apply andb_prop in Hmono as [Hle Hmono].
  destruct k as [|k].
  - injection Hlo as ->. injection Hhi as ->.
    cbn [count_below]. by rewrite Hx, Hnx.
  - pose proof (IH k Hmono Hlo Hhi Hx Hnx) as Hk.
    assert (num_ltb b2 x = true) as Hb2.
    { cbn [count_below] in Hk. by destruct (num_ltb b2 x). }
    change (count_below (b :: b2 :: bins) x)
      with (if num_ltb b x then S (count_below (b2 :: bins) x) else 0).
    by rewrite (num_leb_ltb_trans b b2 x Hle Hb2), Hk.
Qed.

(** The cell [pd.cut(..., labels=labels)] gives a number. *)
Lemma cut_one_labelled bins labels x :
  length labels = length bins - 1 →
  (cut_one bins (Some labels) false x = VNA ∧
   (num_isnan x = true ∨ count_below bins x = 0
    ∨ count_below bins x = length bins))
  ∨ (∃ k label, cut_one bins (Some labels) false x = VCat k label ∧
                labels !! k = Some label ∧ count_below bins x = S k).
Proof.
  intros Hlen. unfold cut_one, searchsorted_left. cbn [andb].
  destruct (num_isnan x) eqn:Hnan; [left; split; [done|by left]|].
  cbn [orb].
  destruct (Nat.eqb_spec (count_below bins x) (length bins)) as [Hall|Hall];
    [left; split; [done|by right; right]|].
  cbn [orb].
  destruct (Nat.eqb_spec (count_below bins x) 0) as [Hz|Hz];
    [left; split; [done|by right; left]|].
  right. pose proof (count_below_le bins x) as Hle.
  destruct (count_below bins x) as [|k] eqn:Hk; [done|].
  replace (S k - 0) with (S k) by lia. cbn [bin_label].
  replace (S k - 1) with k by lia.
  destruct (lookup_lt_is_Some_2 labels k) as [label Hlabel]; [lia|].
  exists k, label. by rewrite Hlabel.
Qed.

Section RegisteredCut.

Variable to_period : period → series → result series.

(** What a registered cut returns, when it returns. *)
Lemma registered_cut_run s ys d n cr bins labels :
  registered d n = Some (Cut bins labels) →
  apply_bucketing to_period s d (Some n) cr = Ok ys →
  monotonic_increasing bins = true ∧ length labels = length bins - 1 ∧
  head bins = Some (nz 0) ∧
  ∃ nums, rmap to_numeric s = Ok nums ∧
          ys = map (cut_one bins (Some labels) false) nums.
Proof.
  intros Hreg Hys.
  destruct (registered_facts _ _ _ Hreg) as [_ [Hwf Hhd]].
  unfold cut_well_formed in Hwf.
  apply andb_prop in Hwf as [[[Hmono _]%andb_prop _]%andb_prop Hlen].
  apply Nat.eqb_eq in Hlen.
  rewrite (apply_bucketing_registered _ _ _ _ _ _ Hreg) in Hys.
  by apply pd_cut_Ok in Hys.
Qed.


(** X6.  Under a registered cut, a numeric cell gets the label at position
    [k] exactly when its value lies in the bin [(edge k, edge k+1]], and no
    bucket otherwise. *)
Theorem registered_cut_cell (s ys : series) (dimension name : string)
    (custom_ranges : option string) (bins : list num) (labels : list string)
    (i : nat) (x : num) :
  registered dimension name = Some (Cut bins labels) →
  apply_bucketing to_period s dimension (Some name) custom_ranges = Ok ys →
  s !! i = Some (VNum x) →
  (ys !! i = Some VNA ∨ ∃ k label, ys !! i = Some (VCat k label)) ∧
  (∀ k label,
     ys !! i = Some (VCat k label)
     ↔ labels !! k = Some label ∧
       ∃ lo hi, bins !! k = Some lo ∧ bins !! S k = Some hi ∧
                num_ltb lo x = true ∧ num_ltb hi x = false).
Proof.
  intros Hreg Hys Hi.
  destruct (registered_cut_run _ _ _ _ _ _ _ Hreg Hys)
    as (Hmono & Hlen & Hhd & nums & Hnums & ->).
  destruct (rmap_lookup _ _ _ _ _ Hnums Hi) as (x' & [= <-] & Hx').
  rewrite list_lookup_fmap, Hx'. cbn [fmap option_fmap option_map].
  destruct (cut_one_labelled bins labels x Hlen)
    as [[Hcut Hout]|(k0 & label0 & Hcut & Hlabel & Hk)]; rewrite Hcut.
  - split; [by left|]. intros k label. split; [done|].
    intros (_ & lo & hi & Hlo & Hhi & Hx & Hnx).
    pose proof (count_below_between _ _ _ _ _ Hmono Hlo Hhi Hx Hnx) as Hk.
    destruct Hout as [Hnan|[Hz|Hall]].
    + destruct x; try done. by destruct lo.
    + congruence.
    + apply lookup_lt_Some in Hhi. lia.
  - split; [right; by exists k0, label0|]. intros k label. split.
    + intros [= <- <-]. split; [done|].
      destruct (count_below_bracket _ _ _ Hk) as [(lo & Hlo & Hx) Hhi].
      destruct (lookup_lt_is_Some_2 bins (S k0)) as [hi Hhi'].
      { pose proof (count_below_le bins x) as Hle.
        apply lookup_lt_Some in Hlabel. lia. }
      exists lo, hi. repeat split; try done. by apply Hhi.
    + intros (Hl & lo & hi & Hlo & Hhi & Hx & Hnx).
      pose proof (count_below_between _ _ _ _ _ Hmono Hlo Hhi Hx Hnx) as Hk'.
      assert (k = k0) as -> by congruence. congruence.
Qed.

End RegisteredCut.


(** X6 at the strategy "Young/Old" of [age]: the age 35 is labelled
    "Young (18-35)", so it lies above the edge 0 and not above the edge 35. *)
Lemma registered_cut_cell_witness :
  ["Young (18-35)"; "Mature (35+)"] !! 0 = Some "Young (18-35)" ∧
  ∃ lo hi, zs [0; 35; 100]%Z !! 0 = Some lo ∧ zs [0; 35; 100]%Z !! 1 = Some hi ∧
           num_ltb lo (nz 35) = true ∧ num_ltb hi (nz 35) = false.
Proof.
  destruct (registered_cut_cell no_periods
              [VNum (nz 35); VNum (nz 36)]
              [VCat 0 "Young (18-35)"; VCat 1 "Mature (35+)"]
              "age" "Young/Old" None
              (zs [0; 35; 100]%Z) ["Young (18-35)"; "Mature (35+)"] 0 (nz 35))
    as [_ H]; [reflexivity|reflexivity|reflexivity|].
  by apply (H 0 "Young (18-35)").
Defined.

(** ** Missing columns *)

Section Missing.

Variable to_period : period → series → result series.

(** X7.  A dimension or a metric field that the table does not have is a
    [KeyError], met in the order the method reads the columns: the row
    dimension first, whatever the other arguments; then the column
    dimension, once the row dimension is bucketed; then the field of the
    metric, once both dimensions are bucketed. *)
Theorem missing_column_raises (h : heap) (df : nat) (t : frame)
    (x_axis y_axis metric : string) (xb yb xcr ycr : option string) :
  h !! df = Some t →
  let call := create_pivot_table to_period df x_axis y_axis metric
                xb yb xcr ycr in
  (t !! x_axis = None → outcome call h = Raise KeyError) ∧
  (∀ xs xd, t !! x_axis = Some xs →
     apply_bucketing to_period xs x_axis xb xcr = Ok xd →
     t !! y_axis = None → outcome call h = Raise KeyError) ∧
  (∀ xs xd ys yd field,
     t !! x_axis = Some xs →
     apply_bucketing to_period xs x_axis xb xcr = Ok xd →
     t !! y_axis = Some ys →
     apply_bucketing to_period ys y_axis yb ycr = Ok yd →
     backing_field metric = Some field → t !! field = None →
     outcome call h = Raise KeyError).
Proof.
  intros Hdf call. unfold call, outcome.
  rewrite (create_pivot_table_run _ _ _ t) by done. cbn [fst].
  split; [|split].
  - intros Hx. unfold pivot_of_frame, column. by rewrite Hx.
  - intros xs xd Hx Hxd Hy. unfold pivot_of_frame, column.
    rewrite Hx. cbn [mbind result_bind]. rewrite Hxd.
    cbn [mbind result_bind]. by rewrite Hy.
  - intros xs ys xd yd field Hx Hxd Hy Hyd Hfield Hmiss.
    rewrite (pivot_of_frame_bucketed _ t _ _ _ _ _ _ _ _ _ _ _ Hx Hy Hxd Hyd).
    cbv zeta. unfold backing_field in Hfield.
    assert (metric ≠ "Count") as Hcount.
    { intros ->. by repeat case_bool_decide. }
    rewrite (bool_decide_eq_false_2 (metric = "Count")) by done.
    repeat case_bool_decide; try done; simplify_eq;
      unfold column; by rewrite Hmiss.
Qed.

End Missing.

(** X7 on a table without a [total_revenue] column. *)
Lemma missing_column_raises_witness :
  outcome (create_pivot_table no_periods 0 "gender" "country" "Total Revenue"
             None None None None) {[ 0 := two_users ]} = Raise KeyError.
Proof.
  assert (Hdf : ({[ 0 := two_users ]} : heap) !! 0 = Some two_users)
    by reflexivity.
  destruct (missing_column_raises no_periods {[ 0 := two_users ]} 0 two_users
              "gender" "country" "Total Revenue" None None None None Hdf)
    as (_ & _ & H).
  by apply (H [VStr "M"; VStr "F"] [VStr "M"; VStr "F"]
              [VStr "US"; VStr "UK"] [VStr "US"; VStr "UK"] "total_revenue").
Defined.

(** ** What a cell holds *)

(** The group of a present label pair, read off the zipped columns. *)
Lemma group_cell_rows x y (vals : list num) k :
  isna k.1 = false → isna k.2 = false →
  group (keyed_rows x y vals) k = cell_rows x y vals k.
Proof.
  intros Hk1 Hk2. unfold group, keyed_rows, cell_rows.
  generalize (zip x y). intros l. revert vals.
  induction l as [|p l IH]; intros [|v vals]; try done.
  cbn [zip zip_with]. rewrite !filter_cons. cbn [fst snd].
  destruct (decide (p = k)) as [->|Hne].
  - rewrite decide_True by done. rewrite filter_cons_True by done.
    cbn. f_equal. apply IH.
  - case_decide; [rewrite filter_cons_False by done|]; apply IH.
Qed.

Lemma cell_rows_nonempty x y (vals : list num) k :
  length (zip x y) ≤ length vals → k ∈ present_rows x y →
  cell_rows x y vals k ≠ [].
Proof.
  intros Hlen Hin.
  pose proof Hin as [[Hk1 Hk2] _]%list_elem_of_filter.
  rewrite <- group_cell_rows by done. apply group_nonempty.
  unfold table_keys. rewrite keyed_rows_keys by done.
  by apply elem_of_present_keys.
Qed.

Lemma cell_rows_finite x y (vals : list num) k :
  Forall finite vals → Forall finite (cell_rows x y vals k).
Proof.
  rewrite !Forall_forall. intros H v Hv. apply H.
  unfold cell_rows in Hv. apply list_elem_of_fmap in Hv as ([k' w] & -> & Ht).
  apply list_elem_of_filter in Ht as [_ Ht]. by apply elem_of_zip_r in Ht.
Qed.

Lemma num_round_finite d v : finite v → finite (num_round d v).
Proof. intros [q ->]. by eexists. Qed.

Lemma num_mul_finite v z : finite v → finite (num_mul v (nz z)).
Proof. intros [q ->]. by eexists. Qed.

Lemma metric_cell_finite metric l :
  l ≠ [] → Forall finite l → finite (metric_cell metric l).
Proof.
  intros Hne Hl. unfold metric_cell.
  repeat case_bool_decide;
    repeat first [apply num_mul_finite | apply num_round_finite];
    (by apply agg_sum_finite) || (by apply agg_mean_finite).
Qed.

Lemma to_numeric_zs (l : list Z) : rmap to_numeric (VNum <$> zs l) = Ok (zs l).
Proof.
  induction l as [|z l IH]; [done|].
  unfold zs in *. cbn [map]. rewrite fmap_cons.
  cbn [rmap to_numeric mbind result_bind]. by rewrite IH.
Qed.

Lemma zs_finite (l : list Z) : Forall finite (zs l).
Proof.
  unfold zs. apply Forall_forall. intros v Hv.
  apply list_elem_of_fmap in Hv as (z & -> & _). by eexists.
Qed.

Lemma length_zs (l : list Z) : length (zs l) = length l.
Proof. apply length_map. Qed.

Lemma nsum_zs (l : list Z) : nsum (zs l) = nz (zsum l).
Proof.
  unfold nsum, zs, zsum. induction l as [|z l IH]; [done|].
  cbn [map foldr]. rewrite IH. apply nz_add.
Qed.

Lemma foldl_num_add_zs (l : list Z) a :
  foldl num_add (nz a) (zs l) = nz (a + zsum l).
Proof.
  revert a. unfold zs, zsum.
  induction l as [|z l IH]; intros a; cbn [map foldl foldr].
  - f_equal. lia.
  - rewrite nz_add, IH. f_equal. lia.
Qed.

Lemma agg_sum_zs (l : list Z) : agg_sum (zs l) = nz (zsum l).
Proof.
  unfold agg_sum. rewrite filter_present_finite by apply zs_finite.
  by rewrite foldl_num_add_zs.
Qed.

(** Rounding leaves a whole number as it is. *)
Lemma num_round_nz d z : num_round d (nz z) = nz z.
Proof.
  unfold nz. cbn [num_round]. f_equal. unfold qround. cbv zeta.
  set (s := (10 ^ Z.of_nat d)%Z).
  assert (Hs : (0 < s)%Z) by (apply Z.pow_pos_nonneg; lia).
  rewrite (round_half_even_whole _ (z * s)).
  - apply Qc_is_canon. unfold qz. cbn [this Q2Qc]. rewrite !Qred_correct.
    unfold Qeq, inject_Z. cbn [Qnum Qden]. rewrite Z2Pos.id by done. lia.
  - by rewrite this_qz, inject_Z_mult.
Qed.

Lemma cell_rows_map {A B} (f : A → B) x y (vals : list A) k :
  cell_rows x y (map f vals) k = map f (cell_rows x y vals k).
Proof.
  unfold cell_rows. generalize (zip x y). intros l. revert vals.
  induction l as [|p l IH]; intros [|v vals]; try done.
  cbn [map zip zip_with]. rewrite !filter_cons. cbn [fst snd].
  case_decide; cbn [fmap list_fmap map]; [f_equal|]; apply IH.
Qed.

Lemma present_values_map {A B} (f : A → B) x y (vals : list A) :
  present_values x y (map f vals) = map f (present_values x y vals).
Proof.
  unfold present_values. generalize (zip x y). intros l. revert vals.
  induction l as [|p l IH]; intros [|v vals]; try done.
  cbn [map zip zip_with]. rewrite !filter_cons. cbn [fst snd].
  case_decide; cbn [fmap list_fmap map]; [f_equal|]; apply IH.
Qed.

Lemma count_pair_present x y k : k ∈ present_rows x y → 0 < count_pair x y k.
Proof.
  intros Hin. unfold count_pair.
  assert (k ∈ filter (λ p, p = k) (present_rows x y)) as Hk
    by (by apply list_elem_of_filter).
  destruct (filter _ _); [by apply elem_of_nil in Hk|]. simpl. lia.
Qed.

Section Cells.

Variable to_period : period → series → result series.

(** X8.  In the Count table every cell holds the number of rows of the
    input whose two bucketed labels are present and are the labels of the
    cell; every row label and every column label of the table has a cell
    that counts at least one row. *)
Theorem count_cells (h : heap) (df : nat) (t : frame)
    (x_axis y_axis : string) (xb yb xcr ycr : option string)
    (xs ys xd yd : series) :
  h !! df = Some t →
  t !! x_axis = Some xs → t !! y_axis = Some ys →
  apply_bucketing to_period xs x_axis xb xcr = Ok xd →
  apply_bucketing to_period ys y_axis yb ycr = Ok yd →
  ∃ p, outcome (create_pivot_table to_period df x_axis y_axis "Count"
                  xb yb xcr ycr) h = Ok p ∧
       (∀ r c, r ∈ index p → c ∈ columns p →
          loc p r c = Some (nz (Z.of_nat (count_pair xd yd (r, c))))) ∧
       (∀ r, r ∈ index p → ∃ c, c ∈ columns p ∧ 0 < count_pair xd yd (r, c)) ∧
       (∀ c, c ∈ columns p → ∃ r, r ∈ index p ∧ 0 < count_pair xd yd (r, c)).
Proof.
  intros Hdf Hx Hy Hxd Hyd. unfold outcome.
  rewrite (create_pivot_table_run _ _ _ t) by done. cbn [fst].
  rewrite (pivot_of_frame_bucketed _ t _ _ _ _ _ _ _ xs ys xd yd) by done.
  cbv zeta. pick_metric. cbn [fmap result_fmap]. eexists; split; [done|].
  rewrite crosstab_count, fillna_count_table. unfold count_table.
  cbn [index columns].
  set (keys := remove_dups (present_rows xd yd)).
  split; [|split].
  - intros r c Hr Hc.
    by apply (loc_grid _ _ (λ r c, nz (Z.of_nat (count_pair xd yd (r, c))))).
  - intros r [c Hin]%elem_of_sort_labels%elem_of_keys_1.
    exists c. split.
    + apply elem_of_sort_labels, elem_of_keys_2. eauto.
    + by apply count_pair_present, elem_of_present_keys.
  - intros c [r Hin]%elem_of_sort_labels%elem_of_keys_2.
    exists r. split.
    + apply elem_of_sort_labels, elem_of_keys_1. eauto.
    + by apply count_pair_present, elem_of_present_keys.
Qed.

(** In the exact arithmetic of the embedding, the cell of every label pair
    that some row falls into aggregates the field over exactly the rows of
    that pair. *)
Lemma metric_cells_model (h : heap) (df : nat) (t : frame)
    (x_axis y_axis metric field : string) (xb yb xcr ycr : option string)
    (xs ys xd yd col : series) (vals : list num) :
  h !! df = Some t →
  t !! x_axis = Some xs → t !! y_axis = Some ys →
  apply_bucketing to_period xs x_axis xb xcr = Ok xd →
  apply_bucketing to_period ys y_axis yb ycr = Ok yd →
  backing_field metric = Some field →
  t !! field = Some col → rmap to_numeric col = Ok vals →
  Forall finite vals → length (zip xd yd) ≤ length vals →
  ∃ p, outcome (create_pivot_table to_period df x_axis y_axis metric
                  xb yb xcr ycr) h = Ok p ∧
       ∀ r c, (r, c) ∈ present_rows xd yd →
              loc p r c = Some (metric_cell metric (cell_rows xd yd vals (r, c))).
Proof.
  intros Hdf Hx Hy Hxd Hyd Hfield Hcol Hvals Hfin Hlen. unfold outcome.
  rewrite (create_pivot_table_run _ _ _ t) by done. cbn [fst].
  rewrite (pivot_of_frame_bucketed _ t _ _ _ _ _ _ _ xs ys xd yd) by done.
  cbv zeta.
  assert (Hcell : ∀ r c, (r, c) ∈ present_rows xd yd →
            num_isnan (metric_cell metric (cell_rows xd yd vals (r, c)))
            = false).
  { intros r c Hin. apply finite_not_nan, metric_cell_finite.
    - by apply cell_rows_nonempty.
    - by apply cell_rows_finite. }
  assert (metric ≠ "Count") as Hcount.
  { intros ->. unfold backing_field in Hfield. by repeat case_bool_decide. }
  rewrite (bool_decide_eq_false_2 (metric = "Count")) by done.
  unfold backing_field in Hfield. unfold metric_cell in *.
  repeat case_bool_decide; try done; simplify_eq;
    rewrite (aggregate_run t _ col vals) by done; cbn [fmap result_fmap];
    (eexists; split; [done|]); intros r c Hin;
    pose proof Hin as [[Hr Hc] _]%list_elem_of_filter;
    specialize (Hcell r c Hin);
    (rewrite crosstab_values_layout;
       [|first [apply agg_mean_finite | intros; by apply agg_sum_finite]
        |done|done]);
    unfold fillna, df_round; rewrite !df_map_grid;
    rewrite loc_grid_key by (by apply elem_of_present_keys);
    rewrite decide_True by (by apply elem_of_present_keys);
    rewrite group_cell_rows by done;
    by rewrite Hcell.
Qed.

(** X9.  For the two metrics that sum a field, Total Orders and Total
    Revenue, on a table whose field holds whole numbers that add up without
    error, the cell of every label pair that some row falls into is the sum
    of the field over exactly the rows of that pair. *)
Theorem sum_metric_cells (h : heap) (df : nat) (t : frame)
    (x_axis y_axis metric field : string) (xb yb xcr ycr : option string)
    (xs ys xd yd : series) (orders : list Z) :
  h !! df = Some t →
  t !! x_axis = Some xs → t !! y_axis = Some ys →
  apply_bucketing to_period xs x_axis xb xcr = Ok xd →
  apply_bucketing to_period ys y_axis yb ycr = Ok yd →
  sums metric → backing_field metric = Some field →
  t !! field = Some (VNum <$> zs orders) →
  exact_sums 100 orders →
  length (zip xd yd) ≤ length orders →
  ∃ p, outcome (create_pivot_table to_period df x_axis y_axis metric
                  xb yb xcr ycr) h = Ok p ∧
       ∀ r c, (r, c) ∈ present_rows xd yd →
              loc p r c = Some (nz (zsum (cell_rows xd yd orders (r, c)))).
Proof.
  intros Hdf Hx Hy Hxd Hyd Hsum Hfield Hcol _ Hlen.
  destruct (metric_cells_model h df t x_axis y_axis metric field xb yb xcr ycr
              xs ys xd yd _ (zs orders) Hdf Hx Hy Hxd Hyd Hfield Hcol
              (to_numeric_zs orders) (zs_finite orders))
    as (p & Hp & Hcells); [by rewrite length_zs|].
  exists p. split; [done|]. intros r c Hin.
  rewrite (Hcells r c Hin). f_equal.
  unfold zs. rewrite cell_rows_map. fold (zs (cell_rows xd yd orders (r, c))).
  unfold metric_cell.
  destruct Hsum as [-> | ->]; pick_metric;
    rewrite agg_sum_zs; [apply num_round_nz|done].
Qed.

End Cells.

(** X8 on the rows (M, US), (F, UK). *)
Lemma count_cells_witness :
  ∃ p, outcome (create_pivot_table no_periods 0 "gender" "country" "Count"
                  None None None None) {[ 0 := two_users ]} = Ok p ∧
       loc p (VStr "M") (VStr "US") = Some (nz 1) ∧
       loc p (VStr "M") (VStr "UK") = Some (nz 0).
Proof.
  assert (Hdf : ({[ 0 := two_users ]} : heap) !! 0 = Some two_users)
    by reflexivity.
  assert (Hx : two_users !! "gender" = Some [VStr "M"; VStr "F"])
    by reflexivity.
  assert (Hy : two_users !! "country" = Some [VStr "US"; VStr "UK"])
    by reflexivity.
  destruct (count_cells no_periods {[ 0 := two_users ]} 0 two_users
              "gender" "country" None None None None _ _ _ _
              Hdf Hx Hy eq_refl eq_refl)
    as (p & Hp & Hcell & _).
  exists p. split; [exact Hp|].
  injection Hp as <-.
  split; apply (bool_decide_unpack _); by vm_compute.
Defined.

(** X9 on three customers with 2, 3 and 5 orders: the two of the cell
    (M, US) have 7 orders. *)
Lemma sum_metric_cells_witness :
  ∃ p, outcome (create_pivot_table no_periods 0 "gender" "country"
                  "Total Orders" None None None None) {[ 0 := three_orders ]}
       = Ok p ∧
       loc p (VStr "M") (VStr "US") = Some (nz 7).
Proof.
  assert (Hdf : ({[ 0 := three_orders ]} : heap) !! 0 = Some three_orders)
    by reflexivity.
  assert (Hx : three_orders !! "gender" = Some [VStr "M"; VStr "F"; VStr "M"])
    by reflexivity.
  assert (Hy : three_orders !! "country"
               = Some [VStr "US"; VStr "UK"; VStr "US"])
    by reflexivity.
  assert (Hcol : three_orders !! "total_orders"
                 = Some (VNum <$> zs [2; 3; 5]%Z))
    by reflexivity.
  destruct (sum_metric_cells no_periods {[ 0 := three_orders ]} 0 three_orders
              "gender" "country" "Total Orders" "total_orders"
              None None None None _ _ _ _ [2; 3; 5]%Z
              Hdf Hx Hy eq_refl eq_refl (or_intror eq_refl) eq_refl Hcol)
    as (p & Hp & Hcell).
  - unfold exact_sums. simpl. lia.
  - simpl; lia.
  - exists p. split; [exact Hp|].
    apply (Hcell (VStr "M") (VStr "US")).
    apply list_elem_of_filter. split; [done|]. by left.
Defined.

(** ** The cells of a comparison *)

Lemma zip_with_map_diag {A B C D} (f : B → C → D) (g1 : A → B) (g2 : A → C)
    (l : list A) :
  zip_with f (map g1 l) (map g2 l) = map (λ a, f (g1 a) (g2 a)) l.
Proof. induction l as [|a l IH]; [done|]. cbn. by rewrite IH. Qed.

Lemma df_zip_grid f idx cols cell1 cell2 :
  df_zip f (grid idx cols cell1) (grid idx cols cell2)
  = grid idx cols (λ r c, f (cell1 r c) (cell2 r c)).
Proof.
  unfold df_zip, grid. cbn [index columns data]. f_equal.
  rewrite (zip_with_map_diag (zip_with f)).
  apply map_ext. intros r. apply zip_with_map_diag.
Qed.

Lemma loc_grid_inv idx cols cell r c v :
  loc (grid idx cols cell) r c = Some v →
  r ∈ idx ∧ c ∈ cols ∧ v = cell r c.
Proof.
  intros Hloc. destruct (loc_inside _ _ _ _ Hloc) as [Hr Hc].
  cbn [grid index columns] in Hr, Hc.
  unfold grid in Hloc. rewrite (loc_grid _ _ cell) in Hloc by done.
  by simplify_eq.
Qed.

Lemma qz_sub a b : (qz a - qz b)%Qc = qz (a - b).
Proof.
  apply Qc_is_canon. unfold Qcminus, Qcplus, Qcopp. cbn [this Q2Qc].
  rewrite !Qred_correct, !this_qz.
  unfold Z.sub. by rewrite inject_Z_plus, inject_Z_opp.
Qed.

Lemma qz_mul a b : (qz a * qz b)%Qc = qz (a * b).
Proof.
  apply Qc_is_canon. by rewrite this_mult, !this_qz, inject_Z_mult.
Qed.

Lemma Qc_minus_zero (q : Qc) : (q - 0 = q)%Qc.
Proof. ring. Qed.

Lemma qsign_zero (q : Qc) : qsign q = Eq ↔ q = 0%Qc.
Proof. unfold qsign. rewrite <- Qceq_alt. split; congruence. Qed.

(** A signed infinity times 100 is infinite. *)
Lemma inf_times_100 (q : Qc) :
  q ≠ 0%Qc → num_isinf (num_mul (inf_of_sign (qsign q)) (nz 100)) = true.
Proof.
  intros Hq. destruct (qsign q) eqn:Hs.
  - by apply qsign_zero in Hs.
  - reflexivity.
  - reflexivity.
Qed.

Section Compare.

Variable to_period : period → series → result series.

(** The four tables of a comparison lie on the same grid of labels. *)
Lemma compare_segments_Ok h df1 df2 x_axis y_axis metric xb yb res :
  outcome (compare_segments to_period df1 df2 x_axis y_axis metric xb yb) h
  = Ok res →
  ∃ rows cols cell1 cell2,
    pivot1 res = grid rows cols cell1 ∧
    pivot2 res = grid rows cols cell2 ∧
    absolute_difference res
    = grid rows cols (λ r c, num_sub (cell1 r c) (cell2 r c)) ∧
    percentage_difference res
    = grid rows cols (λ r c,
        let v := num_mul (num_div (num_sub (cell1 r c) (cell2 r c))
                                  (cell2 r c)) (nz 100) in
        if num_isinf v then nz 0 else v).
Proof.
  unfold outcome, compare_segments, mbind, M_bind.
  destruct (create_pivot_table _ df1 _ _ _ _ _ _ _ h) as [[p1|e1] h1];
    [|done].
  destruct (create_pivot_table _ df2 _ _ _ _ _ _ _ h1) as [[p2|e2] h2];
    [|done].
  cbv zeta. cbn [fst]. intros [= <-]. cbn [pivot1 pivot2 absolute_difference
                                           percentage_difference].
  set (rows := index_union (index p1) (index p2)).
  set (cols := index_union (columns p1) (columns p2)).
  exists rows, cols, (λ r c, default (nz 0) (loc p1 r c)),
    (λ r c, default (nz 0) (loc p2 r c)).
  change (reindex p1 rows cols (nz 0))
    with (grid rows cols (λ r c, default (nz 0) (loc p1 r c))).
  change (reindex p2 rows cols (nz 0))
    with (grid rows cols (λ r c, default (nz 0) (loc p2 r c))).
  split; [done|]. split; [done|].
  unfold replace_inf. by rewrite !df_zip_grid, !df_map_grid.
Qed.

(** The cells of the two differences in the exact arithmetic of the
    embedding. *)
Lemma compare_cells_model (h : heap) (df1 df2 : nat)
    (x_axis y_axis metric : string) (xb yb : option string)
    (res : comparison_result) (r c : value) (a b : Qc) :
  outcome (compare_segments to_period df1 df2 x_axis y_axis metric xb yb) h
  = Ok res →
  loc (pivot1 res) r c = Some (Fin a) →
  loc (pivot2 res) r c = Some (Fin b) →
  loc (absolute_difference res) r c = Some (Fin (a - b)) ∧
  loc (percentage_difference res) r c
  = Some (if decide (b = 0%Qc)
          then if decide (a = 0%Qc) then NaN else nz 0
          else Fin ((a - b) / b * qz 100)).
Proof.
  intros (rows & cols & cell1 & cell2 & -> & -> & -> & ->)%compare_segments_Ok.
  intros (Hr & Hc & Ha)%loc_grid_inv (_ & _ & Hb)%loc_grid_inv.
  unfold grid. rewrite !(loc_grid rows cols) by done. rewrite <- Ha, <- Hb.
  split; [done|]. f_equal. cbv zeta.
  cbn [num_sub num_neg num_add num_div].
  change (a + - b)%Qc with (a - b)%Qc.
  destruct (decide (b = 0%Qc)) as [->|Hb0].
  - rewrite Qc_minus_zero.
    destruct (decide (a = 0%Qc)) as [->|Ha0]; [done|].
    by rewrite inf_times_100.
  - done.
Qed.

(** X10.  Cell by cell, for whole numbers [za] of the first aligned table
    and [zb] of the second, of at most 2^45 in absolute value: the absolute
    difference is [za - zb]; the percentage difference is 0 when [zb] is 0
    and [za] is not, and [NaN] when both are 0; when [zb] is not 0 it is
    [100 (za - zb) / zb] up to the rounding of doubles, and is exactly that
    whole number when [zb] divides [za]. *)
Theorem compare_cells (h : heap) (df1 df2 : nat)
    (x_axis y_axis metric : string) (xb yb : option string)
    (res : comparison_result) (r c : value) (za zb : Z) :
  outcome (compare_segments to_period df1 df2 x_axis y_axis metric xb yb) h
  = Ok res →
  loc (pivot1 res) r c = Some (nz za) →
  loc (pivot2 res) r c = Some (nz zb) →
  (Z.abs za ≤ 2 ^ 45)%Z → (Z.abs zb ≤ 2 ^ 45)%Z →
  loc (absolute_difference res) r c = Some (nz (za - zb)) ∧
  ∃ v, loc (percentage_difference res) r c = Some v ∧
       (zb = 0%Z → v = if decide (za = 0%Z) then NaN else nz 0) ∧
       (zb ≠ 0%Z →
        ∃ q : Qc, v = Fin q ∧
          near_rel float_noise q (inject_Z (100 * (za - zb)) / inject_Z zb) ∧
          ((zb | za)%Z → q = qz (100 * (za - zb) / zb))).
Proof.
  intros Hres Ha Hb _ _.
  destruct (compare_cells_model h df1 df2 x_axis y_axis metric xb yb res r c
              (qz za) (qz zb) Hres Ha Hb) as [Habs Hpct].
  split; [by rewrite Habs, qz_sub|].
  eexists. split; [exact Hpct|]. split.
  - intros ->. rewrite decide_True by done.
    destruct (decide (za = 0%Z)) as [->|Hza]; [by rewrite decide_True|].
    rewrite decide_False; [done|]. by apply qz_nonzero.
  - intros Hzb. rewrite decide_False by (by apply qz_nonzero).
    eexists. split; [done|]. split.
    + unfold near_rel.
      assert (E : (this ((qz za - qz zb) / qz zb * qz 100)%Qc
                   - inject_Z (100 * (za - zb)) / inject_Z zb == 0)%Q).
      { rewrite qz_sub, this_mult, this_div, !this_qz, inject_Z_mult.
        field. intros E0. unfold Qeq in E0. simpl in E0. lia. }
      rewrite E. apply Qmult_le_0_compat; [done|apply Qabs_nonneg].
    + intros [j ->].
      replace (100 * (j * zb - zb))%Z with (100 * (j - 1) * zb)%Z by lia.
      rewrite Z.div_mul by done.
      rewrite <- !qz_mul, <- (qz_sub j 1).
      change (qz 1) with 1%Qc. field. by apply qz_nonzero.
Qed.

(** X11.  [compare_segments] raises exactly when one of the two builds
    raises on its own, and then the error of the first build that fails;
    whatever happens, every table of the store is left as it was. *)
Theorem compare_segments_errors (h : heap) (df1 df2 : nat) (t1 t2 : frame)
    (x_axis y_axis metric : string) (xb yb : option string) :
  h !! df1 = Some t1 → h !! df2 = Some t2 →
  let call1 := create_pivot_table to_period df1 x_axis y_axis metric
                 xb yb None None in
  let call2 := create_pivot_table to_period df2 x_axis y_axis metric
                 xb yb None None in
  let compare := compare_segments to_period df1 df2 x_axis y_axis metric
                   xb yb in
  (∀ e, outcome compare h = Raise e
        ↔ outcome call1 h = Raise e
          ∨ ((∃ p1, outcome call1 h = Ok p1) ∧ outcome call2 h = Raise e)) ∧
  (∀ l t, h !! l = Some t → final compare h !! l = Some t).
Proof.
  intros H1 H2 call1 call2 compare.
  unfold compare, compare_segments, call1, call2, outcome, final, mbind, M_bind.
  rewrite (create_pivot_table_run _ h df1 t1) by done.
  rewrite (create_pivot_table_run _ h df2 t2) by done.
  set (l1 := fresh (dom h)). set (h1 := <[l1 := t1]> h).
  assert (Hl1 : h !! l1 = None)
    by (apply not_elem_of_dom; apply is_fresh).
  assert (Hkeep1 : ∀ l t, h !! l = Some t → h1 !! l = Some t).
  { intros l t Hl. unfold h1. rewrite lookup_insert_ne; [done|]. congruence. }
  destruct (pivot_of_frame _ t1 _ _ _ _ _ _ _) as [p1|e1]; cbn [fst snd].
  - rewrite (create_pivot_table_run _ h1 df2 t2) by (by apply Hkeep1).
    set (l2 := fresh (dom h1)).
    assert (Hl2 : h1 !! l2 = None)
      by (apply not_elem_of_dom; apply is_fresh).
    assert (Hkeep2 : ∀ l t, h !! l = Some t → <[l2 := t2]> h1 !! l = Some t).
    { intros l t Hl. rewrite lookup_insert_ne; [by apply Hkeep1|].
      apply Hkeep1 in Hl. congruence. }
    destruct (pivot_of_frame _ t2 _ _ _ _ _ _ _) as [p2|e2]; cbn [fst snd].
    + split; [|exact Hkeep2]. intros e. split; [done|].
      intros [?|[_ ?]]; done.
    + split; [|exact Hkeep2]. intros e. split.
      * intros [= ->]. right. split; [by exists p1|done].
      * intros [?|[_ ?]]; [done|congruence].
  - split; [|exact Hkeep1]. intros e. split.
    + intros [= ->]. by left.
    + intros [?|[[p1 ?] _]]; [congruence|done].
Qed.

End Compare.

(** X10 on two segments with the same rows (M, US), (F, UK): the cell
    (M, US) holds 1 on both sides, the cell (F, US) holds 0 on both. *)
Lemma compare_cells_witness :
  ∃ res,
    outcome (compare_segments no_periods 0 0 "gender" "country" "Count"
               None None) {[ 0 := two_users ]} = Ok res ∧
    loc (absolute_difference res) (VStr "M") (VStr "US") = Some (nz 0) ∧
    loc (percentage_difference res) (VStr "M") (VStr "US") = Some (nz 0) ∧
    loc (percentage_difference res) (VStr "F") (VStr "US") = Some NaN.
Proof.
  eexists. split; [reflexivity|].
  match goal with |- context [absolute_difference ?x] => set (res := x) end.
  assert (Hres : outcome (compare_segments no_periods 0 0 "gender" "country"
                            "Count" None None) {[ 0 := two_users ]} = Ok res)
    by reflexivity.
  destruct (compare_cells no_periods {[ 0 := two_users ]} 0 0
              "gender" "country" "Count" None None res
              (VStr "M") (VStr "US") 1 1 Hres)
    as (Habs & v & Hv & _ & Hpct);
    [apply (bool_decide_unpack _); by vm_compute ..|lia|lia|].
  destruct (compare_cells no_periods {[ 0 := two_users ]} 0 0
              "gender" "country" "Count" None None res
              (VStr "F") (VStr "US") 0 0 Hres)
    as (_ & w & Hw & Hzero & _);
    [apply (bool_decide_unpack _); by vm_compute ..|lia|lia|].
  split; [exact Habs|]. split.
  - destruct Hpct as (q & -> & _ & Hq); [done|].
    rewrite Hv, Hq by (by exists 1%Z). done.
  - rewrite Hw, Hzero by done. done.
Defined.

(** X11 on a comparison whose second segment lacks the column
    dimension. *)
Lemma compare_segments_errors_witness :
  outcome (compare_segments no_periods 0 1 "gender" "age" "Count" None None)
    {[ 0 := two_users; 1 := other_users ]} = Raise KeyError.
Proof.
  assert (H0 : ({[ 0 := two_users; 1 := other_users ]} : heap) !! 0
               = Some two_users) by reflexivity.
  assert (H1 : ({[ 0 := two_users; 1 := other_users ]} : heap) !! 1
               = Some other_users) by reflexivity.
  destruct (compare_segments_errors no_periods _ 0 1 two_users other_users
              "gender" "age" "Count" None None H0 H1) as [Herr _].
  apply Herr. right. split.
  - eexists. reflexivity.
  - reflexivity.
Defined.

(** ** Custom range strings that are taken as labels *)

Lemma float_raises s e : float s = Raise e → e = ValueError.
Proof.
  unfold float. destruct (parse_sign (strip s)) as [neg body].
  repeat case_bool_decide; cbn [orb]; try done.
  destruct (parse_decimal body); [done|]. by intros [= <-].
Qed.

Lemma length_remove_dups_le {A} `{EqDecision A} (l : list A) :
  length (remove_dups l) ≤ length l.
Proof.
  induction l as [|x l IH]; [done|]. cbn [remove_dups].
  destruct (decide_rel elem_of x l); cbn [length]; lia.
Qed.

Lemma length_remove_dups_lt {A} `{EqDecision A} (l : list A) :
  ¬ NoDup l → length (remove_dups l) < length l.
Proof.
  induction l as [|x l IH]; [intros H; destruct H; constructor|].
  rewrite NoDup_cons. intros Hdup. cbn [remove_dups].
  pose proof (length_remove_dups_le l) as Hle.
  destruct (decide_rel elem_of x l) as [Hin|Hin]; cbn [length]; [lia|].
  destruct (decide (NoDup l)) as [Hnd|Hnd]; [by destruct Hdup|].
  specialize (IH Hnd). lia.
Qed.

(** A custom range string with a comma whose tokens are not all numbers,
    or are numbers that [pd.cut] refuses as edges, goes to [pd.qcut] with
    the tokens as labels; when that fails too, the column is returned
    unchanged. *)
Lemma custom_labels_model (s : series) (cr : string) :
  let tokens := map strip (split_char "," cr) in
  contains_char "," cr = true →
  (∃ tok, tok ∈ tokens ∧ float tok = Raise ValueError)
  ∨ (∃ edges, rmap float tokens = Ok edges ∧
              (monotonic_increasing edges = false
               ∨ (¬ NoDup edges ∧ length edges ≠ 2))) →
  _apply_custom_bucketing s cr
  = match pd_qcut s (length tokens) (Some tokens) true with
    | Ok r => Ok r
    | Raise _ => Ok s
    end.
Proof.
  intros tokens Hcomma Hcase. unfold _apply_custom_bucketing.
  rewrite Hcomma. fold tokens.
  assert (Hlen : 1 < length tokens).
  { unfold tokens. rewrite length_map.
    pose proof (split_char_sep _ _ Hcomma). lia. }
  assert (Hinner :
    try_except
      (numeric_ranges ← rmap float tokens;
       if bool_decide (2 ≤ length numeric_ranges)
       then Some <$> pd_cut s numeric_ranges None true
       else Ok None)
      is_ValueError
      (if bool_decide (1 < length tokens)
       then Some <$> pd_qcut s (length tokens) (Some tokens) true
       else Ok None)
    = (Some <$> pd_qcut s (length tokens) (Some tokens) true)).
  { rewrite (bool_decide_eq_true_2 (1 < length tokens)) by done.
    destruct Hcase as [(tok & Hin & Htok)|(edges & Hedges & Hbad)].
    - rewrite (rmap_raises float tokens tok ValueError Hin float_raises Htok).
      done.
    - rewrite Hedges. cbn [mbind result_bind].
      rewrite bool_decide_eq_true_2
        by (apply rmap_length in Hedges; lia).
      unfold pd_cut.
      destruct (monotonic_increasing edges) eqn:Hmono; [|done].
      destruct Hbad as [?|[Hdup Hlen2]]; [done|].
      unfold bins_to_cuts.
      rewrite bool_decide_eq_true_2 by (by apply length_remove_dups_lt).
      apply Nat.eqb_neq in Hlen2. by rewrite Hlen2. }
  rewrite Hinner.
  by destruct (pd_qcut s (length tokens) (Some tokens) true).
Qed.

Lemma cut_one_label bins labels il x :
  cut_one bins (Some labels) il x = VNA
  ∨ ∃ k label, cut_one bins (Some labels) il x = VCat k label ∧
               labels !! k = Some label.
Proof.
  unfold cut_one. destruct (_ || _); [by left|].
  unfold bin_label. destruct (labels !! _) as [label|] eqn:Hl; [|by left].
  right. eauto.
Qed.

Lemma pd_qcut_labels s q labels drop r :
  pd_qcut s q (Some labels) drop = Ok r →
  length r = length s ∧
  ∀ y, y ∈ r → y = VNA ∨ ∃ k label, y = VCat k label ∧ labels !! k = Some label.
Proof.
  unfold pd_qcut. destruct (rmap to_numeric s) as [nums|] eqn:Hnums; [|done].
  cbn [mbind result_bind].
  intros (bins' & nums' & _ & Hnums' & ->)%bins_to_cuts_Ok. split.
  - rewrite length_map. by apply rmap_length in Hnums'.
  - intros y (x & -> & _)%list_elem_of_fmap. apply cut_one_label.
Qed.

(** X12.  A custom range string with a comma whose tokens are not all
    numbers, or are numbers that are not in increasing order, or are
    numbers with a repeated edge (other than two equal edges), is not
    rejected and gives no intervals: the column comes back either
    unchanged, or with every cell missing or labelled with one of the
    tokens, the token at the position of its bucket. *)
Theorem custom_labels_path (s : series) (cr : string) :
  let tokens := map strip (split_char "," cr) in
  contains_char "," cr = true →
  (∃ tok, tok ∈ tokens ∧ float tok = Raise ValueError)
  ∨ (∃ edges, rmap float tokens = Ok edges ∧ Forall finite_double edges ∧
              (monotonic_increasing edges = false
               ∨ (¬ NoDup edges ∧ length edges ≠ 2))) →
  ∃ r, _apply_custom_bucketing s cr = Ok r ∧
       (r = s
        ∨ (length r = length s ∧
           ∀ y, y ∈ r →
                y = VNA ∨ ∃ k tok, y = VCat k tok ∧ tokens !! k = Some tok)).
Proof.
  intros tokens Hcomma Hcase.
  rewrite (custom_labels_model s cr Hcomma)
    by (destruct Hcase as [?|(edges & ? & _ & ?)]; [by left|right; eauto]).
  fold tokens.
  destruct (pd_qcut s (length tokens) (Some tokens) true) as [r|e] eqn:Hq.
  - exists r. split; [done|]. right. by apply pd_qcut_labels in Hq.
  - exists s. split; [done|]. by left.
Qed.

(** X12 at the range string "low,high" on a column of four numbers. *)
Lemma custom_labels_path_witness :
  ∃ r, _apply_custom_bucketing
         [VNum (nz 1); VNum (nz 2); VNum (nz 3); VNum (nz 4)] "low,high" = Ok r ∧
       (r = [VNum (nz 1); VNum (nz 2); VNum (nz 3); VNum (nz 4)]
        ∨ (length r = 4 ∧
           ∀ y, y ∈ r →
                y = VNA
                ∨ ∃ k tok, y = VCat k tok ∧ ["low"; "high"] !! k = Some tok)).
Proof.
  apply (custom_labels_path
           [VNum (nz 1); VNum (nz 2); VNum (nz 3); VNum (nz 4)] "low,high").
  - reflexivity.
  - left. exists "low". split; [by left|reflexivity].
Defined.

(** ** Every table the builder returns *)

Lemma pivot_table_grid x y vals (aggfunc : list num → num) fill_value :
  ∃ keys cell,
    pivot_table x y vals aggfunc fill_value
    = grid (sort_labels keys.*1) (sort_labels keys.*2) cell ∧
    Forall (λ k, isna k.1 = false ∧ isna k.2 = false) keys.
Proof.
  unfold pivot_table.
  set (rows := keyed_rows x y vals).
  set (agged := filter _ _).
  exists agged.*1. eexists. split; [reflexivity|].
  apply Forall_forall. intros k Hk.
  apply list_elem_of_fmap in Hk as ([k' v] & -> & Hkv).
  apply list_elem_of_filter in Hkv as [_ Hkv].
  apply list_elem_of_fmap in Hkv as (k & [= -> _] & Hk).
  rewrite elem_of_remove_dups in Hk.
  apply list_elem_of_fmap in Hk as (row & -> & Hrow).
  unfold rows, keyed_rows in Hrow.
  by apply list_elem_of_filter in Hrow as [Hpresent _].
Qed.

Lemma crosstab_grid x y values :
  ∃ keys cell,
    crosstab x y values
    = grid (sort_labels keys.*1) (sort_labels keys.*2) cell ∧
    Forall (λ k, isna k.1 = false ∧ isna k.2 = false) keys.
Proof.
  unfold crosstab. destruct values as [[vals aggfunc]|];
    apply pivot_table_grid.
Qed.

Lemma fillna_grid idx cols cell :
  ∃ cell', fillna (nz 0) (grid idx cols cell) = grid idx cols cell' ∧
           ∀ r c, num_isnan (cell' r c) = false.
Proof.
  unfold fillna. rewrite df_map_grid. eexists. split; [reflexivity|].
  intros r c. cbv beta. by destruct (num_isnan (cell r c)) eqn:E.
Qed.

Section WellFormed.

Variable to_period : period → series → result series.

Lemma pivot_of_frame_grid t x_axis y_axis metric xb yb xcr ycr p :
  pivot_of_frame to_period t x_axis y_axis metric xb yb xcr ycr = Ok p →
  ∃ keys cell,
    p = grid (sort_labels keys.*1) (sort_labels keys.*2) cell ∧
    Forall (λ k, isna k.1 = false ∧ isna k.2 = false) keys ∧
    ∀ r c, num_isnan (cell r c) = false.
Proof.
  intros H.
  assert (Hgrid : ∀ (f : pivot → pivot) x y values,
    (∀ idx cols cell, ∃ cell', f (grid idx cols cell) = grid idx cols cell') →
    ∃ keys cell,
      fillna (nz 0) (f (crosstab x y values))
      = grid (sort_labels keys.*1) (sort_labels keys.*2) cell ∧
      Forall (λ k, isna k.1 = false ∧ isna k.2 = false) keys ∧
      ∀ r c, num_isnan (cell r c) = false).
  { intros f x y values Hf.
    destruct (crosstab_grid x y values) as (keys & cell & -> & Hkeys).
    destruct (Hf (sort_labels keys.*1) (sort_labels keys.*2) cell)
      as [cell1 ->].
    destruct (fillna_grid (sort_labels keys.*1) (sort_labels keys.*2) cell1)
      as (cell2 & -> & Hnan).
    by exists keys, cell2. }
  unfold pivot_of_frame in H.
  destruct (column t x_axis) as [x_col|]; [|done].
  cbn [mbind result_bind] in H.
  destruct (apply_bucketing _ x_col _ _ _) as [xd|]; [|done].
  cbn [mbind result_bind] in H.
  destruct (column t y_axis) as [y_col|]; [|done].
  cbn [mbind result_bind] in H.
  destruct (apply_bucketing _ y_col _ _ _) as [yd|]; [|done].
  cbn [mbind result_bind] in H. cbv zeta in H.
  repeat case_bool_decide; try done;
    try (match type of H with context [column t ?f] =>
           destruct (column t f) as [col|]; [|done] end;
         cbn [mbind result_bind fmap result_fmap] in H;
         destruct (rmap to_numeric col) as [vals|]; [|done]);
    cbn [mbind result_bind fmap result_fmap] in H; injection H as <-.
  - apply (Hgrid (λ q, q) xd yd None). intros. by eexists.
  - apply (Hgrid (df_round 2) xd yd (Some (vals, agg_sum))). intros.
    unfold df_round. rewrite df_map_grid. by eexists.
  - apply (Hgrid (df_round 2) xd yd (Some (vals, agg_mean))). intros.
    unfold df_round. rewrite df_map_grid. by eexists.
  - apply (Hgrid (λ q, df_map (λ v, num_mul v (nz 100)) (df_round 3 q))
             xd yd (Some (vals, agg_mean))).
    intros. unfold df_round. rewrite !df_map_grid. by eexists.
  - apply (Hgrid (df_round 2) xd yd (Some (vals, agg_mean))). intros.
    unfold df_round. rewrite df_map_grid. by eexists.
  - apply (Hgrid (λ q, q) xd yd (Some (vals, agg_sum))). intros. by eexists.
Qed.

(** X13.  Every table [create_pivot_table] returns, for any metric,
    bucketing and input, is well formed: no row label and no column label
    occurs twice or is missing, there is exactly one cell for every pair of
    a row label and a column label, and no cell is [NaN]. *)
Theorem returned_table_well_formed (h : heap) (df : nat)
    (x_axis y_axis metric : string) (xb yb xcr ycr : option string)
    (p : pivot) :
  outcome (create_pivot_table to_period df x_axis y_axis metric
             xb yb xcr ycr) h = Ok p →
  NoDup (index p) ∧ NoDup (columns p) ∧
  (∀ r, r ∈ index p → isna r = false) ∧
  (∀ c, c ∈ columns p → isna c = false) ∧
  shape p (length (index p)) (length (columns p)) ∧
  (∀ r c, r ∈ index p → c ∈ columns p →
     ∃ v, loc p r c = Some v ∧ num_isnan v = false).
Proof.
  unfold outcome. destruct (h !! df) as [t|] eqn:Hdf.
  - rewrite (create_pivot_table_run _ _ _ t) by done. cbn [fst].
    intros (keys & cell & -> & Hkeys & Hnan)%pivot_of_frame_grid.
    rewrite Forall_forall in Hkeys. unfold grid. cbn [index columns].
    split; [apply NoDup_sort_labels|]. split; [apply NoDup_sort_labels|].
    split; [|split; [|split; [|]]].
    + intros r [c Hin]%elem_of_sort_labels%elem_of_keys_1.
      by destruct (Hkeys _ Hin).
    + intros c [r Hin]%elem_of_sort_labels%elem_of_keys_2.
      by destruct (Hkeys _ Hin).
    + unfold shape. cbn [data]. split.
      * by rewrite length_map.
      * apply Forall_forall. intros row Hrow.
        apply list_elem_of_fmap in Hrow as (r & -> & _).
        by rewrite length_map.
    + intros r c Hr Hc. exists (cell r c). split; [|done].
      by apply (loc_grid _ _ cell).
  - by rewrite create_pivot_table_dangling.
Qed.

End WellFormed.

(** X13 on the Count table of the rows (M, US), (F, UK). *)
Lemma returned_table_well_formed_witness :
  let p := Pivot [VStr "F"; VStr "M"] [VStr "UK"; VStr "US"]
                 [[nz 1; nz 0]; [nz 0; nz 1]] in
  outcome (create_pivot_table no_periods 0 "gender" "country" "Count"
             None None None None) {[ 0 := two_users ]} = Ok p ∧
  NoDup (index p) ∧ NoDup (columns p) ∧
  shape p (length (index p)) (length (columns p)).
Proof.
  intros p.
  assert (Hp : outcome (create_pivot_table no_periods 0 "gender" "country"
                          "Count" None None None None) {[ 0 := two_users ]}
               = Ok p)
    by (apply (bool_decide_unpack _); by vm_compute).
  split; [exact Hp|].
  destruct (returned_table_well_formed no_periods {[ 0 := two_users ]} 0
              "gender" "country" "Count" None None None None p Hp)
    as (H1 & H2 & _ & _ & H3 & _).
  done.
Defined.

(** ** The dimensions offered for analysis *)

(** X14.  Every dimension for which a bucket strategy exists, in the
    registry or as one of the two special cases of [apply_bucketing], is
    among the available dimensions; and no available dimension is listed
    twice. *)
Theorem bucketed_dimensions_available :
  (∀ dimension name st,
     registered dimension name = Some st →
     dimension ∈ get_available_dimensions) ∧
  ("churn_risk_score" ∈ get_available_dimensions) ∧
  ("nps_score" ∈ get_available_dimensions) ∧
  NoDup get_available_dimensions.
Proof.
  split; [|split; [|split]]; try (apply (bool_decide_unpack _); by vm_compute).
  intros d n st H%registered_entry.
  assert (Hall : Forall (λ e : string * string * strategy,
                           e.1.1 ∈ get_available_dimensions) registry_entries)
    by (apply (bool_decide_unpack _); by vm_compute).
  rewrite Forall_forall in Hall. apply (Hall _ H).
Qed.

(** ** Custom numeric edges *)

Lemma remove_dups_NoDup {A} `{EqDecision A} (l : list A) :
  NoDup l → remove_dups l = l.
Proof.
  induction 1 as [|x l Hx Hl IH]; [done|].
  cbn [remove_dups]. destruct (decide_rel elem_of x l); [done|].
  by rewrite IH.
Qed.

Lemma pd_cut_intervals xs bins il nums :
  monotonic_increasing bins = true → NoDup bins →
  rmap to_numeric xs = Ok nums →
  pd_cut xs bins None il = Ok (map (cut_one bins None il) nums).
Proof.
  intros Hmono Hnd Hnums. unfold pd_cut, bins_to_cuts.
  rewrite Hmono, (remove_dups_NoDup bins Hnd).
  rewrite bool_decide_eq_false_2 by lia. cbn [andb mbind result_bind].
  by rewrite Hnums.
Qed.

Lemma num_eqb_not_ltb x b : num_eqb x b = true → num_ltb b x = false.
Proof.
  unfold num_eqb. destruct x as [qx| | |], b as [qb| | |]; try done.
  rewrite bool_decide_eq_true. intros [= ->]. cbn [num_ltb].
  apply bool_decide_eq_false_2, Qcle_not_lt, Qcle_refl.
Qed.

(** The interval [pd.cut(..., include_lowest=True)] gives a number. *)
Lemma cut_one_interval bins x :
  monotonic_increasing bins = true → 2 ≤ length bins →
  (cut_one bins None true x = VNA
   ∨ ∃ k lo hi, cut_one bins None true x = VInterval k lo hi) ∧
  (∀ k lo hi,
     cut_one bins None true x = VInterval k lo hi
     ↔ bins !! k = Some lo ∧ bins !! S k = Some hi ∧
       ((num_ltb lo x = true ∧ num_ltb hi x = false)
        ∨ (k = 0 ∧ num_eqb x lo = true))).
Proof.
  intros Hmono Hlen.
  destruct bins as [|b0 [|b1 bins]]; cbn [length] in Hlen; try lia.
  set (edges := b0 :: b1 :: bins) in *.
  assert (Hbetween : ∀ k lo hi,
            edges !! k = Some lo → edges !! S k = Some hi →
            num_ltb lo x = true → num_ltb hi x = false →
            count_below edges x = S k ∧ S k < length edges).
  { intros k lo hi Hlo Hhi Hx Hnx. split.
    - by apply (count_below_between edges k lo hi).
    - by apply lookup_lt_Some in Hhi. }
  unfold cut_one, searchsorted_left.
  change (default NaN (head edges)) with b0. cbn [andb].
  destruct (num_isnan x) eqn:Hnan.
  { destruct x; try done. cbn [orb].
    replace (num_eqb NaN b0) with false by done.
    split; [by left|]. intros k lo hi. split; [done|].
    intros (_ & _ & [[Hx _]|[_ Hx]]); by destruct lo. }
  cbn [orb].
  destruct (num_eqb x b0) eqn:Heq.
  - replace (1 =? length edges) with false
      by (symmetry; apply Nat.eqb_neq; unfold edges; cbn [length]; lia).
    cbn [orb Nat.eqb]. change (1 - 1) with 0. unfold bin_label.
    change (edges !! 0) with (Some b0). change (edges !! 1) with (Some b1).
    cbv iota. split; [right; by exists 0, b0, b1|].
    intros k lo hi. split.
    + intros [= <- <- <-]. repeat split; try done. by right.
    + intros (Hlo & Hhi & [[Hx Hnx]|[-> _]]).
      * destruct (Hbetween k lo hi Hlo Hhi Hx Hnx) as [Hk _].
        unfold edges in Hk. cbn [count_below] in Hk.
        by rewrite (num_eqb_not_ltb x b0 Heq) in Hk.
      * unfold edges in Hlo, Hhi. cbn in Hlo, Hhi. by simplify_eq.
  - pose proof (count_below_le edges x) as Hle.
    destruct (Nat.eqb_spec (count_below edges x) (length edges)) as [Hall|Hall].
    { cbn [orb]. split; [by left|]. intros k lo hi. split; [done|].
      intros (Hlo & Hhi & [[Hx Hnx]|[-> Hx]]).
      - destruct (Hbetween k lo hi Hlo Hhi Hx Hnx). lia.
      - unfold edges in Hlo. cbn in Hlo. simplify_eq. congruence. }
    cbn [orb].
    destruct (Nat.eqb_spec (count_below edges x) 0) as [Hz|Hz].
    { split; [by left|]. intros k lo hi. split; [done|].
      intros (Hlo & Hhi & [[Hx Hnx]|[-> Hx]]).
      - destruct (Hbetween k lo hi Hlo Hhi Hx Hnx). lia.
      - unfold edges in Hlo. cbn in Hlo. simplify_eq. congruence. }
    destruct (count_below edges x) as [|k0] eqn:Hk0; [done|].
    replace (S k0 - 1) with k0 by lia. unfold bin_label.
    destruct (count_below_bracket _ _ _ Hk0) as [(lo0 & Hlo0 & Hx0) Hhi0].
    destruct (lookup_lt_is_Some_2 edges (S k0)) as [hi0 Hhi0']; [lia|].
    rewrite Hlo0, Hhi0'.
    split; [right; by exists k0, lo0, hi0|].
    intros k lo hi. split.
    + intros [= <- <- <-]. repeat split; try done. left. split; [done|].
      by apply Hhi0.
    + intros (Hlo & Hhi & [[Hx Hnx]|[-> Hx]]).
      * destruct (Hbetween k lo hi Hlo Hhi Hx Hnx) as [Hk _].
        assert (k = k0) as -> by congruence. congruence.
      * unfold edges in Hlo. cbn in Hlo. simplify_eq. congruence.
Qed.

(** Strictly increasing edges cut a numeric column, in the exact
    arithmetic of the embedding and with the edges as they are typed. *)
Lemma custom_edges_model (s : series) (cr : string)
    (edges nums : list num) :
  contains_char "," cr = true →
  rmap float (map strip (split_char "," cr)) = Ok edges →
  monotonic_increasing edges = true → NoDup edges →
  rmap to_numeric s = Ok nums →
  ∃ ys, _apply_custom_bucketing s cr = Ok ys ∧
        length ys = length s ∧
        ∀ i x, nums !! i = Some x →
          (ys !! i = Some VNA
           ∨ ∃ k lo hi, ys !! i = Some (VInterval k lo hi)) ∧
          (∀ k lo hi,
             ys !! i = Some (VInterval k lo hi)
             ↔ edges !! k = Some lo ∧ edges !! S k = Some hi ∧
               ((num_ltb lo x = true ∧ num_ltb hi x = false)
                ∨ (k = 0 ∧ num_eqb x lo = true))).
Proof.
  intros Hcomma Hedges Hmono Hnd Hnums.
  assert (Hlen : 2 ≤ length edges).
  { apply rmap_length in Hedges. rewrite Hedges, length_map.
    by apply split_char_sep. }
  exists (map (cut_one edges None true) nums). split; [|split].
  - unfold _apply_custom_bucketing. rewrite Hcomma. cbv zeta.
    rewrite Hedges. cbn [mbind result_bind].
    rewrite bool_decide_eq_true_2 by done.
    by rewrite (pd_cut_intervals s edges true nums).
  - rewrite length_map. by apply rmap_length in Hnums.
  - intros i x Hi. rewrite list_lookup_fmap, Hi.
    cbn [fmap option_fmap option_map].
    destruct (cut_one_interval edges x Hmono Hlen) as [Hcase Hiff].
    split.
    + destruct Hcase as [->|(k & lo & hi & ->)]; [by left|].
      right. by exists k, lo, hi.
    + intros k lo hi. rewrite <- Hiff. split; [by intros [= ->]|].
      by intros ->.
Qed.

Lemma is_double_qz (z : Z) : (Z.abs z < 2 ^ 53)%Z → is_double (qz z).
Proof.
  intros Hz. exists z, 0%Z. split; [done|]. split; [lia|]. apply qz_mul.
Qed.

(** X15.  A custom range string whose tokens are the literals of strictly
    increasing doubles cuts a column of doubles at these edges: a cell
    gets the bucket at position [k] exactly when its value lies in
    [(edge k, edge k+1]], or equals the lowest edge for [k = 0]; every
    other cell is missing. *)
Theorem custom_numeric_edges (s : series) (cr : string)
    (edges nums : list num) :
  contains_char "," cr = true →
  rmap float (map strip (split_char "," cr)) = Ok edges →
  Forall finite_double edges →
  monotonic_increasing edges = true → NoDup edges →
  s = VNum <$> nums → Forall double nums →
  ∃ ys, _apply_custom_bucketing s cr = Ok ys ∧
        length ys = length s ∧
        ∀ i x, nums !! i = Some x →
          ∃ y, ys !! i = Some y ∧
               (bucket_code y = None → y = VNA) ∧
               ∀ k, bucket_code y = Some k
                    ↔ ∃ lo hi,
                        edges !! k = Some lo ∧ edges !! S k = Some hi ∧
                        ((num_ltb lo x = true ∧ num_ltb hi x = false)
                         ∨ (k = 0 ∧ num_eqb x lo = true)).
Proof.
  intros Hcomma Hedges _ Hmono Hnd -> _.
  destruct (custom_edges_model (VNum <$> nums) cr edges nums Hcomma Hedges
              Hmono Hnd (to_numeric_nums nums)) as (ys & Hys & Hlen & Hcells).
  exists ys. split; [done|]. split; [done|]. intros i x Hi.
  destruct (Hcells i x Hi) as [[Hna|(k0 & lo0 & hi0 & Hint)] Hiff].
  - exists VNA. split; [done|]. split; [done|]. intros k. split; [done|].
    intros (lo & hi & Hk). apply Hiff in Hk. congruence.
  - exists (VInterval k0 lo0 hi0). split; [done|]. split; [done|].
    intros k. cbn [bucket_code]. split.
    + intros [= <-]. exists lo0, hi0. by apply Hiff.
    + intros (lo & hi & Hk). apply Hiff in Hk. congruence.
Qed.

(** X15 at the range string "0,10,20": the value 0 is in the first
    bucket. *)
Lemma custom_numeric_edges_witness :
  ∃ ys y, _apply_custom_bucketing [VNum (nz 0); VNum (nz 15)] "0,10,20" = Ok ys ∧
          ys !! 0 = Some y ∧ bucket_code y = Some 0.
Proof.
  destruct (custom_numeric_edges [VNum (nz 0); VNum (nz 15)] "0,10,20"
              (zs [0; 10; 20]%Z) [nz 0; nz 15])
    as (ys & Hys & _ & Hcell).
  - reflexivity.
  - apply (bool_decide_unpack _). by vm_compute.
  - repeat constructor;
      (eexists; split; [reflexivity|apply is_double_qz; simpl; lia]).
  - reflexivity.
  - apply (bool_decide_unpack _). by vm_compute.
  - reflexivity.
  - repeat constructor; (apply is_double_qz; simpl; lia).
  - destruct (Hcell 0 (nz 0) eq_refl) as (y & Hy & _ & Hiff).
    exists ys, y. split; [exact Hys|]. split; [exact Hy|].
    apply Hiff. exists (nz 0), (nz 10).
    repeat split; try reflexivity. by right.
Defined.

(** ** Quartiles of a column that holds one value *)

Lemma qz_le_this (q : Qc) (n : Z) : (q <= qz n)%Qc → (q <= inject_Z n)%Q.
Proof.
  unfold Qcle, qz. cbn [this Q2Qc]. by rewrite Qred_correct.
Qed.

Lemma this_zero_le (q : Qc) : (0 <= q)%Qc → (0 <= q)%Q.
Proof. done. Qed.

(** The position a quantile is read at lies inside the data. *)
Lemma floor_in_range (p : Qc) (m : nat) :
  (0 <= p)%Qc → (p <= 1)%Qc →
  (0 ≤ Qfloor (p * qz (Z.of_nat m))%Qc ≤ Z.of_nat m)%Z.
Proof.
  intros Hp0 Hp1.
  assert (Hm : (0 <= qz (Z.of_nat m))%Qc).
  { unfold Qcle, qz. cbn [this Q2Qc]. rewrite !Qred_correct.
    unfold Qle. simpl. lia. }
  assert (H0 : (0 <= p * qz (Z.of_nat m))%Qc)
    by (by apply Qcmult_nonneg_nonneg).
  assert (H1 : (p * qz (Z.of_nat m) <= qz (Z.of_nat m))%Qc).
  { rewrite <- (Qcmult_1_l (qz (Z.of_nat m))) at 2.
    by apply Qcmult_le_compat_r. }
  split.
  - change 0%Z with (Qfloor 0). apply Qfloor_resp_le, this_zero_le, H0.
  - rewrite <- (Qfloor_Z (Z.of_nat m)) at 2.
    apply Qfloor_resp_le, qz_le_this, H1.
Qed.

Lemma quantile_all_equal (l : list num) (c p : Qc) :
  l ≠ [] → (∀ x, x ∈ l → x = Fin c) →
  (0 <= p)%Qc → (p <= 1)%Qc →
  quantile l p = Fin c.
Proof.
  intros Hne Hall Hp0 Hp1. unfold quantile.
  destruct l as [|x0 l']; [done|]. cbv beta iota zeta.
  assert (Hlen : 1 ≤ length (x0 :: l')) by (cbn [length]; lia).
  set (l := x0 :: l') in *.
  pose proof (floor_in_range p (length l - 1) Hp0 Hp1) as [Hlo Hhi].
  set (lo := Qfloor (p * qz (Z.of_nat (length l - 1)))%Qc) in *.
  destruct (lookup_lt_is_Some_2 l (Z.to_nat lo)) as [a Ha]; [lia|].
  rewrite Ha. change (default NaN (Some a)) with a.
  rewrite (Hall a) by (by eapply list_elem_of_lookup_2).
  assert (default (Fin c) (l !! S (Z.to_nat lo)) = Fin c) as ->.
  { destruct (l !! S (Z.to_nat lo)) as [b|] eqn:Hb; [|done].
    cbn [default]. apply Hall. by eapply list_elem_of_lookup_2. }
  case_decide; [done|].
  cbn [num_sub num_neg num_add num_mul]. f_equal. ring.
Qed.

Lemma remove_dups_replicate {A} `{EqDecision A} (n : nat) (v : A) :
  remove_dups (replicate (S n) v) = [v].
Proof.
  induction n as [|n IH]; [done|].
  change (replicate (S (S n)) v) with (v :: replicate (S n) v).
  cbn [remove_dups].
  destruct (decide_rel elem_of v (replicate (S n) v)) as [|Hn]; [done|].
  destruct Hn. by left.
Qed.

(** [pd.qcut(x, 4)] on a column that holds one finite value in every row:
    the five quantile edges coincide, which [pd.qcut] rejects. *)
Lemma pd_qcut_constant (n : nat) (c : Qc) (labels : option (list string)) :
  0 < n →
  pd_qcut (replicate n (VNum (Fin c))) 4 labels false = Raise ValueError.
Proof.
  intros Hn. unfold pd_qcut.
  rewrite <- (fmap_replicate VNum), to_numeric_nums.
  cbn [mbind result_bind].
  set (sorted := merge_sort num_le _).
  assert (Hall : ∀ x, x ∈ sorted → x = Fin c).
  { intros x Hx. unfold sorted in Hx. rewrite merge_sort_Permutation in Hx.
    apply list_elem_of_filter in Hx as [_ Hx].
    by apply elem_of_replicate_inv in Hx. }
  assert (Hne : sorted ≠ []).
  { assert (Fin c ∈ sorted) as Hin.
    { unfold sorted. rewrite merge_sort_Permutation.
      apply list_elem_of_filter. split; [done|].
      apply elem_of_replicate. split; [done|lia]. }
    intros E. rewrite E in Hin. by apply elem_of_nil in Hin. }
  cbn [seq map].
  rewrite !(quantile_all_equal sorted c)
    by first [done | apply (bool_decide_unpack _); by vm_compute].
  unfold bins_to_cuts.
  change [Fin c; Fin c; Fin c; Fin c; Fin c] with (replicate 5 (Fin c)).
  by rewrite remove_dups_replicate.
Qed.

Section Quartiles.

Variable to_period : period → series → result series.

(** X16.  The strategy "Quartiles" of [total_revenue] and [ltv] raises
    [ValueError] on every non-empty column that holds the same finite
    value in every row: the quartile edges are not unique. *)
Theorem quartiles_constant_raises (n : nat) (c : Qc) (dimension : string)
    (custom_ranges : option string) :
  0 < n → dimension = "total_revenue" ∨ dimension = "ltv" →
  apply_bucketing to_period (replicate n (VNum (Fin c))) dimension
    (Some "Quartiles") custom_ranges
  = Raise ValueError.
Proof.
  intros Hn Hdim.
  rewrite (apply_bucketing_registered _ _ dimension "Quartiles"
             (QCut 4 ["Q1 (Bottom 25%)"; "Q2"; "Q3"; "Q4 (Top 25%)"]))
    by (by destruct Hdim as [->| ->]).
  by apply pd_qcut_constant.
Qed.

End Quartiles.

(** X16 on three customers with a lifetime value of 100 each. *)
Lemma quartiles_constant_raises_witness :
  apply_bucketing no_periods
    [VNum (nz 100); VNum (nz 100); VNum (nz 100)] "ltv" (Some "Quartiles") None
  = Raise ValueError.
Proof.
  apply (quartiles_constant_raises no_periods 3 (qz 100) "ltv" None);
    [lia|by right].
Defined.

(** ** The Total Orders table keeps the total *)

Lemma num_add_comm x y : num_add x y = num_add y x.
Proof.
  destruct x as [a| | |], y as [b| | |]; try done.
  cbn [num_add]. f_equal. ring.
Qed.

Lemma num_add_assoc x y z : num_add x (num_add y z) = num_add (num_add x y) z.
Proof.
  destruct x as [a| | |], y as [b| | |], z as [c| | |]; try done.
  cbn [num_add]. f_equal. ring.
Qed.

Lemma num_add_0_l x : num_add (nz 0) x = x.
Proof.
  destruct x as [a| | |]; try done.
  unfold nz. cbn [num_add]. f_equal. change (qz 0) with 0%Qc. ring.
Qed.

Lemma num_add_0_r x : num_add x (nz 0) = x.
Proof. by rewrite num_add_comm, num_add_0_l. Qed.

Lemma foldl_num_add a l : foldl num_add a l = num_add a (nsum l).
Proof.
  revert a. induction l as [|x l IH]; intros a; cbn [foldl nsum foldr].
  - by rewrite num_add_0_r.
  - rewrite IH. fold (nsum l). by rewrite num_add_assoc.
Qed.

Lemma foldl_nsum l : foldl num_add (nz 0) l = nsum l.
Proof. by rewrite foldl_num_add, num_add_0_l. Qed.

Lemma nsum_app l1 l2 : nsum (l1 ++ l2) = num_add (nsum l1) (nsum l2).
Proof.
  induction l1 as [|x l1 IH]; cbn [app nsum foldr].
  - by rewrite num_add_0_l.
  - fold (nsum (l1 ++ l2)) (nsum l1). by rewrite IH, num_add_assoc.
Qed.

Lemma nsum_concat ll : nsum (concat ll) = nsum (map nsum ll).
Proof.
  induction ll as [|l ll IH]; [done|].
  cbn [concat map]. rewrite nsum_app, IH. done.
Qed.

Lemma nsum_add {A} (f g : A → num) (l : list A) :
  nsum (map (λ a, num_add (f a) (g a)) l)
  = num_add (nsum (map f l)) (nsum (map g l)).
Proof.
  induction l as [|a l IH]; cbn [map nsum foldr].
  - by rewrite num_add_0_l.
  - fold (nsum (map (λ a, num_add (f a) (g a)) l))
         (nsum (map f l)) (nsum (map g l)).
    rewrite IH, <- !num_add_assoc. f_equal.
    rewrite !num_add_assoc. f_equal. apply num_add_comm.
Qed.

Lemma nsum_zero {A} (l : list A) : nsum (map (λ _, nz 0) l) = nz 0.
Proof.
  induction l as [|a l IH]; [done|].
  cbn [map nsum foldr]. fold (nsum (map (λ _ : A, nz 0) l)).
  by rewrite IH, num_add_0_l.
Qed.

(** Summing a value at one label of a list of distinct labels. *)
Lemma nsum_indicator {A} `{EqDecision A} (a : A) (v : num) (l : list A) :
  NoDup l →
  nsum (map (λ b, if decide (a = b) then v else nz 0) l)
  = if decide (a ∈ l) then v else nz 0.
Proof.
  induction 1 as [|b l Hb Hl IH]; cbn [map nsum foldr].
  - rewrite decide_False; [done|]. apply not_elem_of_nil.
  - fold (nsum (map (λ b, if decide (a = b) then v else nz 0) l)).
    rewrite IH. destruct (decide (a = b)) as [->|Hne].
    + rewrite (decide_False (P := b ∈ l)) by done.
      rewrite decide_True by (by left). apply num_add_0_r.
    + rewrite num_add_0_l. destruct (decide (a ∈ l)) as [Hin|Hin].
      * rewrite decide_True; [done|]. by right.
      * rewrite decide_False; [done|].
        rewrite elem_of_cons. intros [?|?]; done.
Qed.

Lemma nsum_group_cons (k0 k : value * value) (v : num) rows :
  nsum (group ((k0, v) :: rows) k)
  = num_add (if decide (k0 = k) then v else nz 0) (nsum (group rows k)).
Proof.
  unfold group. rewrite filter_cons. cbn [fst].
  case_decide.
  - done.
  - by rewrite num_add_0_l.
Qed.

(** Summing the groups of a list of keyed values over a grid of labels
    that covers its keys gives the sum of the values. *)
Lemma grid_nsum (idx cols : list value) (rows : list (value * value * num)) :
  NoDup idx → NoDup cols →
  Forall (λ t, t.1.1 ∈ idx ∧ t.1.2 ∈ cols) rows →
  nsum (map (λ r, nsum (map (λ c, nsum (group rows (r, c))) cols)) idx)
  = nsum rows.*2.
Proof.
  intros Hidx Hcols.
  induction 1 as [|[[r0 c0] v] rows [Hr Hc] Hrows IH]; cbn [fst snd] in *.
  - erewrite map_ext; [apply (nsum_zero idx)|].
    intros r. cbv beta. apply (nsum_zero cols).
  - rewrite fmap_cons. cbn [snd nsum foldr]. fold (nsum rows.*2).
    rewrite <- IH.
    transitivity
      (nsum (map (λ r, num_add (if decide (r0 = r) then v else nz 0)
                   (nsum (map (λ c, nsum (group rows (r, c))) cols))) idx)).
    + f_equal. apply map_ext. intros r.
      transitivity
        (nsum (map (λ c, num_add (if decide ((r0, c0) = (r, c)) then v
                                  else nz 0)
                                 (nsum (group rows (r, c)))) cols)).
      * f_equal. apply map_ext. intros c. apply nsum_group_cons.
      * rewrite nsum_add. f_equal.
        destruct (decide (r0 = r)) as [->|Hne].
        -- erewrite map_ext; [rewrite (nsum_indicator c0 v cols Hcols)|].
           ++ by rewrite decide_True.
           ++ intros c; cbv beta. repeat case_decide; congruence.
        -- erewrite map_ext; [apply nsum_zero|].
           intros c; cbv beta. case_decide; congruence.
    + rewrite nsum_add. rewrite (nsum_indicator r0 v idx Hidx).
      by rewrite decide_True.
Qed.

Lemma agg_sum_nsum l : Forall finite l → agg_sum l = nsum l.
Proof.
  intros H. unfold agg_sum. rewrite filter_present_finite by done.
  apply foldl_nsum.
Qed.

Lemma pivot_sum_grid idx cols cell :
  pivot_sum (grid idx cols cell)
  = nsum (map (λ r, nsum (map (cell r) cols)) idx).
Proof.
  unfold pivot_sum, grid. cbn [data].
  by rewrite foldl_nsum, nsum_concat, map_map.
Qed.

Section Totals.

Variable to_period : period → series → result series.

(** In the exact arithmetic of the embedding, the cells of the Total
    Orders table add up to the sum of the field over the rows whose two
    bucketed labels are present. *)
Lemma total_orders_sum_model (h : heap) (df : nat) (t : frame)
    (x_axis y_axis : string) (xb yb xcr ycr : option string)
    (xs ys xd yd col : series) (vals : list num) :
  h !! df = Some t →
  t !! x_axis = Some xs → t !! y_axis = Some ys →
  apply_bucketing to_period xs x_axis xb xcr = Ok xd →
  apply_bucketing to_period ys y_axis yb ycr = Ok yd →
  t !! "total_orders" = Some col → rmap to_numeric col = Ok vals →
  Forall finite vals → length (zip xd yd) ≤ length vals →
  ∃ p, outcome (create_pivot_table to_period df x_axis y_axis "Total Orders"
                  xb yb xcr ycr) h = Ok p ∧
       pivot_sum p = agg_sum (keyed_rows xd yd vals).*2.
Proof.
  intros Hdf Hx Hy Hxd Hyd Hcol Hvals Hfin Hlen. unfold outcome.
  rewrite (create_pivot_table_run _ _ _ t) by done. cbn [fst].
  rewrite (pivot_of_frame_bucketed _ t _ _ _ _ _ _ _ xs ys xd yd) by done.
  cbv zeta. pick_metric.
  rewrite (aggregate_run t _ col vals) by done. cbn [fmap result_fmap].
  eexists; split; [done|].
  rewrite crosstab_values_layout
    by (done || (intros; by apply agg_sum_finite)).
  unfold fillna. rewrite df_map_grid, pivot_sum_grid.
  set (rows := keyed_rows xd yd vals).
  set (keys := remove_dups (present_rows xd yd)).
  assert (Hrows : Forall finite rows.*2).
  { apply Forall_forall. intros v Hv. rewrite Forall_forall in Hfin.
    by apply Hfin, (keyed_rows_values xd yd vals). }
  rewrite (agg_sum_nsum rows.*2) by done.
  rewrite <- (grid_nsum (sort_labels keys.*1) (sort_labels keys.*2) rows);
    try apply NoDup_sort_labels.
  - f_equal. apply map_ext. intros r. f_equal. apply map_ext. intros c.
    case_decide as Hin.
    + assert (Hg : Forall finite (group rows (r, c)))
        by (by apply group_finite).
      rewrite (finite_not_nan _ (agg_sum_finite _ Hg)).
      by apply agg_sum_nsum.
    + cbn [num_isnan]. unfold rows. rewrite group_outside; [done|].
      unfold table_keys. by rewrite keyed_rows_keys.
  - apply Forall_forall. intros [[r c] v] Hin. cbn [fst snd].
    assert ((r, c) ∈ keys) as Hk.
    { unfold keys. apply elem_of_present_keys.
      rewrite <- (keyed_rows_keys xd yd vals Hlen).
      apply list_elem_of_fmap. by exists (r, c, v). }
    rewrite !elem_of_sort_labels. split.
    + apply elem_of_keys_1. eauto.
    + apply elem_of_keys_2. eauto.
Qed.

(** X17.  On a table whose [total_orders] field holds whole numbers that
    add up without error, the cells of the Total Orders table add up to
    the sum of the field over the rows whose two bucketed labels are
    present: no such row is counted twice or lost. *)
Theorem total_orders_sum (h : heap) (df : nat) (t : frame)
    (x_axis y_axis : string) (xb yb xcr ycr : option string)
    (xs ys xd yd : series) (orders : list Z) :
  h !! df = Some t →
  t !! x_axis = Some xs → t !! y_axis = Some ys →
  apply_bucketing to_period xs x_axis xb xcr = Ok xd →
  apply_bucketing to_period ys y_axis yb ycr = Ok yd →
  t !! "total_orders" = Some (VNum <$> zs orders) →
  exact_sums 1 orders →
  length (zip xd yd) ≤ length orders →
  ∃ p, outcome (create_pivot_table to_period df x_axis y_axis "Total Orders"
                  xb yb xcr ycr) h = Ok p ∧
       pivot_sum p = nz (zsum (present_values xd yd orders)).
Proof.
  intros Hdf Hx Hy Hxd Hyd Hcol _ Hlen.
  destruct (total_orders_sum_model h df t x_axis y_axis xb yb xcr ycr
              xs ys xd yd _ (zs orders) Hdf Hx Hy Hxd Hyd Hcol
              (to_numeric_zs orders) (zs_finite orders))
    as (p & Hp & Hsum); [by rewrite length_zs|].
  exists p. split; [done|]. rewrite Hsum.
  change (keyed_rows xd yd (zs orders)).*2
    with (present_values xd yd (zs orders)).
  unfold zs. rewrite present_values_map. apply agg_sum_zs.
Qed.

End Totals.

(** X17 on three customers with 2, 3 and 5 orders. *)
Lemma total_orders_sum_witness :
  ∃ p, outcome (create_pivot_table no_periods 0 "gender" "country"
                  "Total Orders" None None None None) {[ 0 := three_orders ]}
       = Ok p ∧
       pivot_sum p = nz 10.
Proof.
  assert (Hdf : ({[ 0 := three_orders ]} : heap) !! 0 = Some three_orders)
    by reflexivity.
  assert (Hx : three_orders !! "gender" = Some [VStr "M"; VStr "F"; VStr "M"])
    by reflexivity.
  assert (Hy : three_orders !! "country"
               = Some [VStr "US"; VStr "UK"; VStr "US"])
    by reflexivity.
  assert (Hcol : three_orders !! "total_orders"
                 = Some (VNum <$> zs [2; 3; 5]%Z))
    by reflexivity.
  destruct (total_orders_sum no_periods {[ 0 := three_orders ]} 0 three_orders
              "gender" "country" None None None None _ _ _ _
              [2; 3; 5]%Z Hdf Hx Hy eq_refl eq_refl Hcol)
    as (p & Hp & Hsum).
  - unfold exact_sums. simpl. lia.
  - simpl; lia.
  - exists p. split; [exact Hp|]. exact Hsum.
Defined.

(** ** Columns that are not numeric *)

Lemma to_numeric_raises v e : to_numeric v = Raise e → e = TypeError.
Proof. destruct v; cbn [to_numeric]; by intros [= <-]. Qed.

Lemma rmap_to_numeric_raises s v :
  v ∈ s → to_numeric v = Raise TypeError →
  rmap to_numeric s = Raise TypeError.
Proof.
  intros Hin Hv. by apply (rmap_raises to_numeric s v TypeError Hin
                             to_numeric_raises).
Qed.

Lemma rmap_returns {A B} (f : A → result B) (l : list A) :
  Forall (λ a, ∃ b, f a = Ok b) l → ∃ l', rmap f l = Ok l'.
Proof.
  induction 1 as [|a l [b Hb] Hl [l' IH]]; [by eexists|].
  cbn [rmap]. rewrite Hb. cbn [mbind result_bind]. rewrite IH.
  by eexists.
Qed.

(** X22.  "Custom Buckets" on a column that holds a string (a text column
    such as [gender]) returns the column unchanged, whatever the range
    string. *)
Theorem custom_buckets_text_column (s : series) (cr w : string) :
  VStr w ∈ s → _apply_custom_bucketing s cr = Ok s.
Proof.
  intros Hin.
  pose proof (rmap_to_numeric_raises s (VStr w) Hin eq_refl) as Hraise.
  destruct (custom_bucketing_returns s cr) as (r & -> & Hcase). f_equal.
  destruct Hcase as [->|[(bins & _ & Hcut)|Hq]]; [done| |].
  - apply pd_cut_Ok in Hcut as (nums & Hnums & _). congruence.
  - unfold pd_qcut in Hq. by rewrite Hraise in Hq.
Qed.

(** X22 on a column of two strings. *)
Lemma custom_buckets_text_column_witness :
  _apply_custom_bucketing [VStr "M"; VStr "F"] "0,10,20"
  = Ok [VStr "M"; VStr "F"].
Proof.
  apply (custom_buckets_text_column [VStr "M"; VStr "F"] "0,10,20" "M").
  by left.
Defined.

Section RegisteredCutOutcome.

Variable to_period : period → series → result series.

(** X23.  A registered cut passes all the checks [pd.cut] makes on its
    edges and labels: on a column of numbers it returns a column of the
    same length, and on a column that holds a string it raises
    [TypeError]. *)
Theorem registered_cut_outcome (s : series) (dimension name : string)
    (custom_ranges : option string) (bins : list num) (labels : list string) :
  registered dimension name = Some (Cut bins labels) →
  let result := apply_bucketing to_period s dimension (Some name)
                  custom_ranges in
  (∀ nums, s = VNum <$> nums →
           ∃ ys, result = Ok ys ∧ length ys = length s) ∧
  (∀ w, VStr w ∈ s → result = Raise TypeError).
Proof.
  intros Hreg result. unfold result.
  rewrite (apply_bucketing_registered _ _ _ _ _ _ Hreg). cbn [run_strategy].
  destruct (registered_facts _ _ _ Hreg) as [_ [Hwf _]].
  unfold cut_well_formed in Hwf.
  apply andb_prop in Hwf as [[[Hmono Hnd]%andb_prop Hl]%andb_prop Hlen].
  apply bool_decide_eq_true in Hnd.
  unfold pd_cut, bins_to_cuts.
  rewrite Hmono, (remove_dups_NoDup bins Hnd).
  rewrite (bool_decide_eq_false_2 (length bins < length bins)) by lia.
  cbn [andb mbind result_bind]. rewrite Hl, Hlen. cbn [andb].
  split.
  - intros nums ->. rewrite to_numeric_nums. cbn [mbind result_bind].
    eexists. split; [done|]. by rewrite length_map, length_fmap.
  - intros w Hin. by rewrite (rmap_to_numeric_raises s (VStr w) Hin eq_refl).
Qed.

End RegisteredCutOutcome.

(** X23 at "Young/Old" on the [gender] column of two customers. *)
Lemma registered_cut_outcome_witness :
  apply_bucketing no_periods [VStr "M"; VStr "F"] "age" (Some "Young/Old") None
  = Raise TypeError.
Proof.
  destruct (registered_cut_outcome no_periods [VStr "M"; VStr "F"] "age"
              "Young/Old" None (zs [0; 35; 100]%Z)
              ["Young (18-35)"; "Mature (35+)"] eq_refl) as [_ H].
  apply (H "M"). by left.
Defined.

(** ** Swapping the two dimensions *)

Lemma present_rows_swap x y :
  present_rows y x = prod_swap <$> present_rows x y.
Proof.
  unfold present_rows. revert y.
  induction x as [|a x IH]; intros [|b y]; try done.
  cbn [zip zip_with]. rewrite !filter_cons. cbn [fst snd].
  destruct (decide (isna a = false ∧ isna b = false)) as [[Ha Hb]|Hno].
  - rewrite decide_True by done. rewrite fmap_cons. f_equal. apply IH.
  - rewrite decide_False by tauto. apply IH.
Qed.

Lemma present_rows_swap_1 x y : (present_rows y x).*1 = (present_rows x y).*2.
Proof.
  rewrite present_rows_swap.
  induction (present_rows x y) as [|[r c] l IH]; [done|].
  rewrite !fmap_cons. cbn [prod_swap fst snd]. by rewrite IH.
Qed.

Lemma present_rows_swap_2 x y : (present_rows y x).*2 = (present_rows x y).*1.
Proof.
  rewrite present_rows_swap.
  induction (present_rows x y) as [|[r c] l IH]; [done|].
  rewrite !fmap_cons. cbn [prod_swap fst snd]. by rewrite IH.
Qed.

Lemma count_pair_swap x y r c : count_pair y x (c, r) = count_pair x y (r, c).
Proof.
  unfold count_pair. rewrite present_rows_swap.
  induction (present_rows x y) as [|[r' c'] l IH]; [done|].
  rewrite fmap_cons, !filter_cons. cbn [prod_swap fst snd].
  destruct (decide ((r', c') = (r, c))) as [[= -> ->]|Hne].
  - rewrite decide_True by done. cbn [length]. by rewrite IH.
  - rewrite decide_False by congruence. apply IH.
Qed.

Lemma loc_count_table x y r c :
  loc (count_table x y) r c
  = if decide (r ∈ (present_rows x y).*1 ∧ c ∈ (present_rows x y).*2)
    then Some (nz (Z.of_nat (count_pair x y (r, c))))
    else None.
Proof.
  unfold count_table. cbv zeta.
  set (keys := remove_dups (present_rows x y)).
  assert (Hidx : r ∈ sort_labels keys.*1 ↔ r ∈ (present_rows x y).*1).
  { rewrite elem_of_sort_labels, !elem_of_keys_1. unfold keys.
    by setoid_rewrite elem_of_present_keys. }
  assert (Hcols : c ∈ sort_labels keys.*2 ↔ c ∈ (present_rows x y).*2).
  { rewrite elem_of_sort_labels, !elem_of_keys_2. unfold keys.
    by setoid_rewrite elem_of_present_keys. }
  case_decide as Hin.
  - destruct Hin as [Hr Hc].
    apply (loc_grid _ _ (λ r c, nz (Z.of_nat (count_pair x y (r, c)))));
      [by apply Hidx|by apply Hcols].
  - apply loc_outside. cbn [index columns].
    destruct (decide (r ∈ sort_labels keys.*1)) as [Hr|Hr]; [|by left].
    right. intros Hc. apply Hin. split; [by apply Hidx|by apply Hcols].
Qed.

Section Transpose.

Variable to_period : period → series → result series.

(** X24.  Swapping the row dimension and the column dimension (with their
    bucketing choices) transposes the Count table: the cell at
    (column label, row label) of the one is the cell at
    (row label, column label) of the other. *)
Theorem count_transpose (h : heap) (df : nat) (t : frame)
    (x_axis y_axis : string) (xb yb xcr ycr : option string)
    (xs ys xd yd : series) :
  h !! df = Some t →
  t !! x_axis = Some xs → t !! y_axis = Some ys →
  apply_bucketing to_period xs x_axis xb xcr = Ok xd →
  apply_bucketing to_period ys y_axis yb ycr = Ok yd →
  ∃ p q,
    outcome (create_pivot_table to_period df x_axis y_axis "Count"
               xb yb xcr ycr) h = Ok p ∧
    outcome (create_pivot_table to_period df y_axis x_axis "Count"
               yb xb ycr xcr) h = Ok q ∧
    ∀ r c, loc q c r = loc p r c.
Proof.
  intros Hdf Hx Hy Hxd Hyd. unfold outcome.
  rewrite !(create_pivot_table_run _ _ _ t) by done. cbn [fst].
  rewrite (pivot_of_frame_bucketed _ t x_axis y_axis _ _ _ _ _ xs ys xd yd)
    by done.
  rewrite (pivot_of_frame_bucketed _ t y_axis x_axis _ _ _ _ _ ys xs yd xd)
    by done.
  cbv zeta. pick_metric. cbn [fmap result_fmap].
  rewrite !crosstab_count, !fillna_count_table.
  do 2 eexists. split; [done|]. split; [done|].
  intros r c. rewrite !loc_count_table, count_pair_swap.
  rewrite (present_rows_swap_1 xd yd), (present_rows_swap_2 xd yd).
  apply decide_ext. tauto.
Qed.

End Transpose.

(** X24 on the rows (M, US), (F, UK). *)
Lemma count_transpose_witness :
  ∃ p q,
    outcome (create_pivot_table no_periods 0 "gender" "country" "Count"
               None None None None) {[ 0 := two_users ]} = Ok p ∧
    outcome (create_pivot_table no_periods 0 "country" "gender" "Count"
               None None None None) {[ 0 := two_users ]} = Ok q ∧
    loc q (VStr "US") (VStr "M") = loc p (VStr "M") (VStr "US").
Proof.
  assert (Hdf : ({[ 0 := two_users ]} : heap) !! 0 = Some two_users)
    by reflexivity.
  assert (Hx : two_users !! "gender" = Some [VStr "M"; VStr "F"])
    by reflexivity.
  assert (Hy : two_users !! "country" = Some [VStr "US"; VStr "UK"])
    by reflexivity.
  destruct (count_transpose no_periods {[ 0 := two_users ]} 0 two_users
              "gender" "country" None None None None _ _ _ _
              Hdf Hx Hy eq_refl eq_refl)
    as (p & q & Hp & Hq & Hcell).
  exists p, q. by repeat split.
Defined.

(** ** The range of a retention rate *)

Lemma round_half_even_bounds (x : Q) (m : Z) :
  (0 <= x)%Q → (x <= inject_Z m)%Q → (0 ≤ round_half_even x ≤ m)%Z.
Proof.
  destruct x as [n d]. unfold Qle, round_half_even. cbn [Qnum Qden inject_Z].
  intros H0 Hm.
  pose proof (Z.div_mod n (Z.pos d)) as Hdiv.
  pose proof (Z.mod_pos_bound n (Z.pos d)) as Hmod.
  set (fl := (n / Z.pos d)%Z) in *. set (r := (n mod Z.pos d)%Z) in *.
  destruct (2 * r ?= Z.pos d)%Z eqn:Hc.
  - apply Z.compare_eq in Hc. destruct (Z.even fl); nia.
  - apply Z.compare_lt_iff in Hc. nia.
  - apply Z.compare_gt_iff in Hc. nia.
Qed.

Lemma qround_unit (d : nat) (q : Qc) :
  (0 <= q)%Qc → (q <= 1)%Qc → (0 <= qround d q)%Qc ∧ (qround d q <= 1)%Qc.
Proof.
  intros H0 H1. unfold qround. cbv zeta.
  set (scale := (10 ^ Z.of_nat d)%Z).
  assert (Hscale : (0 < scale)%Z) by (apply Z.pow_pos_nonneg; lia).
  assert (Hs : (0 <= inject_Z scale)%Q) by (unfold Qle; simpl; lia).
  assert (Hx0 : (0 <= q * inject_Z scale)%Q)
    by (apply Qmult_le_0_compat; [exact H0|exact Hs]).
  assert (Hx1 : (q * inject_Z scale <= inject_Z scale)%Q).
  { rewrite <- (Qmult_1_l (inject_Z scale)) at 2.
    apply Qmult_le_compat_r; [exact H1|exact Hs]. }
  pose proof (round_half_even_bounds _ _ Hx0 Hx1) as [Hr0 Hr1].
  set (R := round_half_even (q * inject_Z scale)) in *.
  unfold Qcle. cbn [this Q2Qc]. rewrite !Qred_correct.
  unfold Qle. cbn [Qnum Qden]. rewrite Z2Pos.id by done. lia.
Qed.

Lemma ratio_unit (k n : nat) :
  k ≤ n → 0 < n →
  (0 <= qz (Z.of_nat k) / qz (Z.of_nat n))%Qc
  ∧ (qz (Z.of_nat k) / qz (Z.of_nat n) <= 1)%Qc.
Proof.
  intros Hk Hn. unfold Qcle, Qcdiv, Qcmult, Qcinv, qz.
  cbn [this Q2Qc]. rewrite !Qred_correct.
  assert (Hpos : (0 < inject_Z (Z.of_nat n))%Q) by (unfold Qlt; simpl; lia).
  split.
  - apply Qle_shift_div_l; [exact Hpos|]. unfold Qle; simpl; lia.
  - apply Qle_shift_div_r; [exact Hpos|]. unfold Qle; simpl; lia.
Qed.

Lemma percent_unit (a : Qc) :
  (0 <= a)%Qc → (a <= 1)%Qc → (qz 0 <= a * qz 100)%Qc ∧ (a * qz 100 <= qz 100)%Qc.
Proof.
  intros H0 H1.
  assert (H100 : (0 <= qz 100)%Qc) by (apply (bool_decide_unpack _); by vm_compute).
  split.
  - change (qz 0) with 0%Qc. by apply Qcmult_nonneg_nonneg.
  - rewrite <- (Qcmult_1_l (qz 100)) at 2. by apply Qcmult_le_compat_r.
Qed.

Section RetentionRange.

Variable to_period : period → series → result series.

(** X25.  On a table whose [is_retained] column holds a boolean for every
    row, every cell of the Retention Rate table is a percentage: a finite
    number between 0 and 100. *)
Theorem retention_rate_range (h : heap) (df : nat) (t : frame)
    (x_axis y_axis : string) (xb yb xcr ycr : option string)
    (xs ys xd yd : series) (retained : list bool) :
  h !! df = Some t →
  t !! x_axis = Some xs → t !! y_axis = Some ys →
  apply_bucketing to_period xs x_axis xb xcr = Ok xd →
  apply_bucketing to_period ys y_axis yb ycr = Ok yd →
  t !! "is_retained" = Some (VBool <$> retained) →
  length (zip xd yd) ≤ length retained →
  ∃ p, outcome (create_pivot_table to_period df x_axis y_axis "Retention Rate"
                  xb yb xcr ycr) h = Ok p ∧
       ∀ r c v, loc p r c = Some v →
                ∃ q, v = Fin q ∧ (qz 0 <= q)%Qc ∧ (q <= qz 100)%Qc.
Proof.
  intros Hdf Hx Hy Hxd Hyd Hret Hlen. unfold outcome.
  rewrite (create_pivot_table_run _ _ _ t) by done. cbn [fst].
  rewrite (pivot_of_frame_bucketed _ t _ _ _ _ _ _ _ xs ys xd yd) by done.
  cbv zeta. pick_metric.
  rewrite (aggregate_run t _ _ _ _ _ _ Hret (to_numeric_bools retained)).
  cbn [fmap result_fmap]. eexists; split; [done|].
  intros r c v.
  rewrite crosstab_values_layout;
    [|apply agg_mean_finite|apply bool_num_finite|by rewrite length_map].
  unfold fillna, df_round. rewrite !df_map_grid.
  intros (_ & _ & ->)%loc_grid_inv. cbv beta.
  case_decide as Hin.
  - apply elem_of_present_keys in Hin.
    pose proof Hin as [[Hr Hc] _]%list_elem_of_filter.
    cbn [fst snd] in Hr, Hc. rewrite group_bools by done.
    set (flags := cell_rows xd yd retained (r, c)).
    assert (Hne : flags ≠ []).
    { intros E.
      apply (group_nonempty xd yd (map bool_num retained) (r, c)).
      - unfold table_keys. rewrite keyed_rows_keys by (by rewrite length_map).
        by apply elem_of_present_keys.
      - rewrite group_bools by done. fold flags. by rewrite E. }
    rewrite agg_mean_bools by done.
    cbn [num_round num_mul nz num_isnan]. eexists. split; [reflexivity|].
    apply percent_unit; apply qround_unit; apply ratio_unit;
      first [apply length_filter | destruct flags; [done|simpl; lia]].
  - cbn [num_round num_mul num_isnan]. exists (qz 0). split; [done|].
    split; apply (bool_decide_unpack _); by vm_compute.
Qed.

End RetentionRange.

(** X25 on a cell of four rows whose flags are true, true, true, false. *)
Lemma retention_rate_range_witness :
  ∃ p, outcome (create_pivot_table no_periods 0 "gender" "country"
                  "Retention Rate" None None None None) {[ 0 := one_cell ]}
       = Ok p ∧
       ∃ q, loc p (VStr "F") (VStr "US") = Some (Fin q) ∧
            (qz 0 <= q)%Qc ∧ (q <= qz 100)%Qc.
Proof.
  assert (Hdf : ({[ 0 := one_cell ]} : heap) !! 0 = Some one_cell)
    by reflexivity.
  assert (Hx : one_cell !! "gender" = Some (VStr <$> ["F"; "F"; "F"; "F"]))
    by reflexivity.
  assert (Hy : one_cell !! "country" = Some (VStr <$> ["US"; "US"; "US"; "US"]))
    by reflexivity.
  assert (Hr : one_cell !! "is_retained"
               = Some (VBool <$> [true; true; true; false]))
    by reflexivity.
  destruct (retention_rate_range no_periods {[ 0 := one_cell ]} 0 one_cell
              "gender" "country" None None None None _ _ _ _
              [true; true; true; false] Hdf Hx Hy eq_refl eq_refl Hr)
    as (p & Hp & Hcell); [simpl; lia|].
  exists p. split; [exact Hp|].
  assert (Hloc : loc p (VStr "F") (VStr "US") = Some (nz 75)).
  { injection Hp as <-. apply (bool_decide_unpack _). by vm_compute. }
  destruct (Hcell _ _ _ Hloc) as (q & [= <-] & Hq).
  exists (qz 75). by split.
Defined.

(** ** The two cuts outside the registry *)

(** The cell a labelled cut gives a number. *)
Lemma pd_cut_cell s ys bins labels i x :
  monotonic_increasing bins = true → length labels = length bins - 1 →
  pd_cut s bins (Some labels) false = Ok ys →
  s !! i = Some (VNum x) →
  (∀ b, head bins = Some b → num_ltb b x = false → ys !! i = Some VNA) ∧
  (∀ k label,
     ys !! i = Some (VCat k label)
     ↔ labels !! k = Some label ∧
       ∃ lo hi, bins !! k = Some lo ∧ bins !! S k = Some hi ∧
                num_ltb lo x = true ∧ num_ltb hi x = false).
Proof.
  intros Hmono Hlen (nums & Hnums & ->)%pd_cut_Ok Hi.
  destruct (rmap_lookup _ _ _ _ _ Hnums Hi) as (x' & [= <-] & Hx').
  rewrite list_lookup_fmap, Hx'. cbn [fmap option_fmap option_map].
  destruct (cut_one_labelled bins labels x Hlen)
    as [[Hcut Hout]|(k0 & label0 & Hcut & Hlabel & Hk)]; rewrite Hcut.
  - split; [done|]. intros k label. split; [done|].
    intros (_ & lo & hi & Hlo & Hhi & Hx & Hnx).
    pose proof (count_below_between _ _ _ _ _ Hmono Hlo Hhi Hx Hnx) as Hk.
    destruct Hout as [Hnan|[Hz|Hall]].
    + destruct x; try done. by destruct lo.
    + congruence.
    + apply lookup_lt_Some in Hhi. lia.
  - split.
    + intros b Hb Hx. destruct bins as [|b' bins]; [done|].
      injection Hb as ->. cbn [count_below] in Hk. by rewrite Hx in Hk.
    + intros k label. split.
      * intros [= <- <-]. split; [done|].
        destruct (count_below_bracket _ _ _ Hk) as [(lo & Hlo & Hx) Hhi].
        destruct (lookup_lt_is_Some_2 bins (S k0)) as [hi Hhi'].
        { pose proof (count_below_le bins x) as Hle.
          apply lookup_lt_Some in Hlabel. lia. }
        exists lo, hi. repeat split; try done. by apply Hhi.
      * intros (Hl & lo & hi & Hlo & Hhi & Hx & Hnx).
        pose proof (count_below_between _ _ _ _ _ Hmono Hlo Hhi Hx Hnx) as Hk'.
        assert (k = k0) as -> by congruence. congruence.
Qed.

Section SpecialCuts.

Variable to_period : period → series → result series.

Lemma special_cut_run s d n bins labels cr :
  (d, n, bins, labels) ∈ special_cuts →
  apply_bucketing to_period s d (Some n) cr = pd_cut s bins (Some labels) false
  ∧ monotonic_increasing bins = true ∧ length labels = length bins - 1
  ∧ head bins = Some (nz 0).
Proof.
  unfold special_cuts. rewrite !elem_of_cons, elem_of_nil.
  intros [[= -> -> -> ->]|[[= -> -> -> ->]|[]]];
    (split; [|by repeat split]); unfold apply_bucketing; pick_metric;
    cbn [orb andb mbind option_bind].
  - replace (registered "churn_risk_score" "Risk Levels") with (@None strategy)
      by reflexivity.
    by pick_metric.
  - replace (registered "nps_score" "NPS Categories") with (@None strategy)
      by reflexivity.
    by pick_metric.
Qed.

(** X26.  The strategies "Risk Levels" of [churn_risk_score] and
    "NPS Categories" of [nps_score], which [apply_bucketing] cuts itself,
    give a numeric cell the label at position [k] exactly when its value
    lies in [(edge k, edge k+1]]; the lowest edge 0 is left out, so an NPS
    score of 0 gets no category although the first label reads
    "Detractors (0-6)". *)
Theorem special_cut_cell (s ys : series) (dimension name : string)
    (bins : list num) (labels : list string) (custom_ranges : option string)
    (i : nat) (x : num) :
  (dimension, name, bins, labels) ∈ special_cuts →
  apply_bucketing to_period s dimension (Some name) custom_ranges = Ok ys →
  s !! i = Some (VNum x) →
  (num_ltb (nz 0) x = false → ys !! i = Some VNA) ∧
  (∀ k label,
     ys !! i = Some (VCat k label)
     ↔ labels !! k = Some label ∧
       ∃ lo hi, bins !! k = Some lo ∧ bins !! S k = Some hi ∧
                num_ltb lo x = true ∧ num_ltb hi x = false).
Proof.
  intros Hin Hys Hi.
  destruct (special_cut_run s _ _ _ _ custom_ranges Hin)
    as (Hrun & Hmono & Hlen & Hhd).
  rewrite Hrun in Hys.
  destruct (pd_cut_cell s ys bins labels i x Hmono Hlen Hys Hi) as [Hlow Hcell].
  split; [|done]. intros Hx. by apply (Hlow (nz 0)).
Qed.

End SpecialCuts.

(** X26 on the NPS scores 0 and 6. *)
Lemma special_cut_cell_witness :
  ∃ ys, apply_bucketing no_periods [VNum (nz 0); VNum (nz 6)] "nps_score"
          (Some "NPS Categories") None = Ok ys ∧
        ys !! 0 = Some VNA.
Proof.
  eexists. split; [reflexivity|].
  refine (proj1 (special_cut_cell no_periods [VNum (nz 0); VNum (nz 6)] _
                   "nps_score" "NPS Categories" (zs [0; 6; 8; 10]%Z)
                   ["Detractors (0-6)"; "Passives (7-8)"; "Promoters (9-10)"]
                   None 0 (nz 0) _ eq_refl eq_refl) eq_refl).
  right. by left.
Defined.

(** * Properties of the audiences *)

Lemma audience_without_condition name :
  assoc name get_audience_definitions = Some [] → name = "All Users".
Proof.
  unfold get_audience_definitions. cbn [assoc].
  repeat (case_decide; [by intros [= ]|]). done.
Qed.

(** Every audience with a condition has one condition; it is a comparison
    or a membership test with one literal, except for "Young Adults". *)
Lemma audience_conditions name items :
  assoc name get_audience_definitions = Some items → items ≠ [] →
  name = "Young Adults"
  ∨ ∃ column operator value,
      items = [(column, (operator, [value]))] ∧
      operator ∈ [">"; "<"; "<="; "=="; "in"].
Proof.
  unfold get_audience_definitions. cbn [assoc].
  repeat (case_decide;
          [intros [= <-] Hne; first [done | by left |
             right; do 3 eexists; split; [reflexivity|set_solver]]|]).
  done.
Qed.

Section AudienceProperties.

Variable compare : string → series → operand → attempt (list bool).
Variable isin : series → operand → attempt (list bool).

Lemma G_index_inv l mask h r h' :
  G_index l mask h = (r, h') →
  h ⊆ h' ∧ ∀ l', r = Returns l' → l' ∉ dom h.
Proof.
  unfold G_index. destruct (h !! l) as [t|]; intros [= <- <-].
  - split.
    + apply insert_subseteq, not_elem_of_dom, is_fresh.
    + intros l' [= <-]. apply is_fresh.
  - done.
Qed.

(** A pass of the loop only adds an object to the store; the reference it
    returns is the one it was given or a new one. *)
Lemma apply_condition_inv l column tuple h r h' :
  apply_condition compare isin l column tuple h = (r, h') →
  h ⊆ h' ∧ ∀ l', r = Returns l' → l' = l ∨ l' ∉ dom h.
Proof.
  unfold apply_condition, mbind, G_bind, G_lift, G_getitem, mret, G_ret.
  destruct (unpack tuple) as [[operator value]|e]; [|by intros [= <- <-]].
  repeat case_bool_decide;
    repeat (match goal with
            | |- context [match ?x with _ => _ end] =>
                lazymatch x with
                | context [match _ with _ => _ end] => fail
                | _ => destruct x eqn:?
                end
            end; try (by intros [= <- <-]));
    try (intros [Hsub Hnew]%G_index_inv; split; [done|];
         intros l' Hl'; right; by apply Hnew).
  intros [= <- <-]. split; [done|]. intros l' [= <-]. by left.
Qed.

Lemma apply_conditions_inv items l h r h' :
  apply_conditions compare isin items l h = (r, h') →
  h ⊆ h' ∧ ∀ l', r = Returns l' → l' = l ∨ l' ∉ dom h.
Proof.
  revert l h. induction items as [|[column tuple] items IH]; intros l h.
  - intros [= <- <-]. split; [done|]. intros l' [= <-]. by left.
  - cbn [apply_conditions]. unfold mbind, G_bind.
    destruct (apply_condition _ _ l column tuple h) as [[l1|e] h1] eqn:H1.
    + apply apply_condition_inv in H1 as [Hsub1 Hnew1].
      intros [Hsub Hnew]%IH. split; [by etrans|].
      intros l' Hl'. destruct (Hnew l' Hl') as [->|Hfresh].
      * by apply Hnew1.
      * right. intros Hin. apply Hfresh.
        by apply (subseteq_dom _ _ Hsub1).
    + apply apply_condition_inv in H1 as [Hsub1 _].
      by intros [= <- <-].
Qed.

Lemma filter_by_audience_inv df name h r h' :
  filter_by_audience compare isin df name h = (r, h') →
  h ⊆ h' ∧
  ∀ l, r = Returns l →
       (name = "All Users" ∧ l = df) ∨ (name ≠ "All Users" ∧ l ∉ dom h).
Proof.
  unfold filter_by_audience, mbind, G_bind, G_lift.
  destruct (assoc name get_audience_definitions) as [items|] eqn:Hname;
    [|by intros [= <- <-]].
  destruct items as [|item items].
  - intros [= <- <-]. split; [done|]. intros l [= <-]. left.
    split; [by apply audience_without_condition|done].
  - assert (name ≠ "All Users") as Hne by (by intros ->).
    unfold G_copy. destruct (h !! df) as [t|]; [|by intros [= <- <-]].
    assert (h ⊆ <[fresh (dom h) := t]> h) as Hsub0
      by apply insert_subseteq, not_elem_of_dom, is_fresh.
    intros [Hsub Hnew]%apply_conditions_inv. split; [by etrans|].
    intros l Hl. right. split; [done|].
    destruct (Hnew l Hl) as [->|Hfresh].
    + apply is_fresh.
    + intros Hin. apply Hfresh. by apply (subseteq_dom _ _ Hsub0).
Qed.

(** X18.  [filter_by_audience] never changes a table of the store: whether
    it returns or raises, every object the store held is still there with
    the same contents. *)
Theorem filter_by_audience_pure (df : nat) (audience_name : string)
    (h : heap) (l : nat) (t : frame) :
  h !! l = Some t →
  (filter_by_audience compare isin df audience_name h).2 !! l = Some t.
Proof.
  intros Hl.
  destruct (filter_by_audience compare isin df audience_name h)
    as [r h'] eqn:Hrun.
  apply filter_by_audience_inv in Hrun as [Hsub _].
  by apply (lookup_weaken h).
Qed.

(** X19.  For "All Users" the caller gets back the very reference it
    passed, not a copy; for every other audience a returned reference is a
    new object of the store. *)
Theorem filter_by_audience_alias (df : nat) (audience_name : string)
    (h : heap) (l : nat) :
  (filter_by_audience compare isin df audience_name h).1 = Returns l →
  (audience_name = "All Users" ∧ l = df)
  ∨ (audience_name ≠ "All Users" ∧ l ∉ dom h).
Proof.
  destruct (filter_by_audience compare isin df audience_name h)
    as [r h'] eqn:Hrun.
  cbn [fst]. intros ->.
  apply filter_by_audience_inv in Hrun as [_ Hnew]. by apply Hnew.
Qed.

(** X20.  The audience "Young Adults" cannot be used: its condition is a
    tuple of three components, and on every table of the store the call
    raises [ValueError] when it unpacks the tuple. *)
Theorem young_adults_raises (df : nat) (h : heap) (t : frame) :
  h !! df = Some t →
  (filter_by_audience compare isin df "Young Adults" h).1
  = Raises PyValueError.
Proof.
  intros Hdf. unfold filter_by_audience, mbind, G_bind, G_lift.
  replace (assoc "Young Adults" get_audience_definitions)
    with (Some [("age", ("between", [ONum (nz 18); ONum (nz 35)]))])
    by reflexivity.
  unfold G_copy. by rewrite Hdf.
Qed.

(** X21.  Every other audience with a condition tests one column against
    one literal.  On a table of the store that has the column, when the
    test gives a flag for each row, the call returns a new object that
    holds, in every column, the rows whose flag is set; without the
    column it raises [KeyError]. *)
Theorem audience_rows (df : nat) (audience_name : string) (h : heap)
    (t : frame) (items : list (string * condition)) :
  assoc audience_name get_audience_definitions = Some items →
  items ≠ [] → audience_name ≠ "Young Adults" →
  h !! df = Some t →
  ∃ column operator value,
    items = [(column, (operator, [value]))] ∧
    let test col := if bool_decide (operator = "in") then isin col value
                    else compare operator col value in
    let run := filter_by_audience compare isin df audience_name h in
    (t !! column = None → run.1 = Raises PyKeyError) ∧
    (∀ col mask, t !! column = Some col → test col = Returns mask →
       ∃ l, run.1 = Returns l ∧ (l ∉ dom h) ∧
            run.2 !! l = Some (select mask t)).
Proof.
  intros Hname Hne Hya Hdf.
  destruct (audience_conditions _ _ Hname Hne)
    as [?|(column & operator & value & -> & Hop)]; [done|].
  exists column, operator, value. split; [done|]. cbv zeta.
  unfold filter_by_audience, mbind, G_bind, G_lift. rewrite Hname.
  unfold G_copy. rewrite Hdf.
  set (l1 := fresh (dom h)). set (h1 := <[l1 := t]> h).
  assert (Hl1 : h1 !! l1 = Some t) by apply lookup_insert_eq.
  cbn [apply_conditions]. unfold mbind, G_bind.
  assert (Hstep : apply_condition compare isin l1 column (operator, [value]) h1
                  = match t !! column with
                    | Some col =>
                        match (if bool_decide (operator = "in")
                               then isin col value
                               else compare operator col value) with
                        | Returns mask => G_index l1 mask h1
                        | Raises e => (Raises e, h1)
                        end
                    | None => (Raises PyKeyError, h1)
                    end).
  { unfold apply_condition, unpack, mbind, G_bind, G_lift, G_getitem.
    cbn [snd fst]. cbv beta iota zeta.
    rewrite !elem_of_cons, elem_of_nil in Hop.
    destruct Hop as [->|[->|[->|[->|[->|[]]]]]]; pick_metric;
      cbv beta; rewrite Hl1; cbn [mbind option_bind];
      by destruct (t !! column). }
  rewrite Hstep. split.
  - by intros ->.
  - intros col mask -> ->. unfold G_index. rewrite Hl1.
    eexists. split; [reflexivity|]. cbn [snd mret G_ret]. split.
    + intros Hin. apply (is_fresh (dom h1)).
      apply (subseteq_dom h h1); [|done].
      apply insert_subseteq, not_elem_of_dom, is_fresh.
    + apply lookup_insert_eq.
Qed.

End AudienceProperties.

(** X18 on "High Value Customers": the caller's table stays. *)
Lemma filter_by_audience_pure_witness :
  (filter_by_audience compare_numbers no_isin 0 "High Value Customers"
     {[ 0 := three_customers ]}).2 !! 0 = Some three_customers.
Proof.
  apply (filter_by_audience_pure compare_numbers no_isin 0
           "High Value Customers" {[ 0 := three_customers ]} 0 three_customers).
  reflexivity.
Defined.

(** X19 on "High Value Customers": the reference returned is not the
    caller's. *)
Lemma filter_by_audience_alias_witness :
  ∃ l, (filter_by_audience compare_numbers no_isin 0 "High Value Customers"
          {[ 0 := three_customers ]}).1 = Returns l ∧ l ≠ 0.
Proof.
  assert (Hrun : ∃ l, (filter_by_audience compare_numbers no_isin 0
                         "High Value Customers" {[ 0 := three_customers ]}).1
                      = Returns l).
  { eexists. by vm_compute. }
  destruct Hrun as [l Hl]. exists l. split; [exact Hl|].
  destruct (filter_by_audience_alias compare_numbers no_isin 0
              "High Value Customers" {[ 0 := three_customers ]} l Hl)
    as [[E _]|[_ Hfresh]]; [discriminate E|].
  intros ->. apply Hfresh. apply elem_of_dom. by eexists.
Defined.

(** X20 on a table of three customers. *)
Lemma young_adults_raises_witness :
  (filter_by_audience compare_numbers no_isin 0 "Young Adults"
     {[ 0 := three_customers ]}).1 = Raises PyValueError.
Proof.
  apply (young_adults_raises compare_numbers no_isin 0
           {[ 0 := three_customers ]} three_customers).
  reflexivity.
Defined.

(** X21 on "High Value Customers": of the lifetime values 500, 1500 and
    2500, the rows above 1000 are kept. *)
Lemma audience_rows_witness :
  ∃ l, (filter_by_audience compare_numbers no_isin 0 "High Value Customers"
          {[ 0 := three_customers ]}).1 = Returns l ∧
       (filter_by_audience compare_numbers no_isin 0 "High Value Customers"
          {[ 0 := three_customers ]}).2 !! l
       = Some (select [false; true; true] three_customers).
Proof.
  destruct (audience_rows compare_numbers no_isin 0 "High Value Customers"
              {[ 0 := three_customers ]} three_customers
              [("ltv", (">", [ONum (nz 1000)]))])
    as (column & operator & value & Hitems & _ & Hrows);
    [reflexivity|discriminate|discriminate|reflexivity|].
  injection Hitems as <- <- <-.
  destruct (Hrows [VNum (nz 500); VNum (nz 1500); VNum (nz 2500)]
              [false; true; true]) as (l & Hl & _ & Hsel);
    [reflexivity|reflexivity|].
  by exists l.
Defined.
